(** * Record CRUD API of hanzoai/backendPB: access rules, hooks and finalizers

    A shallow embedding of the record handlers of package [apis]
    ([recordsList], [recordView], [recordCreate], [recordUpdate],
    [recordDelete]) and of their helpers ([randomizedThrottle],
    [recordDataFromRequest], [extractUploadedFiles], [hasAuthManageAccess]).
    In the sources they are the second Go file held in [apis/base_test.go],
    from its line 387 on.

    The handlers are written in a state-and-error monad over a [World]
    (record heap, persisted rows, rate limiter store, the handler's
    finalizer flag and the log of the calls made to the collaborators).
    What the collaborators answer (collection cache, request parsing,
    expression builder, query engine, form validation, hooks, random
    source) is read from an [Env].  Collaborators whose behaviour a
    property depends on are given a definition of their own, marked as
    modelled.

    Three smaller pieces of the repository follow, each in a module of
    its own: [addressesToStrings] of [tools/mailer/mailer.go],
    [skipBootstrap] and [Execute] of [hanzobase.go], and
    [refreshProtectedFilesCollectionsCache] of the admin UI's
    [stores/collections.js]. *)

From Stdlib Require Import ZArith List Bool Lia.
From Stdlib Require String.
From stdpp Require Import base option list gmap strings.

#[local] Set Warnings "-register-all".

(** ** Errors *)

(** Go [error] values as the handlers see them: plain errors
    ([errors.New], [sql.ErrNoRows]), errors wrapped with
    [fmt.Errorf("...: %w", err)] (the wrapped error may be nil), joined
    errors and [*router.ApiError]. *)
Inductive error : Type :=
| PlainError (msg : string)
| WrapError (msg : string) (inner : option error)
| JoinError (errs : list error)
| ApiError (status : nat) (message : string) (rawData : option error).

Definition ErrNoRows : error := PlainError "sql: no rows in result set".
Definition ErrMissingFile : error := PlainError "http: no such file".

(** Modelled from the spec: the error constructors of the router package
    ([e.BadRequestError] and its siblings) are not part of the sources; the
    spec fixes their status codes (400, 403, 404, 500). *)
Definition BadRequestError (message : string) (data : option error) : error :=
  ApiError 400 message data.
Definition ForbiddenError (message : string) (data : option error) : error :=
  ApiError 403 message data.
Definition NotFoundError (message : string) (data : option error) : error :=
  ApiError 404 message data.
Definition TooManyRequestsError (message : string) (data : option error) : error :=
  ApiError 429 message data.
Definition InternalServerError (message : string) (data : option error) : error :=
  ApiError 500 message data.

(** What a client can see of an error: the status code and the message.
    The raw data of the errors built in this file is a wrapped Go error,
    which is logged and never serialized. *)
Definition visible (e : error) : option (nat * string) :=
  match e with
  | ApiError status message _ => Some (status, message)
  | _ => None
  end.

(** [errors.As(err, &apiErr)]: the first [*router.ApiError] in the chain of
    [err]. *)
Fixpoint asApiError (e : error) : option error :=
  match e with
  | ApiError _ _ _ => Some e
  | WrapError _ (Some inner) => asApiError inner
  | WrapError _ None => None
  | JoinError errs =>
      (fix first (l : list error) : option error :=
         match l with
         | [] => None
         | x :: rest =>
             match asApiError x with
             | Some a => Some a
             | None => first rest
             end
         end) errs
  | PlainError _ => None
  end.

Fixpoint nonNil (errs : list (option error)) : list error :=
  match errs with
  | [] => []
  | Some e :: rest => e :: nonNil rest
  | None :: rest => nonNil rest
  end.

(** Modelled from the spec: [firstApiError] is declared outside the
    sources; it returns the first argument that is (or wraps) an API error
    and an internal server error over the joined arguments otherwise. *)
Fixpoint firstApiErrorIn (errs : list (option error)) : option error :=
  match errs with
  | [] => None
  | None :: rest => firstApiErrorIn rest
  | Some e :: rest =>
      match asApiError e with
      | Some a => Some a
      | None => firstApiErrorIn rest
      end
  end.

Definition firstApiError (errs : list (option error)) : error :=
  match firstApiErrorIn errs with
  | Some a => a
  | None => InternalServerError "" (Some (JoinError (nonNil errs)))
  end.

(** ** Collections, fields, records *)

Inductive CollectionType : Type := TypeBase | TypeAuth | TypeView.

Definition FieldTypeFile : string := "file".
Definition FieldNamePassword : string := "password".
Definition FieldNameVerified : string := "verified".
Definition RequestInfoContextOAuth2 : string := "oauth2".

Record Field : Type := mkField {
  GetName : string;
  FieldType : string;
  GetHidden : bool
}.

(** The five rule slots and [ManageRule] are [*string] in the source:
    [None] is the nil pointer, [Some ""] the empty rule. *)
Record Collection : Type := mkCollection {
  Id : string;
  Name : string;
  CType : CollectionType;
  Fields : list Field;
  ListRule : option string;
  ViewRule : option string;
  CreateRule : option string;
  UpdateRule : option string;
  DeleteRule : option string;
  ManageRule : option string
}.

Definition IsView (c : Collection) : bool :=
  match CType c with TypeView => true | _ => false end.
Definition IsAuth (c : Collection) : bool :=
  match CType c with TypeAuth => true | _ => false end.

Inductive Value : Type :=
| VNull
| VBool (b : bool)
| VNumber (z : Z)
| VString (s : string)
| VPassword (plain hash : string)
| VFile (name : string)
| VList (items : list Value).

(** A record object: what a [*core.Record] points to. *)
Record RecordObj : Type := mkRecord {
  recCollection : Collection;
  recId : string;
  recData : gmap string Value
}.

(** [*core.Record]: an address in the record heap. *)
Definition loc : Type := nat.

(** ** Requests *)

Record AuthRecord : Type := mkAuth {
  authId : string;
  IsSuperuser : bool
}.

Record RequestInfo : Type := mkRequestInfo {
  Auth : option AuthRecord;
  Context : string;
  Query : gmap string string;
  Body : gmap string Value
}.

Definition HasSuperuserAuth (info : RequestInfo) : bool :=
  match Auth info with
  | Some a => IsSuperuser a
  | None => false
  end.

Definition withBody (info : RequestInfo) (data : gmap string Value) : RequestInfo :=
  {| Auth := Auth info; Context := Context info; Query := Query info; Body := data |}.

(** Reading a Go [map[string]string]: a missing key reads as [""]. *)
Definition queryParam (info : RequestInfo) (key : string) : string :=
  default "" (Query info !! key).

Record RequestEvent : Type := mkRequestEvent {
  pathCollection : string;      (* e.Request.PathValue("collection") *)
  pathId : string;              (* e.Request.PathValue("id") *)
  contentType : string;         (* e.Request.Header.Get("content-type") *)
  urlQuery : string             (* e.Request.URL.Query().Encode() *)
}.

(** ** Queries and field resolvers *)

(** A compiled filter expression: its source text and the rows it keeps. *)
Record Expr : Type := mkExpr {
  exprText : string;
  exprHolds : RecordObj -> bool
}.

(** [*dbx.SelectQuery], as far as the handlers build it. *)
Record SelectQuery : Type := mkQuery {
  qPreFragment : string;
  qFrom : string;
  qWhere : list Expr;
  qParams : gmap string Value;
  qJoins : list string;
  qLimit : option nat
}.

Definition AndWhere (q : SelectQuery) (x : Expr) : SelectQuery :=
  {| qPreFragment := qPreFragment q; qFrom := qFrom q;
     qWhere := qWhere q ++ [x]; qParams := qParams q;
     qJoins := qJoins q; qLimit := qLimit q |}.

Definition Limit (q : SelectQuery) (n : nat) : SelectQuery :=
  {| qPreFragment := qPreFragment q; qFrom := qFrom q;
     qWhere := qWhere q; qParams := qParams q;
     qJoins := qJoins q; qLimit := Some n |}.

(** [e.App.RecordQuery(collection)]. *)
Definition RecordQuery (c : Collection) : SelectQuery :=
  {| qPreFragment := ""; qFrom := Name c; qWhere := []; qParams := ∅;
     qJoins := []; qLimit := None |}.

(** [e.App.DB().Select("(1)").PreFragment(pre).From(table).AndBind(params)]. *)
Definition SelectOne (pre table : string) (params : gmap string Value) : SelectQuery :=
  {| qPreFragment := pre; qFrom := table; qWhere := []; qParams := params;
     qJoins := []; qLimit := None |}.

(** [dbx.HashExp{table + ".id": id}]. *)
Definition idEquals (table id : string) : Expr :=
  {| exprText := table +:+ ".id"; exprHolds := fun r => String.eqb (recId r) id |}.

Record RecordFieldResolver : Type := mkResolver {
  resCollection : Collection;
  resRequestInfo : option RequestInfo;
  allowHiddenFields : bool;
  resJoins : list string
}.

Definition NewRecordFieldResolver (c : Collection) (info : option RequestInfo)
    (allowHidden : bool) : RecordFieldResolver :=
  {| resCollection := c; resRequestInfo := info;
     allowHiddenFields := allowHidden; resJoins := [] |}.

Definition SetAllowHiddenFields (r : RecordFieldResolver) (b : bool) : RecordFieldResolver :=
  {| resCollection := resCollection r; resRequestInfo := resRequestInfo r;
     allowHiddenFields := b; resJoins := resJoins r |}.

(** [resolver.UpdateQuery(q)]: the joins the resolver registered while
    the expression was built are added to the query. *)
Definition UpdateQuery (r : RecordFieldResolver) (q : SelectQuery) : SelectQuery :=
  {| qPreFragment := qPreFragment q; qFrom := qFrom q;
     qWhere := qWhere q; qParams := qParams q;
     qJoins := qJoins q ++ resJoins r; qLimit := qLimit q |}.

(** ** The world of a request *)

Inductive Access : Type := AccessDefault | AccessManager | AccessSuperuser.

(** The two places that run a rule query with [Row]. *)
Inductive QuerySite : Type := CreateRuleQuery | ManageRuleQuery.

(** Calls to the collaborators, in the order they are made. *)
Inductive Effect : Type :=
| EffRateLimit (label : string)
| EffSearch (resolver : RecordFieldResolver) (q : SelectQuery) (rawQuery : string)
| EffFindRecord (q : SelectQuery)
| EffQueryRow (site : QuerySite) (q : SelectQuery)
| EffDBExport (r : RecordObj)
| EffSave (access : Access) (r : RecordObj)
| EffDelete (r : RecordObj)
| EffJSON (status : nat)
| EffNoContent (status : nat)
| EffFinalizer (r : loc)
| EffSleep (milliseconds : Z)
| EffLog (msg : string).

Record World : Type := mkWorld {
  heap : list RecordObj;          (* record objects, by address *)
  rows : list RecordObj;          (* persisted rows *)
  limiters : gmap string nat;     (* requests counted per limiter id *)
  isOptFinalizerCalled : bool;    (* the handler's local flag, shared with its closure *)
  trace : list Effect
}.

Definition setHeap (w : World) (h : list RecordObj) : World :=
  {| heap := h; rows := rows w; limiters := limiters w;
     isOptFinalizerCalled := isOptFinalizerCalled w; trace := trace w |}.
Definition setRows (w : World) (r : list RecordObj) : World :=
  {| heap := heap w; rows := r; limiters := limiters w;
     isOptFinalizerCalled := isOptFinalizerCalled w; trace := trace w |}.
Definition setLimiters (w : World) (l : gmap string nat) : World :=
  {| heap := heap w; rows := rows w; limiters := l;
     isOptFinalizerCalled := isOptFinalizerCalled w; trace := trace w |}.
Definition setFlag (w : World) (b : bool) : World :=
  {| heap := heap w; rows := rows w; limiters := limiters w;
     isOptFinalizerCalled := b; trace := trace w |}.
Definition addEffect (w : World) (e : Effect) : World :=
  {| heap := heap w; rows := rows w; limiters := limiters w;
     isOptFinalizerCalled := isOptFinalizerCalled w; trace := trace w ++ [e] |}.

(** ** The monad of the handlers *)

(** A computation changes the world and either returns early with a
    non-nil [error] or yields a value. *)
Definition M (A : Type) : Type := World -> World * (error + A).

Definition ret {A : Type} (a : A) : M A := fun w => (w, inr a).
Definition fail {A : Type} (e : error) : M A := fun w => (w, inl e).
Definition bind {A B : Type} (m : M A) (k : A -> M B) : M B :=
  fun w =>
    match m w with
    | (w', inl e) => (w', inl e)
    | (w', inr a) => k a w'
    end.

Notation "'do' x <- m ; k" := (bind m (fun x => k))
  (at level 10, x pattern, m at level 100, k at level 200).

Definition emit (e : Effect) : M unit := fun w => (addEffect w e, inr tt).
Definition get : M World := fun w => (w, inr w).

(** [if cond { return err }]. *)
Definition returnIf (cond : bool) (e : error) : M unit :=
  if cond then fail e else ret tt.

(** [if err != nil { return f(err) }]. *)
Definition returnErr (err : option error) (f : error -> error) : M unit :=
  match err with
  | Some e => fail (f e)
  | None => ret tt
  end.

(** A call that returns [(value, err)]: the caller maps a non-nil [err]. *)
Definition orReturn {A : Type} (r : error + A) (f : error -> error) : M A :=
  match r with
  | inl e => fail (f e)
  | inr a => ret a
  end.

(** Running a callee that returns [(value, err)] and mapping its error. *)
Definition try {A : Type} (m : M A) (f : error -> error) : M A :=
  fun w =>
    match m w with
    | (w', inl e) => (w', inl (f e))
    | (w', inr a) => (w', inr a)
    end.

(** The [error] a handler returns: nil on success. *)
Definition result {A : Type} (r : World * (error + A)) : option error :=
  match snd r with
  | inl e => Some e
  | inr _ => None
  end.

(** The calls a run added to the log. *)
Definition effectsOf {A : Type} (m : M A) (w : World) : list Effect :=
  drop (length (trace w)) (trace (fst (m w))).

(** Record heap *)
Definition alloc (r : RecordObj) : M loc :=
  fun w => (setHeap w (heap w ++ [r]), inr (length (heap w))).

Definition load (p : loc) : M RecordObj :=
  fun w =>
    match heap w !! p with
    | Some r => (w, inr r)
    | None => (w, inl (PlainError "nil record"))
    end.

Definition store (p : loc) (r : RecordObj) : M unit :=
  fun w => (setHeap w (<[p := r]> (heap w)), inr tt).

(** ** Collaborators *)

(** Modelled from the spec: the hook chain is not part of the sources.  A
    registered handler either calls [e.Next()] and returns its result, or
    stops the chain and returns its own result (nil or an error) without
    reaching the later stages. *)
Inductive HookHandler : Type :=
| HookNext
| HookStop (r : option error).

Record RateLimitRule : Type := mkRateLimitRule {
  MaxRequests : nat;
  Duration : nat
}.

(** What the collaborators of one request answer. *)
Record Env : Type := mkEnv {
  FindCachedCollectionByNameOrId : string -> option Collection * option error;
  checkCollectionRateLimitResult : Collection -> string -> option error;
  RequestInfoResult : error + RequestInfo;
  checkForSuperuserOnlyRuleFields : RequestInfo -> option error;
  (* search.FilterData(rule).BuildExpr(resolver): the expression and the
     resolver with the joins it registered *)
  BuildExpr : string -> RecordFieldResolver -> error + (Expr * RecordFieldResolver);
  (* searchProvider.ParseAndExec(rawQuery, &records) over the persisted rows *)
  ParseAndExec : RecordFieldResolver -> SelectQuery -> string -> list RecordObj ->
                 error + list RecordObj;
  (* query.Limit(1).Row(&exists) *)
  Row : SelectQuery -> option error * bool;
  EnrichRecords : list RecordObj -> option error;
  EnrichRecord : RecordObj -> option error;
  JSONResult : nat -> option error;
  NoContentResult : nat -> option error;
  ReplaceModifiers : RecordObj -> gmap string Value -> gmap string Value;
  FindUploadedFiles : string -> list string * option error;
  DBExport : RecordObj -> error + gmap string Value;
  (* forms.RecordUpsert: loading the submitted data, validating and saving *)
  LoadData : Access -> RecordObj -> gmap string Value -> RecordObj;
  Save : Access -> RecordObj -> error + RecordObj;
  DeleteResult : RecordObj -> option error;
  Columnify : string -> string;
  PseudorandomString : nat -> string;
  RandomString : nat -> string;
  (* what crypto/rand's Reader yields: a read error or raw entropy *)
  randReader : error + Z;
  OnRecordsListRequest : list HookHandler;
  OnRecordViewRequest : list HookHandler;
  OnRecordCreateRequest : list HookHandler;
  OnRecordUpdateRequest : list HookHandler;
  OnRecordDeleteRequest : list HookHandler
}.

(** [hook.Trigger(event, final)]: the registered handlers run in order and
    [final] runs last, when no handler stopped the chain. *)
Fixpoint Trigger {E : Type} (handlers : list HookHandler) (event : E)
    (final : E -> M unit) : M unit :=
  match handlers with
  | [] => final event
  | HookNext :: rest => Trigger rest event final
  | HookStop None :: _ => ret tt
  | HookStop (Some err) :: _ => fail err
  end.

(** [checkCollectionRateLimit(e, collection, tag)]: nil, or the error to
    return to the client. *)
Definition checkCollectionRateLimit (env : Env) (c : Collection) (tag : string) : M unit :=
  do _ <- emit (EffRateLimit (Id c +:+ ":" +:+ tag));
  returnErr (checkCollectionRateLimitResult env c tag) id.

(** Modelled from the spec: [checkRateLimit] is declared outside the
    sources.  A limiter counts the requests made under its id and answers
    with an error once [MaxRequests] of them were counted (the bucket is
    exhausted); until then it counts the request and answers nil.  That a
    non-nil answer means too many requests is how the handlers read it:
    [recordsList] throttles on it "because of too many failed searches",
    and the answer of [checkCollectionRateLimit] is returned to the client
    as its error.  The expiry of the window after [Duration] seconds is
    left out. *)
Definition checkRateLimit (rtId : string) (rule : RateLimitRule) : M (option error) :=
  fun w =>
    let used := default 0 (limiters w !! rtId) in
    if Nat.ltb used (MaxRequests rule)
    then (addEffect (setLimiters w (<[rtId := S used]> (limiters w))) (EffRateLimit rtId),
          inr None)
    else (addEffect w (EffRateLimit rtId), inr (Some (TooManyRequestsError "" None))).

Definition exhausted (w : World) (rtId : string) (rule : RateLimitRule) : bool :=
  negb (Nat.ltb (default 0 (limiters w !! rtId)) (MaxRequests rule)).

(** [cryptoRand.Int(cryptoRand.Reader, big.NewInt(max))]: a value of
    [[0, max)] drawn from the reader, or the reader's error. *)
Definition cryptoRandInt (env : Env) (max : Z) : error + Z :=
  match randReader env with
  | inl err => inl err
  | inr raw => inr (raw mod max)%Z
  end.

Definition respondJSON (env : Env) (status : nat) : M unit :=
  do _ <- emit (EffJSON status);
  returnErr (JSONResult env status) id.

Definition respondNoContent (env : Env) (status : nat) : M unit :=
  do _ <- emit (EffNoContent status);
  returnErr (NoContentResult env status) id.

(** Filters of [FindRecordById]: each may extend the query or fail. *)
Definition RuleFunc : Type := SelectQuery -> error + SelectQuery.

Fixpoint applyFilters (filters : list RuleFunc) (q : SelectQuery) : error + SelectQuery :=
  match filters with
  | [] => inr q
  | f :: rest =>
      match f q with
      | inl err => inl err
      | inr q' => applyFilters rest q'
      end
  end.

Definition matches (q : SelectQuery) (r : RecordObj) : bool :=
  String.eqb (Name (recCollection r)) (qFrom q) &&
  forallb (fun x => exprHolds x r) (qWhere q).

(** Modelled from the spec: [App.FindRecordById] is declared outside the
    sources.  It selects the row of the collection with the given id,
    narrowed by the optional filters; a filter's error is returned as it
    is, and a row that is missing or filtered out gives [sql.ErrNoRows]. *)
Definition FindRecordById (c : Collection) (id : string) (filters : list RuleFunc) : M loc :=
  do q <- orReturn (applyFilters filters (AndWhere (RecordQuery c) (idEquals (Name c) id))) (fun err => err);
  do _ <- emit (EffFindRecord q);
  do w <- get;
  match List.filter (matches q) (rows w) with
  | [] => fail ErrNoRows
  | r :: _ => alloc r
  end.

(** Modelled from the spec: [Record.Clone] and [Record.SetVerified] are
    declared outside the sources.  The clone is a new record object with
    the fields of the original; [SetVerified] writes the [verified] field
    of the object it is called on. *)
Definition Clone (p : loc) : M loc :=
  do r <- load p;
  alloc r.

Definition setVerified (r : RecordObj) (b : bool) : RecordObj :=
  {| recCollection := recCollection r; recId := recId r;
     recData := <[FieldNameVerified := VBool b]> (recData r) |}.

Definition SetVerified (p : loc) (b : bool) : M unit :=
  do r <- load p;
  store p (setVerified r b).

Definition setId (r : RecordObj) (id : string) : RecordObj :=
  {| recCollection := recCollection r; recId := id; recData := recData r |}.

(** [core.NewRecord(collection)]. *)
Definition NewRecord (c : Collection) : M loc :=
  alloc {| recCollection := c; recId := ""; recData := ∅ |}.

(** ** The upsert form *)

Record RecordUpsert : Type := mkForm {
  formRecord : loc;
  formAccess : Access
}.

Definition NewRecordUpsert (p : loc) : RecordUpsert :=
  {| formRecord := p; formAccess := AccessDefault |}.
Definition GrantSuperuserAccess (f : RecordUpsert) : RecordUpsert :=
  {| formRecord := formRecord f; formAccess := AccessSuperuser |}.
Definition GrantManagerAccess (f : RecordUpsert) : RecordUpsert :=
  {| formRecord := formRecord f; formAccess := AccessManager |}.
Definition SetRecord (f : RecordUpsert) (p : loc) : RecordUpsert :=
  {| formRecord := p; formAccess := formAccess f |}.
Definition HasManageAccess (f : RecordUpsert) : bool :=
  match formAccess f with
  | AccessDefault => false
  | _ => true
  end.

(** [form.Load(data)] writes the submitted values into the form's record. *)
Definition Load (env : Env) (f : RecordUpsert) (data : gmap string Value) : M unit :=
  do r <- load (formRecord f);
  store (formRecord f) (LoadData env (formAccess f) r data).

Definition sameRow (a b : RecordObj) : bool :=
  String.eqb (Name (recCollection a)) (Name (recCollection b)) &&
  String.eqb (recId a) (recId b).

(** [form.Submit()]: validates and saves the form's record. *)
Definition Submit (env : Env) (f : RecordUpsert) : M unit :=
  do r <- load (formRecord f);
  do _ <- emit (EffSave (formAccess f) r);
  do saved <- orReturn (Save env (formAccess f) r) (fun err => err);
  do _ <- store (formRecord f) saved;
  fun w => (setRows w (List.filter (fun x => negb (sameRow x saved)) (rows w) ++ [saved]), inr tt).

(** [e.App.Delete(record)]. *)
Definition Delete (env : Env) (p : loc) : M unit :=
  do r <- load p;
  do _ <- emit (EffDelete r);
  do _ <- returnErr (DeleteResult env r) (fun err => err);
  fun w => (setRows w (List.filter (fun x => negb (sameRow x r)) (rows w)), inr tt).

(** ** Helpers of the handlers *)

Definition HasSuffix (s suffix : string) : bool :=
  Nat.leb (String.length suffix) (String.length s) &&
  String.eqb (String.substring (String.length s - String.length suffix) (String.length suffix) s) suffix.

Definition HasPrefix (s pre : string) : bool := String.prefix pre s.

(** [errors.Is(err, http.ErrMissingFile)]. *)
Fixpoint isErrMissingFile (e : error) : bool :=
  match e with
  | PlainError msg => String.eqb msg "http: no such file"
  | WrapError _ (Some inner) => isErrMissingFile inner
  | WrapError _ None => false
  | JoinError errs =>
      (fix any (l : list error) : bool :=
         match l with
         | [] => false
         | x :: rest => isErrMissingFile x || any rest
         end) errs
  | ApiError _ _ _ => false
  end.

(** [randomizedThrottle]: sleeps a random number of milliseconds below
    [softMax], and [softMax] itself when the random source fails. *)
Definition randomizedThrottle (env : Env) (softMax : Z) : M unit :=
  let timeout :=
    match cryptoRandInt env softMax with
    | inr randRange => randRange
    | inl _ => softMax
    end in
  emit (EffSleep timeout).

Definition listTimingRateLimitRule : RateLimitRule :=
  {| MaxRequests := 3; Duration := 3 |}.

(** The inner loop of [extractUploadedFiles] over the keys of one field. *)
Fixpoint extractKeys (env : Env) (prefix : string) (keys : list string)
    (result : gmap string (list string)) : error + gmap string (list string) :=
  match keys with
  | [] => inr result
  | k0 :: rest =>
      let k := if String.eqb prefix "" then k0 else prefix +:+ "." +:+ k0 in
      let '(files, err) := FindUploadedFiles env k in
      match err with
      | Some err' =>
          if negb (isErrMissingFile err') then inl err'
          else extractKeys env prefix rest
                 (if Nat.ltb 0 (length files) then <[k := files]> result else result)
      | None =>
          extractKeys env prefix rest
            (if Nat.ltb 0 (length files) then <[k := files]> result else result)
      end
  end.

Fixpoint extractFields (env : Env) (prefix : string) (fields : list Field)
    (result : gmap string (list string)) : error + gmap string (list string) :=
  match fields with
  | [] => inr result
  | field :: rest =>
      if negb (String.eqb (FieldType field) FieldTypeFile)
      then extractFields env prefix rest result
      else
        let baseKey := GetName field in
        match extractKeys env prefix [baseKey; "+" +:+ baseKey; baseKey +:+ "+"] result with
        | inl err => inl err
        | inr result' => extractFields env prefix rest result'
        end
  end.

Definition extractUploadedFiles (env : Env) (re : RequestEvent) (collection : Collection)
    (prefix : string) : error + gmap string (list string) :=
  if negb (HasPrefix (contentType re) "multipart/form-data")
  then inr ∅
  else extractFields env prefix (Fields collection) ∅.

(** [info.Body[k] != nil]. *)
Definition bodyHas (body : gmap string Value) (k : string) : bool :=
  match body !! k with
  | Some VNull | None => false
  | Some _ => true
  end.

(** Modelled from the spec: [list.ToUniqueStringSlice] is declared outside
    the sources; it reads a submitted value as a list of file names. *)
Fixpoint stringsOf (items : list Value) : list string :=
  match items with
  | [] => []
  | VString s :: rest | VFile s :: rest => s :: stringsOf rest
  | _ :: rest => stringsOf rest
  end.

Definition ToUniqueStringSlice (v : option Value) : list string :=
  match v with
  | Some (VString s) => [s]
  | Some (VList items) => remove_dups (stringsOf items)
  | _ => []
  end.

(** The merge of one uploaded key into the submitted data. *)
Definition mergeUploaded (body : gmap string Value) (result : gmap string Value)
    (entry : string * list string) : gmap string Value :=
  let '(k, files) := entry in
  let existing :=
    if bodyHas body k && negb (HasPrefix k "+") && negb (HasSuffix k "+") &&
       negb (HasSuffix k "-")
    then VString <$> ToUniqueStringSlice (body !! k)
    else [] in
  <[k := VList (existing ++ (VFile <$> files))]> result.

(** The loop that unsets the hidden fields. *)
Fixpoint unsetHidden (isAuth : bool) (fields : list Field) (result : gmap string Value)
    : gmap string Value :=
  match fields with
  | [] => result
  | f :: rest =>
      if GetHidden f
      then
        if isAuth && String.eqb (GetName f) FieldNamePassword
        then unsetHidden isAuth rest result
        else unsetHidden isAuth rest (delete (GetName f) result)
      else unsetHidden isAuth rest result
  end.

Definition recordDataFromRequest (env : Env) (e : RequestEvent) (record : RecordObj)
    : error + gmap string Value :=
  match RequestInfoResult env with
  | inl err => inl err
  | inr info =>
      (* resolve regular fields *)
      let result := ReplaceModifiers env record (Body info) in
      (* resolve uploaded files *)
      match extractUploadedFiles env e (recCollection record) "" with
      | inl err => inl err
      | inr uploadedFiles =>
          let result :=
            if Nat.ltb 0 (size uploadedFiles)
            then ReplaceModifiers env record
                   (foldl (mergeUploaded (Body info)) result (map_to_list uploadedFiles))
            else result in
          let isAuth := IsAuth (recCollection record) in
          (* unset hidden fields for non-superusers *)
          if negb (HasSuperuserAuth info)
          then inr (unsetHidden isAuth (Fields (recCollection record)) result)
          else inr result
      end
  end.

(** [hasAuthManageAccess] checks whether the client is allowed to have the
    auth management permissions of the upsert form. *)
Definition hasAuthManageAccess (env : Env) (requestInfo : option RequestInfo)
    (collection : Collection) (query : SelectQuery) : M bool :=
  if negb (IsAuth collection) then ret false
  else
    match ManageRule collection with
    | None => ret false
    | Some manageRule =>
        if String.eqb manageRule "" then ret false (* only for superusers *)
        else
          match requestInfo with
          | None => ret false
          | Some info =>
              match Auth info with
              | None => ret false (* no auth record *)
              | Some _ =>
                  let resolver := NewRecordFieldResolver collection requestInfo true in
                  match BuildExpr env manageRule resolver with
                  | inl err =>
                      do _ <- emit (EffLog "Manage rule build expression error");
                      ret false
                  | inr (expr, resolver) =>
                      let query := UpdateQuery resolver (AndWhere query expr) in
                      do _ <- emit (EffQueryRow ManageRuleQuery (Limit query 1));
                      let '(err, exists_) := Row env (Limit query 1) in
                      ret (match err with None => exists_ | Some _ => false end)
                  end
              end
          end
    end.

(** ** The handlers *)

Record RecordsListRequestEvent : Type := mkListEvent {
  listCollection : Collection;
  listRecords : list RecordObj
}.

Record RecordRequestEvent : Type := mkRecordEvent {
  evCollection : Collection;
  evRecord : loc
}.

(** [optFinalizer]: nil, or a callback on the record of the event. *)
Definition Finalizer : Type := option (loc -> option error).

Definition isNil {A : Type} (p : option A) : bool :=
  match p with None => true | Some _ => false end.

(** [rule != nil && *rule != ""]. *)
Definition nonEmptyRule (rule : option string) : bool :=
  match rule with
  | Some r => negb (String.eqb r "")
  | None => false
  end.

Definition setFinalizerCalled (b : bool) : M unit := fun w => (setFlag w b, inr tt).

Definition recordsList (env : Env) (e : RequestEvent) : M unit :=
  let '(collection, err) := FindCachedCollectionByNameOrId env (pathCollection e) in
  match err, collection with
  | None, Some collection =>
      do _ <- checkCollectionRateLimit env collection "list";
      do requestInfo <- orReturn (RequestInfoResult env)
        (fun err => firstApiError [Some err; Some (BadRequestError "" (Some err))]);
      do _ <- returnIf (isNil (ListRule collection) && negb (HasSuperuserAuth requestInfo))
        (ForbiddenError "Only superusers can perform this action." None);
      (* forbid users and guests to query special filter/sort fields *)
      do _ <- returnErr (checkForSuperuserOnlyRuleFields env requestInfo) (fun err => err);
      let query := RecordQuery collection in
      let fieldsResolver := NewRecordFieldResolver collection (Some requestInfo) true in
      do (query, fieldsResolver) <-
        orReturn
          (if negb (HasSuperuserAuth requestInfo) && nonEmptyRule (ListRule collection)
           then
             match BuildExpr env (default "" (ListRule collection)) fieldsResolver with
             | inl err => inl err
             | inr (expr, resolver) => inr (AndWhere query expr, resolver)
             end
           else inr (query, fieldsResolver))
          (fun err => err);
      (* hidden fields are searchable only by superusers *)
      let fieldsResolver := SetAllowHiddenFields fieldsResolver (HasSuperuserAuth requestInfo) in
      do _ <- emit (EffSearch fieldsResolver query (urlQuery e));
      do w <- get;
      do records <- orReturn (ParseAndExec env fieldsResolver query (urlQuery e) (rows w))
        (fun err => firstApiError [Some err; Some (BadRequestError "" (Some err))]);
      let event := {| listCollection := collection; listRecords := records |} in
      Trigger (OnRecordsListRequest env) event (fun e =>
        do _ <- returnErr (EnrichRecords env (listRecords e))
          (fun err => firstApiError
             [Some err; Some (InternalServerError "Failed to enrich records" (Some err))]);
        (* a randomized throttle in case of too many empty search filter attempts *)
        do _ <-
          (if negb (HasSuperuserAuth requestInfo) &&
              nonEmptyRule (ListRule collection) &&
              negb (String.eqb (queryParam requestInfo "filter") "") &&
              Nat.eqb (length (listRecords e)) 0
           then
             do limited <- checkRateLimit ("@hb_list_timing_check_" +:+ Id collection)
                             listTimingRateLimitRule;
             match limited with
             | Some _ =>
                 do _ <- emit (EffLog "Randomized throttle because of too many failed searches");
                 randomizedThrottle env 150
             | None => ret tt
             end
           else ret tt);
        respondJSON env 200)
  | _, _ => fail (NotFoundError "Missing collection context." err)
  end.

(** The [ruleFunc] closures of [recordView], [recordUpdate] and
    [recordDelete]: the rule of the slot, when it applies, is compiled and
    added to the query. *)
Definition ruleFunc (env : Env) (hasSuperuserAuth : bool) (collection : Collection)
    (requestInfo : RequestInfo) (rule : option string) : RuleFunc :=
  fun q =>
    if negb hasSuperuserAuth && nonEmptyRule rule
    then
      let resolver := NewRecordFieldResolver collection (Some requestInfo) true in
      match BuildExpr env (default "" rule) resolver with
      | inl err => inl err
      | inr (expr, resolver) => inr (AndWhere (UpdateQuery resolver q) expr)
      end
    else inr q.

Definition recordView (env : Env) (e : RequestEvent) : M unit :=
  let '(collection, err) := FindCachedCollectionByNameOrId env (pathCollection e) in
  match err, collection with
  | None, Some collection =>
      do _ <- checkCollectionRateLimit env collection "view";
      let recordId := pathId e in
      do _ <- returnIf (String.eqb recordId "") (NotFoundError "" None);
      do requestInfo <- orReturn (RequestInfoResult env)
        (fun err => firstApiError [Some err; Some (BadRequestError "" (Some err))]);
      do _ <- returnIf (isNil (ViewRule collection) && negb (HasSuperuserAuth requestInfo))
        (ForbiddenError "Only superusers can perform this action." None);
      let ruleFunc := ruleFunc env (HasSuperuserAuth requestInfo) collection requestInfo
                        (ViewRule collection) in
      do record <- try (FindRecordById collection recordId [ruleFunc])
        (fun fetchErr => firstApiError [None; Some (NotFoundError "" (Some fetchErr))]);
      let event := {| evCollection := collection; evRecord := record |} in
      Trigger (OnRecordViewRequest env) event (fun e =>
        do r <- load (evRecord e);
        do _ <- returnErr (EnrichRecord env r)
          (fun err => firstApiError
             [Some err; Some (InternalServerError "Failed to enrich record" (Some err))]);
        respondJSON env 200)
  | _, _ => fail (NotFoundError "Missing collection context." err)
  end.

(** [strings.Join]. *)
Fixpoint Join (items : list string) (sep : string) : string :=
  match items with
  | [] => ""
  | [x] => x
  | x :: rest => x +:+ sep +:+ Join rest sep
  end.

(** The parameters and the select list built from the exported dummy
    record.  (Go ranges over the export in no fixed order; the order of
    [map_to_list] stands for it.) *)
Definition dummyParamsOf (env : Env) (dummyExport : gmap string Value) : gmap string Value :=
  foldl (fun params kv => <["__hb_create__" +:+ Columnify env (fst kv) := snd kv]> params)
        ∅ (map_to_list dummyExport).

Definition dummySelectsOf (env : Env) (dummyExport : gmap string Value) : list string :=
  (fun kv => "{:" +:+ "__hb_create__" +:+ Columnify env (fst kv) +:+ "} AS [[" +:+
             Columnify env (fst kv) +:+ "]]") <$> map_to_list dummyExport.

(** The shallow clone of the collection under the dummy name. *)
Definition dummyCollectionOf (env : Env) (c : Collection) (dummyRandomPart : string)
    : Collection :=
  {| Id := Id c +:+ dummyRandomPart;
     Name := Name c +:+ Columnify env dummyRandomPart;
     CType := CType c; Fields := Fields c;
     ListRule := ListRule c; ViewRule := ViewRule c; CreateRule := CreateRule c;
     UpdateRule := UpdateRule c; DeleteRule := DeleteRule c; ManageRule := ManageRule c |}.

(** The first part of the closure that [recordCreate] hands to the hook
    trigger: the record is saved temporarily (as a one-row WITH query) and
    checked against the create and manage rules.  It returns the form,
    with manager access when the manage rule grants it. *)
Definition createRuleCheck (env : Env) (hasSuperuserAuth : bool) (requestInfo : RequestInfo)
    (e : RecordRequestEvent) (form : RecordUpsert) : M RecordUpsert :=
  match CreateRule (evCollection e) with
  | Some createRule =>
      if negb hasSuperuserAuth
      then
        do dummyRecord <- Clone (evRecord e);
        let dummyRandomPart := "__hb_create__" +:+ PseudorandomString env 6 in
        (* set an id if it doesn't have already *)
        do dummy <- load dummyRecord;
        do _ <- (if String.eqb (recId dummy) ""
                 then store dummyRecord (setId dummy ("__temp_id__" +:+ dummyRandomPart))
                 else ret tt);
        (* unset the verified field to prevent manage API rule misuse *)
        do _ <- SetVerified dummyRecord false;
        (* export the dummy record data into db params *)
        do dummy <- load dummyRecord;
        do _ <- emit (EffDBExport dummy);
        do dummyExport <- orReturn (DBExport env dummy)
          (fun err => BadRequestError "Failed to create record"
                        (Some (WrapError "dummy DBExport error" (Some err))));
        let dummyParams := dummyParamsOf env dummyExport in
        let selects := dummySelectsOf env dummyExport in
        let dummyCollection := dummyCollectionOf env (evCollection e) dummyRandomPart in
        let withFrom := "WITH {{" +:+ Name dummyCollection +:+ "}} as (SELECT " +:+
                        Join selects "," +:+ ")" in
        (* check non-empty create rule *)
        do _ <-
          (if negb (String.eqb createRule "")
           then
             let ruleQuery := SelectOne withFrom (Name dummyCollection) dummyParams in
             let resolver := NewRecordFieldResolver dummyCollection (Some requestInfo) true in
             do (expr, resolver) <- orReturn (BuildExpr env createRule resolver)
               (fun err => BadRequestError "Failed to create record"
                             (Some (WrapError "create rule build expression failure" (Some err))));
             let ruleQuery := UpdateQuery resolver (AndWhere ruleQuery expr) in
             do _ <- emit (EffQueryRow CreateRuleQuery (Limit ruleQuery 1));
             let '(err, exists_) := Row env (Limit ruleQuery 1) in
             returnIf (negb (isNil err) || negb exists_)
               (BadRequestError "Failed to create record"
                  (Some (WrapError "create rule failure" err)))
           else ret tt);
        (* check for manage rule access *)
        let manageRuleQuery := SelectOne withFrom (Name dummyCollection) dummyParams in
        if negb (HasManageAccess form)
        then
          do granted <- hasAuthManageAccess env (Some requestInfo) dummyCollection manageRuleQuery;
          ret (if granted then GrantManagerAccess form else form)
        else ret form
      else ret form
  | None => ret form
  end.

(** The call of a non-nil finalizer. *)
Definition callFinalizer (fin : loc -> option error) (p : loc) (f : error -> error) : M unit :=
  do _ <- emit (EffFinalizer p);
  returnErr (fin p) f.

(** After the trigger: the finalizer runs here when the hook chain was
    stopped before the closure could run it. *)
Definition finalizeAfterTrigger (optFinalizer : Finalizer) (event : RecordRequestEvent)
    (f : error -> error) : M unit :=
  do w <- get;
  match optFinalizer with
  | Some fin =>
      if negb (isOptFinalizerCalled w)
      then callFinalizer fin (evRecord event) f
      else ret tt
  | None => ret tt
  end.

(** The last step of the closures: the finalizer, run inline. *)
Definition finalizeInline (optFinalizer : Finalizer) (e : RecordRequestEvent)
    (f : error -> error) : M unit :=
  match optFinalizer with
  | Some fin =>
      do _ <- setFinalizerCalled true;
      callFinalizer fin (evRecord e) f
  | None => ret tt
  end.

Definition unsetPlainPassword (r : RecordObj) : RecordObj :=
  match recData r !! FieldNamePassword with
  | Some (VPassword _ hash) =>
      {| recCollection := recCollection r; recId := recId r;
         recData := <[FieldNamePassword := VPassword "" hash]> (recData r) |}
  | _ => r
  end.

Definition recordCreate (optFinalizer : Finalizer) (env : Env) (e : RequestEvent) : M unit :=
  let '(collection, err) := FindCachedCollectionByNameOrId env (pathCollection e) in
  match err, collection with
  | None, Some collection =>
      do _ <- returnIf (IsView collection) (BadRequestError "Unsupported collection type." None);
      do _ <- checkCollectionRateLimit env collection "create";
      do requestInfo <- orReturn (RequestInfoResult env)
        (fun err => firstApiError [Some err; Some (BadRequestError "" (Some err))]);
      let hasSuperuserAuth := HasSuperuserAuth requestInfo in
      do _ <- returnIf (negb hasSuperuserAuth && isNil (CreateRule collection))
        (ForbiddenError "Only superusers can perform this action." None);
      do record <- NewRecord collection;
      do recordObj <- load record;
      do data <- orReturn (recordDataFromRequest env e recordObj)
        (fun err => firstApiError
           [Some err; Some (BadRequestError "Failed to read the submitted data." (Some err))]);
      (* set a random password for the OAuth2 ignoring its plain password validators *)
      let skipPlainPasswordRecordValidators :=
        String.eqb (Context requestInfo) RequestInfoContextOAuth2 &&
        isNil (data !! FieldNamePassword) in
      let data :=
        if skipPlainPasswordRecordValidators
        then <[FieldNamePassword +:+ "Confirm" := VString (RandomString env 30)]>
               (<[FieldNamePassword := VString (RandomString env 30)]> data)
        else data in
      (* replace modifiers fields so that the resolved value is always
         available when accessing requestInfo.Body *)
      let requestInfo := withBody requestInfo data in
      let form := NewRecordUpsert record in
      let form := if hasSuperuserAuth then GrantSuperuserAccess form else form in
      do _ <- Load env form data;
      do _ <- (if skipPlainPasswordRecordValidators
               then do r <- load record; store record (unsetPlainPassword r)
               else ret tt);
      do _ <- setFinalizerCalled false;
      let event := {| evCollection := collection; evRecord := record |} in
      do _ <- Trigger (OnRecordCreateRequest env) event (fun e =>
        let form := SetRecord form (evRecord e) in
        (* temporary save the record and check it against the create and manage rules *)
        do form <- createRuleCheck env hasSuperuserAuth requestInfo e form;
        do _ <- try (Submit env form)
          (fun err => firstApiError
             [Some err; Some (BadRequestError "Failed to create record" (Some err))]);
        do r <- load (evRecord e);
        do _ <- returnErr (EnrichRecord env r)
          (fun err => firstApiError
             [Some err; Some (InternalServerError "Failed to enrich record" (Some err))]);
        do _ <- respondJSON env 200;
        finalizeInline optFinalizer e
          (fun err => firstApiError [Some err; Some (InternalServerError "" (Some err))]));
      (* e.g. in case the regular hook chain was stopped and the finalizer
         cannot be executed as part of the last e.Next() task *)
      finalizeAfterTrigger optFinalizer event
        (fun err => firstApiError [Some err; Some (InternalServerError "" (Some err))])
  | _, _ => fail (NotFoundError "Missing collection context." err)
  end.

Definition recordUpdate (optFinalizer : Finalizer) (env : Env) (e : RequestEvent) : M unit :=
  let '(collection, err) := FindCachedCollectionByNameOrId env (pathCollection e) in
  match err, collection with
  | None, Some collection =>
      do _ <- returnIf (IsView collection) (BadRequestError "Unsupported collection type." None);
      do _ <- checkCollectionRateLimit env collection "update";
      let recordId := pathId e in
      do _ <- returnIf (String.eqb recordId "") (NotFoundError "" None);
      do requestInfo <- orReturn (RequestInfoResult env)
        (fun err => firstApiError [Some err; Some (BadRequestError "" (Some err))]);
      let hasSuperuserAuth := HasSuperuserAuth requestInfo in
      do _ <- returnIf (negb hasSuperuserAuth && isNil (UpdateRule collection))
        (firstApiError
           [None; Some (ForbiddenError "Only superusers can perform this action." None)]);
      (* eager fetch the record so that the modifiers field values can be resolved *)
      do record <- try (FindRecordById collection recordId [])
        (fun err => firstApiError [Some err; Some (NotFoundError "" (Some err))]);
      do recordObj <- load record;
      do data <- orReturn (recordDataFromRequest env e recordObj)
        (fun err => firstApiError
           [Some err; Some (BadRequestError "Failed to read the submitted data." (Some err))]);
      (* replace modifiers fields so that the resolved value is always
         available when accessing requestInfo.Body *)
      let requestInfo := withBody requestInfo data in
      let ruleFunc := ruleFunc env hasSuperuserAuth collection requestInfo
                        (UpdateRule collection) in
      (* refetch with access checks *)
      do record <- try (FindRecordById collection recordId [ruleFunc])
        (fun err => firstApiError [Some err; Some (NotFoundError "" (Some err))]);
      let form := NewRecordUpsert record in
      let form := if hasSuperuserAuth then GrantSuperuserAccess form else form in
      do _ <- Load env form data;
      do _ <- setFinalizerCalled false;
      let event := {| evCollection := collection; evRecord := record |} in
      do _ <- Trigger (OnRecordUpdateRequest env) event (fun e =>
        let form := SetRecord form (evRecord e) in
        do r <- load (evRecord e);
        let manageRuleQuery :=
          AndWhere (SelectOne "" (Name (evCollection e)) ∅)
                   (idEquals (Name (evCollection e)) (recId r)) in
        do form <-
          (if negb (HasManageAccess form)
           then
             do granted <- hasAuthManageAccess env (Some requestInfo) (evCollection e)
                             manageRuleQuery;
             ret (if granted then GrantManagerAccess form else form)
           else ret form);
        do _ <- try (Submit env form)
          (fun err => firstApiError
             [Some err; Some (BadRequestError "Failed to update record." (Some err))]);
        do r <- load (evRecord e);
        do _ <- returnErr (EnrichRecord env r)
          (fun err => firstApiError
             [Some err; Some (InternalServerError "Failed to enrich record" (Some err))]);
        do _ <- respondJSON env 200;
        finalizeInline optFinalizer e
          (fun err => firstApiError
             [Some err;
              Some (InternalServerError "" (Some (WrapError "update optFinalizer error" (Some err))))]));
      finalizeAfterTrigger optFinalizer event
        (fun err => firstApiError
           [Some err;
            Some (InternalServerError "" (Some (WrapError "update optFinalizer error" (Some err))))])
  | _, _ => fail (NotFoundError "Missing collection context." err)
  end.

Definition recordDelete (optFinalizer : Finalizer) (env : Env) (e : RequestEvent) : M unit :=
  let '(collection, err) := FindCachedCollectionByNameOrId env (pathCollection e) in
  match err, collection with
  | None, Some collection =>
      do _ <- returnIf (IsView collection) (BadRequestError "Unsupported collection type." None);
      do _ <- checkCollectionRateLimit env collection "delete";
      let recordId := pathId e in
      do _ <- returnIf (String.eqb recordId "") (NotFoundError "" None);
      do requestInfo <- orReturn (RequestInfoResult env)
        (fun err => firstApiError [Some err; Some (BadRequestError "" (Some err))]);
      do _ <- returnIf (negb (HasSuperuserAuth requestInfo) && isNil (DeleteRule collection))
        (ForbiddenError "Only superusers can perform this action." None);
      let ruleFunc := ruleFunc env (HasSuperuserAuth requestInfo) collection requestInfo
                        (DeleteRule collection) in
      do record <- try (FindRecordById collection recordId [ruleFunc])
        (fun err => NotFoundError "" (Some err));
      do _ <- setFinalizerCalled false;
      let event := {| evCollection := collection; evRecord := record |} in
      do _ <- Trigger (OnRecordDeleteRequest env) event (fun e =>
        do _ <- try (Delete env (evRecord e))
          (fun err => firstApiError
             [Some err;
              Some (BadRequestError
                      "Failed to delete record. Make sure that the record is not part of a required relation reference."
                      (Some err))]);
        do _ <- respondNoContent env 204;
        finalizeInline optFinalizer e
          (fun err => firstApiError
             [Some err;
              Some (InternalServerError "" (Some (WrapError "delete optFinalizer error" (Some err))))]));
      finalizeAfterTrigger optFinalizer event
        (fun err => firstApiError
           [Some err;
            Some (InternalServerError "" (Some (WrapError "delete optFinalizer error" (Some err))))])
  | _, _ => fail (NotFoundError "Missing collection context." err)
  end.

(** ** The five operations, uniformly *)

Inductive Op : Type := OpList | OpView | OpCreate | OpUpdate | OpDelete.

Definition handler (op : Op) (optFinalizer : Finalizer) (env : Env) (e : RequestEvent)
    : M unit :=
  match op with
  | OpList => recordsList env e
  | OpView => recordView env e
  | OpCreate => recordCreate optFinalizer env e
  | OpUpdate => recordUpdate optFinalizer env e
  | OpDelete => recordDelete optFinalizer env e
  end.

Definition ruleSlot (op : Op) (c : Collection) : option string :=
  match op with
  | OpList => ListRule c
  | OpView => ViewRule c
  | OpCreate => CreateRule c
  | OpUpdate => UpdateRule c
  | OpDelete => DeleteRule c
  end.

Definition opTag (op : Op) : string :=
  match op with
  | OpList => "list"
  | OpView => "view"
  | OpCreate => "create"
  | OpUpdate => "update"
  | OpDelete => "delete"
  end.

(** Operations that write (and refuse view collections). *)
Definition isWrite (op : Op) : bool :=
  match op with
  | OpCreate | OpUpdate | OpDelete => true
  | OpList | OpView => false
  end.

(** Operations on one record, addressed by the id of the path. *)
Definition isSingle (op : Op) : bool :=
  match op with
  | OpView | OpUpdate | OpDelete => true
  | OpList | OpCreate => false
  end.

(** The hooks of an operation. *)
Definition hooksOf (op : Op) (env : Env) : list HookHandler :=
  match op with
  | OpList => OnRecordsListRequest env
  | OpView => OnRecordViewRequest env
  | OpCreate => OnRecordCreateRequest env
  | OpUpdate => OnRecordUpdateRequest env
  | OpDelete => OnRecordDeleteRequest env
  end.

(** Calls that query or change the records. *)
Definition isQueryOrMutation (eff : Effect) : bool :=
  match eff with
  | EffSearch _ _ _ | EffFindRecord _ | EffQueryRow _ _ | EffSave _ _ | EffDelete _ => true
  | _ => false
  end.

Definition isFinalizer (eff : Effect) : bool :=
  match eff with
  | EffFinalizer _ => true
  | _ => false
  end.

Definition isSleep (eff : Effect) : bool :=
  match eff with
  | EffSleep _ => true
  | _ => false
  end.

(** Calls other than the finalizer and the throttle's sleep. *)
Definition ordinary (eff : Effect) : bool :=
  negb (isFinalizer eff) && negb (isSleep eff).

(** The request gets as far as the check of the rule slot: the collection
    is found, it is not a view for a writing operation, the collection's
    rate limit lets the request through, the record id of the path is not
    empty, and the request info is read. *)
Definition reachesRuleCheck (env : Env) (e : RequestEvent) (op : Op) (c : Collection)
    (info : RequestInfo) : Prop :=
  FindCachedCollectionByNameOrId env (pathCollection e) = (Some c, None) /\
  (isWrite op = true -> IsView c = false) /\
  checkCollectionRateLimitResult env c (opTag op) = None /\
  (isSingle op = true -> pathId e <> "") /\
  RequestInfoResult env = inr info.


(** ** Sample collections, callers and collaborators

    Concrete inputs on which the handlers are run below. *)

Definition sampleFields : list Field :=
  [ {| GetName := "title"; FieldType := "text"; GetHidden := false |};
    {| GetName := "secret"; FieldType := "text"; GetHidden := true |};
    {| GetName := "password"; FieldType := "password"; GetHidden := true |};
    {| GetName := "avatar"; FieldType := "file"; GetHidden := false |} ].

(** A collection whose five rule slots all hold [rule]. *)
Definition sampleCollection (ty : CollectionType) (rule manageRule : option string)
    : Collection :=
  {| Id := "c1"; Name := "posts"; CType := ty; Fields := sampleFields;
     ListRule := rule; ViewRule := rule; CreateRule := rule;
     UpdateRule := rule; DeleteRule := rule; ManageRule := manageRule |}.

Definition guest : RequestInfo :=
  {| Auth := None; Context := "default"; Query := ∅; Body := ∅ |}.

Definition user : RequestInfo :=
  {| Auth := Some {| authId := "u1"; IsSuperuser := false |};
     Context := "default"; Query := ∅; Body := ∅ |}.

Definition superuser : RequestInfo :=
  {| Auth := Some {| authId := "s1"; IsSuperuser := true |};
     Context := "default"; Query := ∅; Body := ∅ |}.

Definition withQuery (info : RequestInfo) (q : gmap string string) : RequestInfo :=
  {| Auth := Auth info; Context := Context info; Query := q; Body := Body info |}.

Definition sampleRequest (id : string) : RequestEvent :=
  {| pathCollection := "posts"; pathId := id;
     contentType := "application/json"; urlQuery := "" |}.

(** The rule of the samples keeps the rows whose [public] field is true. *)
Definition isPublic (r : RecordObj) : bool :=
  match recData r !! "public" with
  | Some (VBool true) => true
  | _ => false
  end.

Definition sampleRow (c : Collection) (id : string) (public : bool) : RecordObj :=
  {| recCollection := c; recId := id;
     recData := {[ "public" := VBool public; "verified" := VBool true ]} |}.

(** Collaborators that all succeed: the collection is found, nothing is
    rate limited, rules compile to [isPublic], queries find a row, the
    form accepts the data, no hook is registered. *)
Definition sampleEnv (c : Collection) (info : RequestInfo) : Env :=
  {| FindCachedCollectionByNameOrId := fun _ => (Some c, None);
     checkCollectionRateLimitResult := fun _ _ => None;
     RequestInfoResult := inr info;
     checkForSuperuserOnlyRuleFields := fun _ => None;
     BuildExpr := fun text resolver =>
       inr ({| exprText := text; exprHolds := isPublic |}, resolver);
     ParseAndExec := fun _ q _ rows => inr (List.filter (matches q) rows);
     Row := fun _ => (None, true);
     EnrichRecords := fun _ => None;
     EnrichRecord := fun _ => None;
     JSONResult := fun _ => None;
     NoContentResult := fun _ => None;
     ReplaceModifiers := fun _ data => data;
     FindUploadedFiles := fun _ => ([], Some ErrMissingFile);
     DBExport := fun r => inr (recData r);
     LoadData := fun _ r data =>
       {| recCollection := recCollection r; recId := recId r;
          recData := data ∪ recData r |};
     Save := fun _ r => inr (if String.eqb (recId r) "" then setId r "r9" else r);
     DeleteResult := fun _ => None;
     Columnify := fun s => s;
     PseudorandomString := fun _ => "abcdef";
     RandomString := fun _ => "0123456789";
     randReader := inr 1234%Z;
     OnRecordsListRequest := [];
     OnRecordViewRequest := [];
     OnRecordCreateRequest := [];
     OnRecordUpdateRequest := [];
     OnRecordDeleteRequest := [] |}.

(** The same collaborators, with another answer of the collection rate limiter. *)
Definition withRateLimitResult (env : Env) (v : Collection -> string -> option error) : Env :=
  {| FindCachedCollectionByNameOrId := FindCachedCollectionByNameOrId env;
     checkCollectionRateLimitResult := v;
     RequestInfoResult := RequestInfoResult env;
     checkForSuperuserOnlyRuleFields := checkForSuperuserOnlyRuleFields env;
     BuildExpr := BuildExpr env;
     ParseAndExec := ParseAndExec env;
     Row := Row env;
     EnrichRecords := EnrichRecords env;
     EnrichRecord := EnrichRecord env;
     JSONResult := JSONResult env;
     NoContentResult := NoContentResult env;
     ReplaceModifiers := ReplaceModifiers env;
     FindUploadedFiles := FindUploadedFiles env;
     DBExport := DBExport env;
     LoadData := LoadData env;
     Save := Save env;
     DeleteResult := DeleteResult env;
     Columnify := Columnify env;
     PseudorandomString := PseudorandomString env;
     RandomString := RandomString env;
     randReader := randReader env;
     OnRecordsListRequest := OnRecordsListRequest env;
     OnRecordViewRequest := OnRecordViewRequest env;
     OnRecordCreateRequest := OnRecordCreateRequest env;
     OnRecordUpdateRequest := OnRecordUpdateRequest env;
     OnRecordDeleteRequest := OnRecordDeleteRequest env |}.

(** The same collaborators, with another expression builder. *)
Definition withBuildExpr (env : Env) (v : string -> RecordFieldResolver -> error + (Expr * RecordFieldResolver)) : Env :=
  {| FindCachedCollectionByNameOrId := FindCachedCollectionByNameOrId env;
     checkCollectionRateLimitResult := checkCollectionRateLimitResult env;
     RequestInfoResult := RequestInfoResult env;
     checkForSuperuserOnlyRuleFields := checkForSuperuserOnlyRuleFields env;
     BuildExpr := v;
     ParseAndExec := ParseAndExec env;
     Row := Row env;
     EnrichRecords := EnrichRecords env;
     EnrichRecord := EnrichRecord env;
     JSONResult := JSONResult env;
     NoContentResult := NoContentResult env;
     ReplaceModifiers := ReplaceModifiers env;
     FindUploadedFiles := FindUploadedFiles env;
     DBExport := DBExport env;
     LoadData := LoadData env;
     Save := Save env;
     DeleteResult := DeleteResult env;
     Columnify := Columnify env;
     PseudorandomString := PseudorandomString env;
     RandomString := RandomString env;
     randReader := randReader env;
     OnRecordsListRequest := OnRecordsListRequest env;
     OnRecordViewRequest := OnRecordViewRequest env;
     OnRecordCreateRequest := OnRecordCreateRequest env;
     OnRecordUpdateRequest := OnRecordUpdateRequest env;
     OnRecordDeleteRequest := OnRecordDeleteRequest env |}.

(** The same collaborators, with another answer to the rule queries. *)
Definition withRow (env : Env) (v : SelectQuery -> option error * bool) : Env :=
  {| FindCachedCollectionByNameOrId := FindCachedCollectionByNameOrId env;
     checkCollectionRateLimitResult := checkCollectionRateLimitResult env;
     RequestInfoResult := RequestInfoResult env;
     checkForSuperuserOnlyRuleFields := checkForSuperuserOnlyRuleFields env;
     BuildExpr := BuildExpr env;
     ParseAndExec := ParseAndExec env;
     Row := v;
     EnrichRecords := EnrichRecords env;
     EnrichRecord := EnrichRecord env;
     JSONResult := JSONResult env;
     NoContentResult := NoContentResult env;
     ReplaceModifiers := ReplaceModifiers env;
     FindUploadedFiles := FindUploadedFiles env;
     DBExport := DBExport env;
     LoadData := LoadData env;
     Save := Save env;
     DeleteResult := DeleteResult env;
     Columnify := Columnify env;
     PseudorandomString := PseudorandomString env;
     RandomString := RandomString env;
     randReader := randReader env;
     OnRecordsListRequest := OnRecordsListRequest env;
     OnRecordViewRequest := OnRecordViewRequest env;
     OnRecordCreateRequest := OnRecordCreateRequest env;
     OnRecordUpdateRequest := OnRecordUpdateRequest env;
     OnRecordDeleteRequest := OnRecordDeleteRequest env |}.

(** The same collaborators, with another answer of the form. *)
Definition withSave (env : Env) (v : Access -> RecordObj -> error + RecordObj) : Env :=
  {| FindCachedCollectionByNameOrId := FindCachedCollectionByNameOrId env;
     checkCollectionRateLimitResult := checkCollectionRateLimitResult env;
     RequestInfoResult := RequestInfoResult env;
     checkForSuperuserOnlyRuleFields := checkForSuperuserOnlyRuleFields env;
     BuildExpr := BuildExpr env;
     ParseAndExec := ParseAndExec env;
     Row := Row env;
     EnrichRecords := EnrichRecords env;
     EnrichRecord := EnrichRecord env;
     JSONResult := JSONResult env;
     NoContentResult := NoContentResult env;
     ReplaceModifiers := ReplaceModifiers env;
     FindUploadedFiles := FindUploadedFiles env;
     DBExport := DBExport env;
     LoadData := LoadData env;
     Save := v;
     DeleteResult := DeleteResult env;
     Columnify := Columnify env;
     PseudorandomString := PseudorandomString env;
     RandomString := RandomString env;
     randReader := randReader env;
     OnRecordsListRequest := OnRecordsListRequest env;
     OnRecordViewRequest := OnRecordViewRequest env;
     OnRecordCreateRequest := OnRecordCreateRequest env;
     OnRecordUpdateRequest := OnRecordUpdateRequest env;
     OnRecordDeleteRequest := OnRecordDeleteRequest env |}.

(** The same collaborators, with other uploaded files. *)
Definition withFindUploadedFiles (env : Env) (v : string -> list string * option error) : Env :=
  {| FindCachedCollectionByNameOrId := FindCachedCollectionByNameOrId env;
     checkCollectionRateLimitResult := checkCollectionRateLimitResult env;
     RequestInfoResult := RequestInfoResult env;
     checkForSuperuserOnlyRuleFields := checkForSuperuserOnlyRuleFields env;
     BuildExpr := BuildExpr env;
     ParseAndExec := ParseAndExec env;
     Row := Row env;
     EnrichRecords := EnrichRecords env;
     EnrichRecord := EnrichRecord env;
     JSONResult := JSONResult env;
     NoContentResult := NoContentResult env;
     ReplaceModifiers := ReplaceModifiers env;
     FindUploadedFiles := v;
     DBExport := DBExport env;
     LoadData := LoadData env;
     Save := Save env;
     DeleteResult := DeleteResult env;
     Columnify := Columnify env;
     PseudorandomString := PseudorandomString env;
     RandomString := RandomString env;
     randReader := randReader env;
     OnRecordsListRequest := OnRecordsListRequest env;
     OnRecordViewRequest := OnRecordViewRequest env;
     OnRecordCreateRequest := OnRecordCreateRequest env;
     OnRecordUpdateRequest := OnRecordUpdateRequest env;
     OnRecordDeleteRequest := OnRecordDeleteRequest env |}.

(** The same collaborators, with another random source. *)
Definition withRandReader (env : Env) (v : error + Z) : Env :=
  {| FindCachedCollectionByNameOrId := FindCachedCollectionByNameOrId env;
     checkCollectionRateLimitResult := checkCollectionRateLimitResult env;
     RequestInfoResult := RequestInfoResult env;
     checkForSuperuserOnlyRuleFields := checkForSuperuserOnlyRuleFields env;
     BuildExpr := BuildExpr env;
     ParseAndExec := ParseAndExec env;
     Row := Row env;
     EnrichRecords := EnrichRecords env;
     EnrichRecord := EnrichRecord env;
     JSONResult := JSONResult env;
     NoContentResult := NoContentResult env;
     ReplaceModifiers := ReplaceModifiers env;
     FindUploadedFiles := FindUploadedFiles env;
     DBExport := DBExport env;
     LoadData := LoadData env;
     Save := Save env;
     DeleteResult := DeleteResult env;
     Columnify := Columnify env;
     PseudorandomString := PseudorandomString env;
     RandomString := RandomString env;
     randReader := v;
     OnRecordsListRequest := OnRecordsListRequest env;
     OnRecordViewRequest := OnRecordViewRequest env;
     OnRecordCreateRequest := OnRecordCreateRequest env;
     OnRecordUpdateRequest := OnRecordUpdateRequest env;
     OnRecordDeleteRequest := OnRecordDeleteRequest env |}.

(** The same collaborators, with the given handlers registered on every hook. *)
Definition withHooks (env : Env) (v : list HookHandler) : Env :=
  {| FindCachedCollectionByNameOrId := FindCachedCollectionByNameOrId env;
     checkCollectionRateLimitResult := checkCollectionRateLimitResult env;
     RequestInfoResult := RequestInfoResult env;
     checkForSuperuserOnlyRuleFields := checkForSuperuserOnlyRuleFields env;
     BuildExpr := BuildExpr env;
     ParseAndExec := ParseAndExec env;
     Row := Row env;
     EnrichRecords := EnrichRecords env;
     EnrichRecord := EnrichRecord env;
     JSONResult := JSONResult env;
     NoContentResult := NoContentResult env;
     ReplaceModifiers := ReplaceModifiers env;
     FindUploadedFiles := FindUploadedFiles env;
     DBExport := DBExport env;
     LoadData := LoadData env;
     Save := Save env;
     DeleteResult := DeleteResult env;
     Columnify := Columnify env;
     PseudorandomString := PseudorandomString env;
     RandomString := RandomString env;
     randReader := randReader env;
     OnRecordsListRequest := v;
     OnRecordViewRequest := v;
     OnRecordCreateRequest := v;
     OnRecordUpdateRequest := v;
     OnRecordDeleteRequest := v |}.

Definition sampleWorld (rows : list RecordObj) : World :=
  {| heap := []; rows := rows; limiters := ∅; isOptFinalizerCalled := false; trace := [] |}.

(** A finalizer that succeeds. *)
Definition sampleFinalizer : Finalizer := Some (fun _ => None).

(** Simplification runs a computation as far as its collaborators'
    answers are known. *)
Arguments bind {A B} m k w / : simpl nomatch.
Arguments ret {A} a w /.
Arguments fail {A} e w /.
Arguments emit e w /.
Arguments get w /.
Arguments returnIf cond e w / : simpl nomatch.
Arguments returnErr err f w / : simpl nomatch.
Arguments orReturn {A} r f w / : simpl nomatch.
Arguments try {A} m f w / : simpl nomatch.
Arguments alloc r w /.
Arguments store p r w /.
Arguments load p w / : simpl nomatch.
Arguments setFinalizerCalled b w /.

(** ** Notions of the properties, with their sample inputs *)

(** [w'] continues [w]: the log grew by calls that satisfy [P], and no
    record object was dropped from the heap. *)
Definition grows (P : Effect -> Prop) (w w' : World) : Prop :=
  (exists added, trace w' = trace w ++ added /\ Forall P added) /\
  length (heap w) <= length (heap w').

Definition emitsOnly {A : Type} (P : Effect -> Prop) (m : M A) : Prop :=
  forall w, grows P w (fst (m w)).

(** Every call satisfies the trivial property: the following lemmas say
    that a run only prolongs the log and the heap. *)
Definition anyEffect (eff : Effect) : Prop := True.

(** The run of a handler went past the check of the rule slot: the list
    handler returns what the check of the superuser-only fields says or
    runs the search; the single-record handlers fetch the record; the
    create handler allocates the new record. *)
Definition passesRuleCheck (op : Op) (env : Env) (e : RequestEvent) (c : Collection)
    (info : RequestInfo) (w : World) (r : World * (error + unit)) : Prop :=
  match op with
  | OpList =>
      match checkForSuperuserOnlyRuleFields env info with
      | Some err => snd r = inl err
      | None =>
          exists resolver q rest,
            trace (fst r) =
            trace w ++ EffRateLimit (Id c +:+ ":" +:+ opTag op) ::
                       EffSearch resolver q (urlQuery e) :: rest
      end
  | OpCreate => length (heap w) < length (heap (fst r))
  | OpView | OpUpdate | OpDelete =>
      exists q rest,
        trace (fst r) =
        trace w ++ EffRateLimit (Id c +:+ ":" +:+ opTag op) :: EffFindRecord q :: rest
  end.

Definition viewCollection : Collection := sampleCollection TypeView None None.
Definition lockedCollection : Collection := sampleCollection TypeBase None None.

(** Calls that carry no rule predicate: the search runs the plain query of
    the collection, a record is fetched by its id alone, and no create
    rule query is run. *)
Definition ruleFree (c : Collection) (e : RequestEvent) (eff : Effect) : Prop :=
  match eff with
  | EffSearch _ q _ => q = RecordQuery c
  | EffFindRecord q => q = AndWhere (RecordQuery c) (idEquals (Name c) (pathId e))
  | EffQueryRow CreateRuleQuery _ => False
  | _ => True
  end.

Definition openCollection : Collection := sampleCollection TypeBase (Some "") None.

(** The conditions under which [hasAuthManageAccess] grants access. *)
Definition manageGranted (env : Env) (requestInfo : option RequestInfo)
    (collection : Collection) (query : SelectQuery) : Prop :=
  IsAuth collection = true /\
  exists manageRule info auth expr resolver,
    ManageRule collection = Some manageRule /\ manageRule <> "" /\
    requestInfo = Some info /\ Auth info = Some auth /\
    BuildExpr env manageRule (NewRecordFieldResolver collection requestInfo true) =
      inr (expr, resolver) /\
    Row env (Limit (UpdateQuery resolver (AndWhere query expr)) 1) = (None, true).


Definition authCollection : Collection :=
  sampleCollection TypeAuth (Some "") (Some "@request.auth.verified = true").





(** The names under which [createRuleCheck] prepares its rule queries. *)
Definition dummyRandomPartOf (env : Env) : string :=
  "__hb_create__" +:+ PseudorandomString env 6.

Definition dummyOf (env : Env) (r : RecordObj) : RecordObj :=
  setVerified
    (if String.eqb (recId r) "" then setId r ("__temp_id__" +:+ dummyRandomPartOf env) else r)
    false.

Definition dummyQueryOf (env : Env) (c : Collection) (dummyExport : gmap string Value)
    : SelectQuery :=
  SelectOne
    ("WITH {{" +:+ Name (dummyCollectionOf env c (dummyRandomPartOf env)) +:+
     "}} as (SELECT " +:+ Join (dummySelectsOf env dummyExport) "," +:+ ")")
    (Name (dummyCollectionOf env c (dummyRandomPartOf env)))
    (dummyParamsOf env dummyExport).

Definition createRuleResolver (env : Env) (c : Collection) (info : RequestInfo)
    : RecordFieldResolver :=
  NewRecordFieldResolver (dummyCollectionOf env c (dummyRandomPartOf env)) (Some info) true.

Definition createRuleQuery (env : Env) (c : Collection) (dummyExport : gmap string Value)
    (expr : Expr) (resolver : RecordFieldResolver) : SelectQuery :=
  Limit (UpdateQuery resolver (AndWhere (dummyQueryOf env c dummyExport) expr)) 1.

(** The world once the dummy record is prepared and exported. *)
Definition withDummy (env : Env) (w : World) (r : RecordObj) : World :=
  addEffect (setHeap w (heap w ++ [dummyOf env r])) (EffDBExport (dummyOf env r)).

(** The three ways in which a non-empty create rule fails. *)
Inductive CreateRuleFailure (env : Env) (c : Collection) (info : RequestInfo)
    (rule : string) (dummyExport : gmap string Value) : Prop :=
| BuildFails (err : error) :
    BuildExpr env rule (createRuleResolver env c info) = inl err ->
    CreateRuleFailure env c info rule dummyExport
| QueryFails (expr : Expr) (resolver : RecordFieldResolver) (err : error) (found : bool) :
    BuildExpr env rule (createRuleResolver env c info) = inr (expr, resolver) ->
    Row env (createRuleQuery env c dummyExport expr resolver) = (Some err, found) ->
    CreateRuleFailure env c info rule dummyExport
| RuleIsFalse (expr : Expr) (resolver : RecordFieldResolver) :
    BuildExpr env rule (createRuleResolver env c info) = inr (expr, resolver) ->
    Row env (createRuleQuery env c dummyExport expr resolver) = (None, false) ->
    CreateRuleFailure env c info rule dummyExport.

Definition newRecord (c : Collection) : RecordObj :=
  {| recCollection := c; recId := ""; recData := ∅ |}.

(** The submitted data of a create request, with the random password of
    the OAuth2 flow. *)
Definition createData (env : Env) (info : RequestInfo) (data : gmap string Value)
    : gmap string Value :=
  if String.eqb (Context info) RequestInfoContextOAuth2 && isNil (data !! FieldNamePassword)
  then <[FieldNamePassword +:+ "Confirm" := VString (RandomString env 30)]>
         (<[FieldNamePassword := VString (RandomString env 30)]> data)
  else data.

(** The record of a create request when the hooks are triggered. *)
Definition createLoaded (env : Env) (c : Collection) (info : RequestInfo)
    (data : gmap string Value) : RecordObj :=
  let access := if HasSuperuserAuth info then AccessSuperuser else AccessDefault in
  let loaded := LoadData env access (newRecord c) (createData env info data) in
  if String.eqb (Context info) RequestInfoContextOAuth2 && isNil (data !! FieldNamePassword)
  then unsetPlainPassword loaded
  else loaded.

Definition ruledCollection : Collection :=
  sampleCollection TypeBase (Some "public = true") None.

(** What the rule check may call once the dummy record is prepared: the
    export of the dummy record and rule queries over the dummy
    collection, bound to the exported values of the dummy record. *)
Definition aboutDummy (env : Env) (c : Collection) (r : RecordObj) (eff : Effect) : Prop :=
  match eff with
  | EffDBExport d => d = dummyOf env r
  | EffQueryRow _ q =>
      exists dummyExport,
        DBExport env (dummyOf env r) = inr dummyExport /\
        qParams q = dummyParamsOf env dummyExport /\
        qFrom q = Name (dummyCollectionOf env c (dummyRandomPartOf env))
  | EffLog _ => True
  | _ => False
  end.

(** A computation that leaves the record heap and the persisted rows as
    they are. *)
Definition keepsRecords {A : Type} (m : M A) : Prop :=
  forall w, heap (fst (m w)) = heap w /\ rows (fst (m w)) = rows w.

(** The rule queries of [createRuleCheck], run after the preparation. *)
Definition checkRules (env : Env) (info : RequestInfo) (c : Collection) (form : RecordUpsert)
    (rule : string) (dummyExport : gmap string Value) : M RecordUpsert :=
  do _ <-
    (if negb (String.eqb rule "")
     then
       do (expr, resolver) <-
         orReturn (BuildExpr env rule (createRuleResolver env c info))
           (fun err => BadRequestError "Failed to create record"
              (Some (WrapError "create rule build expression failure" (Some err))));
       do _ <- emit (EffQueryRow CreateRuleQuery
                       (createRuleQuery env c dummyExport expr resolver));
       let '(err, exists_) := Row env (createRuleQuery env c dummyExport expr resolver) in
       returnIf (negb (isNil err) || negb exists_)
         (BadRequestError "Failed to create record"
            (Some (WrapError "create rule failure" err)))
     else ret tt);
  if negb (HasManageAccess form)
  then
    do granted <- hasAuthManageAccess env (Some info)
                    (dummyCollectionOf env c (dummyRandomPartOf env))
                    (dummyQueryOf env c dummyExport);
    ret (if granted then GrantManagerAccess form else form)
  else ret form.

(** A record that was submitted as verified, held at address 0. *)
Definition selfVerified : RecordObj :=
  {| recCollection := ruledCollection; recId := "";
     recData := {[ "verified" := VBool true; "public" := VBool true ]} |}.

Definition worldHolding (r : RecordObj) : World :=
  {| heap := [r]; rows := []; limiters := ∅; isOptFinalizerCalled := false; trace := [] |}.

Definition withId (e : RequestEvent) (id : string) : RequestEvent :=
  {| pathCollection := pathCollection e; pathId := id;
     contentType := contentType e; urlQuery := urlQuery e |}.

(** The query that fetches a record by its id. *)
Definition idQuery (c : Collection) (id : string) : SelectQuery :=
  AndWhere (RecordQuery c) (idEquals (Name c) id).

(** No persisted row of the collection has the id. *)
Definition absentId (w : World) (c : Collection) (id : string) : Prop :=
  List.filter (matches (idQuery c id)) (rows w) = [].

(** The request info that the rule of the operation is compiled against:
    [recordUpdate] first replaces its body by the submitted data, read
    with the record fetched by id. *)
Definition ruleInfo (op : Op) (env : Env) (e : RequestEvent) (info : RequestInfo)
    (fetched : RecordObj) : error + RequestInfo :=
  match op with
  | OpUpdate =>
      match recordDataFromRequest env e fetched with
      | inl err => inl err
      | inr data => inr (withBody info data)
      end
  | _ => inr info
  end.

(** A row with the id exists, and the compiled rule of the operation
    rejects every row with that id. *)
Definition filteredOut (op : Op) (env : Env) (e : RequestEvent) (w : World) (c : Collection)
    (info : RequestInfo) (rule : string) (id : string) : Prop :=
  exists fetched others info' expr resolver,
    rule <> "" /\
    List.filter (matches (idQuery c id)) (rows w) = fetched :: others /\
    ruleInfo op env (withId e id) info fetched = inr info' /\
    BuildExpr env rule (NewRecordFieldResolver c (Some info') true) = inr (expr, resolver) /\
    (forall r, In r (rows w) -> matches (idQuery c id) r = true -> exprHolds expr r = false).

(** What the client sees of a run: the status and message of the error. *)
Definition seen {A : Type} (r : World * (error + A)) : option (nat * string) :=
  match snd r with
  | inl err => visible err
  | inr _ => None
  end.

(** A private row, and a request whose uploaded files cannot be read. *)
Definition privateRow : RecordObj := sampleRow ruledCollection "r1" false.

Definition multipartRequest (id : string) : RequestEvent :=
  {| pathCollection := "posts"; pathId := id;
     contentType := "multipart/form-data; boundary=x"; urlQuery := "" |}.

Definition brokenUpload : Env :=
  withFindUploadedFiles (sampleEnv ruledCollection guest)
    (fun _ => ([], Some (PlainError "unexpected EOF"))).

(** The delays of the throttle among the calls of a run, in milliseconds. *)
Fixpoint sleeps (effects : list Effect) : list Z :=
  match effects with
  | [] => []
  | EffSleep ms :: rest => ms :: sleeps rest
  | _ :: rest => sleeps rest
  end.

(** The id of the limiter of the timing check of a collection. *)
Definition timingLimiter (c : Collection) : string := "@hb_list_timing_check_" +:+ Id c.

(** The closure that [recordsList] hands to the hook trigger. *)
Definition listClosure (env : Env) (collection : Collection) (requestInfo : RequestInfo)
    (e : RecordsListRequestEvent) : M unit :=
  do _ <- returnErr (EnrichRecords env (listRecords e))
    (fun err => firstApiError
       [Some err; Some (InternalServerError "Failed to enrich records" (Some err))]);
  do _ <-
    (if negb (HasSuperuserAuth requestInfo) &&
        nonEmptyRule (ListRule collection) &&
        negb (String.eqb (queryParam requestInfo "filter") "") &&
        Nat.eqb (length (listRecords e)) 0
     then
       do limited <- checkRateLimit ("@hb_list_timing_check_" +:+ Id collection)
                       listTimingRateLimitRule;
       match limited with
       | Some _ =>
           do _ <- emit (EffLog "Randomized throttle because of too many failed searches");
           randomizedThrottle env 150
       | None => ret tt
       end
     else ret tt);
  respondJSON env 200.

(** When the throttle of a list request fires, and for how long. *)
Definition throttled (env : Env) (e : RequestEvent) (w : World) (ms : Z) : Prop :=
  exists c info resolver q,
    FindCachedCollectionByNameOrId env (pathCollection e) = (Some c, None) /\
    RequestInfoResult env = inr info /\
    HasSuperuserAuth info = false /\
    nonEmptyRule (ListRule c) = true /\
    queryParam info "filter" <> "" /\
    ParseAndExec env resolver q (urlQuery e) (rows w) = inr [] /\
    exhausted w (timingLimiter c) listTimingRateLimitRule = true /\
    match randReader env with
    | inr raw => ms = (raw mod 150)%Z /\ (0 <= ms < 150)%Z
    | inl _ => ms = 150%Z
    end.

(** The delay of [randomizedThrottle]. *)
Definition throttleDelay (env : Env) (softMax : Z) : Z :=
  match cryptoRandInt env softMax with
  | inr randRange => randRange
  | inl _ => softMax
  end.

(** A user who searches with a filter, and a world in which the limiter
    of the timing check has counted three requests. *)
Definition searching : RequestInfo :=
  withQuery user {[ "filter" := "title ~ 'a'" ]}.

Definition crowded : World :=
  {| heap := []; rows := []; limiters := {[ "@hb_list_timing_check_c1" := 3 ]};
     isOptFinalizerCalled := false; trace := [] |}.

(** How often the finalizer was called among the calls of a run. *)
Fixpoint finalizerCalls (effects : list Effect) : nat :=
  match effects with
  | [] => 0
  | EffFinalizer _ :: rest => S (finalizerCalls rest)
  | _ :: rest => finalizerCalls rest
  end.

Definition notFinalizer (eff : Effect) : Prop := isFinalizer eff = false.

(** A computation that leaves the handler's flag as it is. *)
Definition keepsFlag {A : Type} (m : M A) : Prop :=
  forall w, isOptFinalizerCalled (fst (m w)) = isOptFinalizerCalled w.

(** The calls of a run up to and including the one call of the
    finalizer, which comes last. *)
Definition endsWithFinalizer (added : list Effect) : Prop :=
  exists before p, added = before ++ [EffFinalizer p] /\ Forall notFinalizer before.

(** What the closure of a handler does about the finalizer, when it is
    entered with the flag down: either it fails before the finalizer is
    reached, with the flag still down, or it calls the finalizer once, as
    its last call, and leaves the flag up. *)
Definition closureCallsOnce {A : Type} (m : M A) : Prop :=
  forall w,
    isOptFinalizerCalled w = false ->
    exists added,
      trace (fst (m w)) = trace w ++ added /\
      ((Forall notFinalizer added /\ isOptFinalizerCalled (fst (m w)) = false /\
        exists err, snd (m w) = inl err) \/
       (endsWithFinalizer added /\ isOptFinalizerCalled (fst (m w)) = true)).

(** What a handler does about the finalizer: either it returns an error
    without having called it, or it called it once, as its last call. *)
Definition callsOnce {A : Type} (m : M A) : Prop :=
  forall w,
    exists added,
      trace (fst (m w)) = trace w ++ added /\
      ((Forall notFinalizer added /\ result (m w) <> None) \/
       endsWithFinalizer added).

Definition isSave (eff : Effect) : bool :=
  match eff with
  | EffSave _ _ => true
  | _ => false
  end.

(** Collaborators whose form rejects the record. *)
Definition rejectingForm : Env :=
  withSave (sampleEnv openCollection guest) (fun _ _ => inl (PlainError "validation failed")).

(** Collaborators with a hook that stops the chain with an error. *)
Definition stoppingHook : Env :=
  withHooks (sampleEnv openCollection guest) [HookStop (Some (PlainError "stopped"))].

Definition publicRow : RecordObj := sampleRow openCollection "r1" true.

(** The call of the finalizer, when there is one. *)
Definition finalizerCall (optFinalizer : Finalizer) (p : loc) : list Effect :=
  match optFinalizer with
  | Some _ => [EffFinalizer p]
  | None => []
  end.

(** Calls of the checks that precede a save under an empty rule: the
    export of the dummy record and the manage rule query. *)
Definition checkCall (eff : Effect) : Prop :=
  match eff with
  | EffDBExport _ | EffQueryRow ManageRuleQuery _ | EffLog _ => True
  | _ => False
  end.

(** Nothing but the rule stands in the way of the operation: no hook
    stops the chain, the request uses no field that only superusers may
    query, the search runs, the uploaded files are read, the dummy record
    is exported, the form accepts the record, the row is deleted, the
    record is enriched, the response is written and the finalizer
    returns nil. *)
Definition cooperative (op : Op) (optFinalizer : Finalizer) (env : Env) (e : RequestEvent)
    : Prop :=
  Forall (fun h => h = HookNext) (hooksOf op env) /\
  (forall info, checkForSuperuserOnlyRuleFields env info = None) /\
  (forall resolver q persisted,
     exists records, ParseAndExec env resolver q (urlQuery e) persisted = inr records) /\
  (forall collection,
     exists files, extractUploadedFiles env e collection "" = inr files) /\
  (forall r, exists dummyExport, DBExport env r = inr dummyExport) /\
  (forall access r, exists saved, Save env access r = inr saved) /\
  (forall r, DeleteResult env r = None) /\
  (forall records, EnrichRecords env records = None) /\
  (forall r, EnrichRecord env r = None) /\
  (forall status, JSONResult env status = None) /\
  (forall status, NoContentResult env status = None) /\
  match optFinalizer with
  | Some fin => forall p, fin p = None
  | None => True
  end.

(** The run [r] of the handler, started in [w], carried the operation
    out: it returned nil, and
    - list searched the plain query of the collection and responded;
    - view fetched [target] by its id alone and responded;
    - create saved the new record, loaded with the submitted data, and
      responded;
    - update fetched [target] by its id alone, saved it, loaded with the
      submitted data, and responded;
    - delete fetched [target] by its id alone, deleted it and responded.
    [target] is irrelevant to list and create. *)
Definition carriedOut (op : Op) (optFinalizer : Finalizer) (env : Env) (e : RequestEvent)
    (c : Collection) (info : RequestInfo) (w : World) (target : RecordObj)
    (r : World * (error + unit)) : Prop :=
  let access := if HasSuperuserAuth info then AccessSuperuser else AccessDefault in
  let limiter := EffRateLimit (Id c +:+ ":" +:+ opTag op) in
  let fetch := EffFindRecord (idQuery c (pathId e)) in
  result r = None /\
  match op with
  | OpList =>
      rows (fst r) = rows w /\
      trace (fst r) =
      trace w ++
      [limiter;
       EffSearch (SetAllowHiddenFields (NewRecordFieldResolver c (Some info) true)
                    (HasSuperuserAuth info))
         (RecordQuery c) (urlQuery e);
       EffJSON 200]
  | OpView =>
      rows (fst r) = rows w /\
      trace (fst r) = trace w ++ [limiter; fetch; EffJSON 200]
  | OpCreate =>
      exists data submitAccess saved checks,
        recordDataFromRequest env e (newRecord c) = inr data /\
        Save env submitAccess (createLoaded env c info data) = inr saved /\
        Forall checkCall checks /\
        trace (fst r) =
        trace w ++ [limiter] ++ checks ++
        [EffSave submitAccess (createLoaded env c info data); EffJSON 200] ++
        finalizerCall optFinalizer (length (heap w)) /\
        rows (fst r) =
        List.filter (fun x => negb (sameRow x saved)) (rows w) ++ [saved]
  | OpUpdate =>
      exists data submitAccess saved checks,
        recordDataFromRequest env e target = inr data /\
        Save env submitAccess (LoadData env access target data) = inr saved /\
        Forall checkCall checks /\
        trace (fst r) =
        trace w ++ [limiter; fetch; fetch] ++ checks ++
        [EffSave submitAccess (LoadData env access target data); EffJSON 200] ++
        finalizerCall optFinalizer (S (length (heap w))) /\
        rows (fst r) =
        List.filter (fun x => negb (sameRow x saved)) (rows w) ++ [saved]
  | OpDelete =>
      trace (fst r) =
      trace w ++ [limiter; fetch; EffDelete target; EffNoContent 204] ++
      finalizerCall optFinalizer (length (heap w)) /\
      rows (fst r) = List.filter (fun x => negb (sameRow x target)) (rows w)
  end.

(** What an empty rule lets every caller do: list and create are carried
    out as they are, and view, update and delete are carried out on a row
    of the collection with the id of the path whenever there is one. *)
Definition operationOpen (op : Op) (optFinalizer : Finalizer) (env : Env) (e : RequestEvent)
    (c : Collection) (info : RequestInfo) (w : World) : Prop :=
  match op with
  | OpList | OpCreate =>
      carriedOut op optFinalizer env e c info w (newRecord c)
        (handler op optFinalizer env e w)
  | OpView | OpUpdate | OpDelete =>
      forall row,
        In row (rows w) ->
        Name (recCollection row) = Name c ->
        recId row = pathId e ->
        exists target,
          In target (rows w) /\
          Name (recCollection target) = Name c /\
          recId target = recId row /\
          carriedOut op optFinalizer env e c info w target
            (handler op optFinalizer env e w)
  end.

(** ** Further notions: early returns, superusers, rules, access, stages, reads, hooks, uploads *)

(** The operations whose rule is compiled before any query is made. *)
Definition compilesRuleFirst (op : Op) : bool :=
  match op with
  | OpList | OpView | OpDelete => true
  | OpCreate | OpUpdate => false
  end.

(** The same collaborators, with another answer of the collection cache. *)
Definition withCollectionLookup (env : Env)
    (v : string -> option Collection * option error) : Env :=
  {| FindCachedCollectionByNameOrId := v;
     checkCollectionRateLimitResult := checkCollectionRateLimitResult env;
     RequestInfoResult := RequestInfoResult env;
     checkForSuperuserOnlyRuleFields := checkForSuperuserOnlyRuleFields env;
     BuildExpr := BuildExpr env;
     ParseAndExec := ParseAndExec env;
     Row := Row env;
     EnrichRecords := EnrichRecords env;
     EnrichRecord := EnrichRecord env;
     JSONResult := JSONResult env;
     NoContentResult := NoContentResult env;
     ReplaceModifiers := ReplaceModifiers env;
     FindUploadedFiles := FindUploadedFiles env;
     DBExport := DBExport env;
     LoadData := LoadData env;
     Save := Save env;
     DeleteResult := DeleteResult env;
     Columnify := Columnify env;
     PseudorandomString := PseudorandomString env;
     RandomString := RandomString env;
     randReader := randReader env;
     OnRecordsListRequest := OnRecordsListRequest env;
     OnRecordViewRequest := OnRecordViewRequest env;
     OnRecordCreateRequest := OnRecordCreateRequest env;
     OnRecordUpdateRequest := OnRecordUpdateRequest env;
     OnRecordDeleteRequest := OnRecordDeleteRequest env |}.

(** Collaborators whose collection cache finds nothing, whose rate
    limiter rejects the request, and whose expression builder rejects the
    rule. *)
Definition lostCollection : Env :=
  withCollectionLookup (sampleEnv openCollection guest) (fun _ => (None, None)).

Definition rateLimited : Env :=
  withRateLimitResult (sampleEnv openCollection guest)
    (fun _ _ => Some (TooManyRequestsError "" None)).

Definition brokenRule : Env :=
  withBuildExpr (sampleEnv ruledCollection guest)
    (fun _ _ => inl (PlainError "invalid filter")).

(** What a run for a superuser may call: the collection's rate limiter,
    the plain search with the hidden fields allowed, the fetch of a
    record by its id alone, saves with superuser access, the delete, the
    response and the finalizer.  No rule query, no export of a dummy
    record, no timing check and no throttle. *)
Definition superuserCall (op : Op) (c : Collection) (e : RequestEvent) (eff : Effect) : Prop :=
  match eff with
  | EffRateLimit label => label = Id c +:+ ":" +:+ opTag op
  | EffSearch resolver q _ => q = RecordQuery c /\ allowHiddenFields resolver = true
  | EffFindRecord q => q = AndWhere (RecordQuery c) (idEquals (Name c) (pathId e))
  | EffSave access _ => access = AccessSuperuser
  | EffQueryRow _ _ | EffDBExport _ | EffSleep _ | EffLog _ => False
  | EffDelete _ | EffJSON _ | EffNoContent _ | EffFinalizer _ => True
  end.

(** The request info that the rule of the operation is compiled against.
    [recordUpdate] replaces the body of the request info by the submitted
    data, which it reads with the record that its fetch by the id alone
    found among the persisted rows. *)
Definition compiledAgainst (op : Op) (env : Env) (c : Collection) (info : RequestInfo)
    (e : RequestEvent) (persisted : list RecordObj) (info' : RequestInfo) : Prop :=
  match op with
  | OpUpdate =>
      exists fetched others data,
        List.filter (matches (idQuery c (pathId e))) persisted = fetched :: others /\
        recordDataFromRequest env e fetched = inr data /\
        info' = withBody info data
  | _ => info' = info
  end.

(** The queries of a run for a caller without superuser auth under a
    non-empty rule, started with the rows [persisted]: the rule is
    compiled against the request info and added to the search of
    [recordsList] (whose resolver does not resolve hidden fields) and to
    the fetch of [recordView] and [recordDelete]; [recordUpdate] first
    fetches the record by its id alone and then again with the rule,
    compiled against the request info whose body is the submitted data. *)
Definition ruled (op : Op) (env : Env) (c : Collection) (info : RequestInfo) (rule : string)
    (e : RequestEvent) (persisted : list RecordObj) (eff : Effect) : Prop :=
  match eff with
  | EffSearch resolver q _ =>
      exists expr compiled,
        BuildExpr env rule (NewRecordFieldResolver c (Some info) true) = inr (expr, compiled) /\
        q = AndWhere (RecordQuery c) expr /\
        resolver = SetAllowHiddenFields compiled false
  | EffFindRecord q =>
      (op = OpUpdate /\ q = idQuery c (pathId e)) \/
      exists info' expr compiled,
        compiledAgainst op env c info e persisted info' /\
        BuildExpr env rule (NewRecordFieldResolver c (Some info') true) = inr (expr, compiled) /\
        q = AndWhere (UpdateQuery compiled (idQuery c (pathId e))) expr
  | _ => True
  end.

(** A manage rule query, among the calls, that answered that a row exists. *)
Definition manageGrantIn (env : Env) (added : list Effect) : Prop :=
  exists q, In (EffQueryRow ManageRuleQuery q) added /\ Row env q = (None, true).

(** A create rule query, among the calls, that answered that a row exists. *)
Definition createGrantIn (env : Env) (added : list Effect) : Prop :=
  exists q, In (EffQueryRow CreateRuleQuery q) added /\ Row env q = (None, true).

(** The access with which a form may be submitted: superuser access for a
    superuser, and for the others default access, or manager access once a
    manage rule query answered that a row exists. *)
Definition earned (env : Env) (hasSuperuserAuth : bool) (added : list Effect)
    (access : Access) : Prop :=
  match access with
  | AccessSuperuser => hasSuperuserAuth = true
  | AccessManager => hasSuperuserAuth = false /\ manageGrantIn env added
  | AccessDefault => hasSuperuserAuth = false
  end.

(** What entitles a caller to the save of a new record, when the create
    rule needs to be checked: a create rule query that answered that a
    row exists. *)
Definition ruleChecked (env : Env) (added : list Effect) (access : Access) : Prop :=
  createGrantIn env added.

Definition noSave (eff : Effect) : Prop := isSave eff = false.

(** A justification of an access by the calls made so far: it stays when
    more calls are made before or after. *)
Definition lasting (J : list Effect -> Access -> Prop) : Prop :=
  forall before added after access,
    J added access -> J (before ++ added ++ after) access.

(** Every save among the calls was made with an access that the calls
    before it justify. *)
Definition savesJustified (J : list Effect -> Access -> Prop) (added : list Effect) : Prop :=
  forall before access r after,
    added = before ++ EffSave access r :: after -> J before access.

(** A computation that saves nothing and yields a form whose access is
    justified by its calls. *)
Definition grantsJustified (J : list Effect -> Access -> Prop) (m : M RecordUpsert) : Prop :=
  forall w, exists added,
    trace (fst (m w)) = trace w ++ added /\ Forall noSave added /\
    forall form, snd (m w) = inr form -> J added (formAccess form).

(** A computation all of whose saves are justified. *)
Definition savesAsJustified {A : Type} (J : list Effect -> Access -> Prop) (m : M A) : Prop :=
  forall w, exists added,
    trace (fst (m w)) = trace w ++ added /\ savesJustified J added.

(** The name of the query parameter that [createRuleCheck] binds an
    exported field to. *)
Definition dummyParam (env : Env) (k : string) : string :=
  "__hb_create__" +:+ Columnify env k.

(** The stage of a call in the course of a request: the search or the
    fetch of the record, the export of the dummy record, the create rule
    query, the manage rule query, the sleep of the throttle, the save or
    the delete, the response.  The calls of the rate limiters, of the
    logger and of the finalizer belong to no stage. *)
Definition stage (eff : Effect) : option nat :=
  match eff with
  | EffRateLimit _ | EffLog _ | EffFinalizer _ => None
  | EffSearch _ _ _ | EffFindRecord _ => Some 1
  | EffDBExport _ => Some 2
  | EffQueryRow CreateRuleQuery _ => Some 3
  | EffQueryRow ManageRuleQuery _ => Some 4
  | EffSleep _ => Some 5
  | EffSave _ _ | EffDelete _ => Some 6
  | EffJSON _ | EffNoContent _ => Some 7
  end.

(** Stage [b] may follow stage [a]: it is a later stage, or both are the
    fetch of the record, which [recordUpdate] does twice. *)
Definition mayFollow (op : Op) (a b : nat) : Prop :=
  a < b \/ (op = OpUpdate /\ a = 1 /\ b = 1).

(** The stages come in order. *)
Fixpoint inOrder (op : Op) (stages : list nat) : Prop :=
  match stages with
  | [] => True
  | a :: rest => Forall (mayFollow op a) rest /\ inOrder op rest
  end.

(** Calls up to a stage, calls beyond it, and calls from it on. *)
Definition upTo (h : nat) (eff : Effect) : Prop :=
  match stage eff with
  | Some s => Nat.leb s h = true
  | None => True
  end.

Definition beyond (h : nat) (eff : Effect) : Prop :=
  match stage eff with
  | Some s => Nat.ltb h s = true
  | None => True
  end.

Definition atLeast (h : nat) (eff : Effect) : Prop :=
  match stage eff with
  | Some s => Nat.leb h s = true
  | None => True
  end.

(** A computation whose calls come in the order of the stages. *)
Definition ordered {A : Type} (op : Op) (m : M A) : Prop :=
  forall w, exists added,
    trace (fst (m w)) = trace w ++ added /\ inOrder op (omap stage added).

(** What the reading handlers may call: no save, no delete, no export of
    a dummy record, no rule query of its own, no finalizer. *)
Definition readCall (eff : Effect) : Prop :=
  match eff with
  | EffSave _ _ | EffDelete _ | EffDBExport _ | EffQueryRow _ _ | EffFinalizer _
  | EffNoContent _ => False
  | _ => True
  end.

(** A computation that leaves the persisted rows as they are. *)
Definition keepsRows {A : Type} (m : M A) : Prop :=
  forall w, rows (fst (m w)) = rows w.

Definition stops (h : HookHandler) : bool :=
  match h with
  | HookStop _ => true
  | HookNext => false
  end.

(** What a run may call when its hook chain is stopped: the collection's
    rate limiter, the search or the fetch that precede the hooks, and the
    finalizer. *)
Definition beforeTheHooks (eff : Effect) : Prop :=
  match eff with
  | EffRateLimit _ | EffSearch _ _ _ | EffFindRecord _ | EffFinalizer _ => True
  | _ => False
  end.

(** What a handler does to a record or tells the client: a save, a
    delete, a response. *)
Definition isAction (eff : Effect) : bool :=
  match eff with
  | EffSave _ _ | EffDelete _ | EffJSON _ | EffNoContent _ => true
  | _ => false
  end.

Definition notAction (eff : Effect) : Prop := isAction eff = false.

(** The rule, compiled against [info'], let a record through: a fetch of
    the record of the path's id with the compiled rule added is among the
    calls made so far, and a persisted row of the collection with that id
    satisfies the compiled rule. *)
Definition letThrough (env : Env) (c : Collection) (rule : string) (e : RequestEvent)
    (info' : RequestInfo) (before : list Effect) (persisted : list RecordObj) : Prop :=
  exists expr compiled row,
    BuildExpr env rule (NewRecordFieldResolver c (Some info') true) = inr (expr, compiled) /\
    In (EffFindRecord (AndWhere (UpdateQuery compiled (idQuery c (pathId e))) expr)) before /\
    In row persisted /\
    Name (recCollection row) = Name c /\
    recId row = pathId e /\
    exprHolds expr row = true.

(** What entitles a caller without superuser auth to an action of view,
    update or delete under a non-empty rule: the rule, compiled against
    the request info (for update, with the submitted data as its body),
    let a record through. *)
Definition entitled (op : Op) (env : Env) (c : Collection) (info : RequestInfo)
    (rule : string) (e : RequestEvent) (before : list Effect) (persisted : list RecordObj)
    : Prop :=
  exists info',
    compiledAgainst op env c info e persisted info' /\
    letThrough env c rule e info' before persisted.

(** A computation whose actions are all preceded by calls that satisfy
    [G], together with the rows persisted when it starts. *)
Definition guarded {A : Type} (G : list Effect -> list RecordObj -> Prop) (m : M A) : Prop :=
  forall w, exists added,
    trace (fst (m w)) = trace w ++ added /\
    forall before action after,
      isAction action = true -> added = before ++ action :: after -> G before (rows w).

(** The key under which [extractUploadedFiles] looks up the files of a
    field key: the key itself, or the key behind the prefix and a dot. *)
Definition prefixed (prefix k : string) : string :=
  if String.eqb prefix "" then k else prefix +:+ "." +:+ k.

(** The keys that [extractUploadedFiles] looks up, in the order of the
    lookups: for every file field its name, and its name with the prepend
    and the append modifier. *)
Definition uploadKeys (prefix : string) (fields : list Field) : list string :=
  flat_map
    (fun field =>
       if String.eqb (FieldType field) FieldTypeFile
       then map (prefixed prefix) [GetName field; "+" +:+ GetName field; GetName field +:+ "+"]
       else [])
    fields.

(** The error of a lookup that is not a missing file. *)
Definition lookupFailure (env : Env) (k : string) : option error :=
  match snd (FindUploadedFiles env k) with
  | Some err => if isErrMissingFile err then None else Some err
  | None => None
  end.

(** The names already submitted under an uploaded key, which the merge of
    [recordDataFromRequest] keeps in front of the uploaded files: none
    for a key with a modifier. *)
Definition submittedNames (body : gmap string Value) (k : string) : list Value :=
  if bodyHas body k && negb (HasPrefix k "+") && negb (HasSuffix k "+") &&
     negb (HasSuffix k "-")
  then VString <$> ToUniqueStringSlice (body !! k)
  else [].

(** A guest whose body names an avatar already stored, and collaborators
    that find two uploaded avatars in the request. *)
Definition keepingAvatar : RequestInfo :=
  {| Auth := None; Context := "default"; Query := ∅;
     Body := {[ "avatar" := VString "old.png" ]} |}.

Definition twoAvatars : Env :=
  withFindUploadedFiles (sampleEnv openCollection keepingAvatar)
    (fun k => if String.eqb k "avatar" then (["a.png"; "b.png"], None)
              else ([], Some ErrMissingFile)).

(** What the loops of [extractUploadedFiles] hold in [result] once the
    keys [seen] were looked up. *)
Definition holdsUploads (env : Env) (seen : list string) (result : gmap string (list string))
    : Prop :=
  forall k files,
    result !! k = Some files <->
    In k seen /\ fst (FindUploadedFiles env k) = files /\ files <> [].

(** ** Package [mailer]: serializing addresses *)

Module mailer.

(** [mail.Address] of the Go standard library. *)
Record MailAddress : Type := mkMailAddress {
  Name : string;
  Address : string
}.

Section AddressesToStrings.

(** [addr.String()]: the RFC 5322 form of an address, as the standard
    library writes it. *)
Variable addrString : MailAddress -> string.

(** The loop of [addressesToStrings]: the entry of each address is written
    at its index. *)
Fixpoint fillAddresses (i : nat) (addresses : list MailAddress) (withName : bool)
    (result : list string) : list string :=
  match addresses with
  | [] => result
  | addr :: rest =>
      fillAddresses (S i) rest withName
        (if withName && negb (String.eqb (Name addr) "")
         then <[i := addrString addr]> result
         else <[i := Address addr]> result)  (* keep only the email part *)
  end.

(** [addressesToStrings] converts the addresses to a list of serialized
    RFC 5322 strings. *)
Definition addressesToStrings (addresses : list MailAddress) (withName : bool) : list string :=
  let result := replicate (length addresses) "" in
  fillAddresses 0 addresses withName result.

End AddressesToStrings.

(** The entry of one address. *)
Definition serialized (addrString : MailAddress -> string) (withName : bool)
    (addr : MailAddress) : string :=
  if withName && negb (String.eqb (Name addr) "") then addrString addr else Address addr.

(** A serializer in the manner of the standard library, for the samples. *)
Definition angleBrackets (addr : MailAddress) : string :=
  Name addr +:+ " <" +:+ Address addr +:+ ">".

End mailer.

(** ** Package [hanzobase]: skipping the bootstrap *)

Module hanzobase.

(** [*pflag.Flag], as far as [skipBootstrap] looks at it. *)
Record Flag : Type := mkFlag {
  FlagName : string;
  Shorthand : string
}.

(** [*cobra.Command]: the lookups of its flag set.  [None] is nil. *)
Record Command : Type := mkCommand {
  Lookup : string -> option Flag;
  ShorthandLookup : string -> option Flag
}.

(** The launcher, as far as [skipBootstrap] reads it: whether the embedded
    app is bootstrapped, and what [RootCmd.Find] answers for the
    arguments. *)
Record HanzoBase : Type := mkHanzoBase {
  IsBootstrapped : bool;
  Find : list string -> error + Command
}.

(** [strings.TrimLeft(s, cutset)]: [s] without its leading characters that
    are in [cutset]. *)
Fixpoint inCutset (a : Ascii.ascii) (cutset : string) : bool :=
  match cutset with
  | EmptyString => false
  | String b rest => Ascii.eqb a b || inCutset a rest
  end.

Fixpoint TrimLeft (s cutset : string) : string :=
  match s with
  | EmptyString => EmptyString
  | String a rest => if inCutset a cutset then TrimLeft rest cutset else s
  end.

(** Modelled from the spec: [list.ExistInSlice] is declared outside the
    sources; it tells whether the item is an element of the slice. *)
Definition ExistInSlice (item : string) (items : list string) : bool :=
  existsb (String.eqb item) items.

(** The loop of [skipBootstrap] over [os.Args]. *)
Fixpoint scanArgs (cmd : Command) (flags : list string) (args : list string) : bool :=
  match args with
  | [] => false
  | arg :: rest =>
      if negb (ExistInSlice arg flags) then scanArgs cmd flags rest
      else
        (* ensure that there is no user defined flag with the same name/shorthand *)
        let trimmed := TrimLeft arg "-" in
        if Nat.ltb 1 (String.length trimmed) && isNil (Lookup cmd trimmed) then true
        else if Nat.eqb (String.length trimmed) 1 && isNil (ShorthandLookup cmd trimmed)
        then true
        else scanArgs cmd flags rest
  end.

(** [skipBootstrap] eagerly checks if the app should skip the bootstrap
    process.  [Args] is [os.Args]; slicing an empty [os.Args] from 1
    panics, which is the answer [None]. *)
Definition skipBootstrap (hb : HanzoBase) (Args : list string) : option bool :=
  let flags := ["-h"; "--help"; "-v"; "--version"] in
  if IsBootstrapped hb then Some true (* already bootstrapped *)
  else
    match Args with
    | [] => None
    | _ :: args =>
        match Find hb args with
        | inl _ => Some true (* unknown command *)
        | inr cmd => Some (scanArgs cmd flags Args)
        end
    end.

(** The help and version flags that no flag of the command shadows. *)
Definition unshadowed (cmd : Command) (arg : string) : Prop :=
  (arg = "-h" /\ ShorthandLookup cmd "h" = None) \/
  (arg = "--help" /\ Lookup cmd "help" = None) \/
  (arg = "-v" /\ ShorthandLookup cmd "v" = None) \/
  (arg = "--version" /\ Lookup cmd "version" = None).

(** A command without flags of its own, and one with a [-v] shorthand. *)
Definition plainCommand : Command :=
  {| Lookup := fun _ => None; ShorthandLookup := fun _ => None |}.

Definition verboseCommand : Command :=
  {| Lookup := fun name =>
       if String.eqb name "verbose"
       then Some {| FlagName := "verbose"; Shorthand := "v" |} else None;
     ShorthandLookup := fun name =>
       if String.eqb name "v"
       then Some {| FlagName := "verbose"; Shorthand := "v" |} else None |}.

Definition freshApp (cmd : Command) : HanzoBase :=
  {| IsBootstrapped := false; Find := fun _ => inr cmd |}.

(** *** [Execute]: the root command, the signal and the terminate hook *)

(** Where the goroutine of [Execute] itself stands. *)
Inductive Caller : Type :=
| AtBootstrap                         (* if !hb.skipBootstrap() { hb.Bootstrap() } *)
| AtReceive                           (* <-done *)
| AtTerminate                         (* hb.OnTerminate().Trigger(...) *)
| Returned (result : option error).

(** Where the goroutine that listens for the interrupt signal stands. *)
Inductive Listener : Type :=
| ListenerNotStarted
| AwaitingSignal                      (* <-sigch *)
| ListenerSending                     (* done <- true *)
| ListenerFinished.

(** Where the goroutine that executes the root command stands. *)
Inductive Runner : Type :=
| RunnerNotStarted
| Executing                           (* hb.RootCmd.Execute() *)
| RunnerSending                       (* done <- true *)
| RunnerFinished.

(** A moment in a call of [Execute]: the three goroutines, and the number
    of values that the channel [done] holds in its buffer. *)
Record Execution : Type := mkExecution {
  caller : Caller;
  listener : Listener;
  runner : Runner;
  done : nat
}.

(** [make(chan bool, 1)]. *)
Definition doneCapacity : nat := 1.

(** What [Execute] calls: whether the bootstrap is skipped, what
    [Bootstrap] returns, the handlers bound to [OnTerminate] and what
    [ResetBootstrapState] returns. *)
Record ExecuteEnv : Type := mkExecuteEnv {
  skipBootstrapResult : bool;
  BootstrapResult : option error;
  OnTerminate : list HookHandler;
  ResetBootstrapStateResult : option error
}.

Definition started : Execution :=
  {| caller := AtBootstrap; listener := ListenerNotStarted; runner := RunnerNotStarted;
     done := 0 |}.

(** [hb.OnTerminate().Trigger(event, func(e) error { return
    e.App.ResetBootstrapState() })]: what the trigger returns. *)
Definition terminate (env : ExecuteEnv) : option error :=
  result (Trigger (OnTerminate env) tt
            (fun _ => returnErr (ResetBootstrapStateResult env) (fun err => err))
            (sampleWorld [])).

(** The steps of the three goroutines.  A send on [done] needs room in
    the buffer; a receive needs a value in it.  (A send to a waiting
    receiver is a send into the empty buffer followed by the receive.) *)
Inductive step (env : ExecuteEnv) : Execution -> Execution -> Prop :=
| BootstrapFails (err : error) :
    skipBootstrapResult env = false ->
    BootstrapResult env = Some err ->
    step env started
      {| caller := Returned (Some err); listener := ListenerNotStarted;
         runner := RunnerNotStarted; done := 0 |}
| GoroutinesStart :
    skipBootstrapResult env = true \/ BootstrapResult env = None ->
    step env started
      {| caller := AtReceive; listener := AwaitingSignal; runner := Executing; done := 0 |}
| SignalArrives (x : Execution) :
    listener x = AwaitingSignal ->
    step env x
      {| caller := caller x; listener := ListenerSending; runner := runner x;
         done := done x |}
| ListenerSends (x : Execution) :
    listener x = ListenerSending ->
    done x < doneCapacity ->
    step env x
      {| caller := caller x; listener := ListenerFinished; runner := runner x;
         done := S (done x) |}
| CommandReturns (x : Execution) :
    runner x = Executing ->
    step env x
      {| caller := caller x; listener := listener x; runner := RunnerSending;
         done := done x |}
| RunnerSends (x : Execution) :
    runner x = RunnerSending ->
    done x < doneCapacity ->
    step env x
      {| caller := caller x; listener := listener x; runner := RunnerFinished;
         done := S (done x) |}
| CallerReceives (x : Execution) (buffered : nat) :
    caller x = AtReceive ->
    done x = S buffered ->
    step env x
      {| caller := AtTerminate; listener := listener x; runner := runner x;
         done := buffered |}
| CallerTerminates (x : Execution) :
    caller x = AtTerminate ->
    step env x
      {| caller := Returned (terminate env); listener := listener x; runner := runner x;
         done := done x |}.

(** The moments that a call of [Execute] can get to. *)
Inductive reachable (env : ExecuteEnv) : Execution -> Prop :=
| ReachStart : reachable env started
| ReachStep (x y : Execution) : reachable env x -> step env x y -> reachable env y.

(** The values sent on [done] so far. *)
Definition sent (x : Execution) : nat :=
  (match listener x with ListenerFinished => 1 | _ => 0 end) +
  (match runner x with RunnerFinished => 1 | _ => 0 end).

(** The caller is past its receive. *)
Definition received (x : Execution) : bool :=
  match caller x with
  | AtTerminate => true
  | Returned _ =>
      match listener x with
      | ListenerNotStarted => false
      | _ => true
      end
  | _ => false
  end.

(** A goroutine stands at its send. *)
Definition sending (x : Execution) : Prop :=
  listener x = ListenerSending \/ runner x = RunnerSending.

(** A call whose bootstrap is skipped, with no handler on the terminate
    hook; and the moment at which the root command has returned and sent
    its value while the signal has just arrived. *)
Definition plainExecute : ExecuteEnv :=
  {| skipBootstrapResult := true; BootstrapResult := None; OnTerminate := [];
     ResetBootstrapStateResult := None |}.

Definition bothDone : Execution :=
  {| caller := AtReceive; listener := ListenerSending; runner := RunnerFinished; done := 1 |}.

Definition terminated : Execution :=
  {| caller := Returned None; listener := AwaitingSignal; runner := RunnerFinished;
     done := 0 |}.

End hanzobase.

(** ** The collections store of the admin UI *)

Module stores.

(** A field and a collection as the API returns them.  [fields] may be
    missing ([None]), which [c.fields?.find] lets through. *)
Record FieldJS : Type := mkFieldJS {
  type : string;
  protected : bool
}.

Record CollectionJS : Type := mkCollectionJS {
  id : string;
  name : string;
  fields : option (list FieldJS)
}.

(** The two stores that [refreshProtectedFilesCollectionsCache] touches:
    the list of [collections] and the object
    [protectedFilesCollectionsCache], keyed by collection id. *)
Record Stores : Type := mkStores {
  collections : list CollectionJS;
  protectedFilesCollectionsCache : gmap string bool
}.

(** [!!c.fields?.find((f) => f.type == "file" && f.protected)]. *)
Definition hasProtectedFile (c : CollectionJS) : bool :=
  match fields c with
  | Some fs => existsb (fun f => String.eqb (type f) "file" && protected f) fs
  | None => false
  end.

(** [refreshProtectedFilesCollectionsCache]: both update callbacks return
    the object they were given; the cache is written in place, once for
    each collection of the list, in the order of the list. *)
Definition refreshProtectedFilesCollectionsCache (s : Stores) : Stores :=
  {| collections := collections s;
     protectedFilesCollectionsCache :=
       foldl (fun cache c => <[id c := hasProtectedFile c]> cache)
             (protectedFilesCollectionsCache s) (collections s) |}.

(** The last collection of the list with the given id. *)
Definition lastWithId (k : string) (l : list CollectionJS) : option CollectionJS :=
  last (List.filter (fun c => String.eqb (id c) k) l).

End stores.

(** * Properties *)

(** ** The handlers on sample requests *)

(** What the client sees of the five handlers, on an open collection with
    one public row: 200 for list, view, create and update, 204 for delete,
    with the finalizer called once by each writing handler. *)
Example recordsList_open :
  result (recordsList (sampleEnv openCollection guest) (sampleRequest "")
            (sampleWorld [publicRow])) = None /\
  existsb isSleep
    (effectsOf (recordsList (sampleEnv openCollection guest) (sampleRequest ""))
       (sampleWorld [publicRow])) = false.
Proof. split; reflexivity. Qed.

Example recordView_open :
  result (recordView (sampleEnv openCollection guest) (sampleRequest "r1")
            (sampleWorld [publicRow])) = None.
Proof. reflexivity. Qed.

Example recordCreate_open :
  result (recordCreate sampleFinalizer (sampleEnv openCollection guest) (sampleRequest "")
            (sampleWorld [])) = None /\
  finalizerCalls
    (effectsOf (recordCreate sampleFinalizer (sampleEnv openCollection guest)
                  (sampleRequest ""))
       (sampleWorld [])) = 1 /\
  recId <$> rows (fst (recordCreate sampleFinalizer (sampleEnv openCollection guest)
                         (sampleRequest "") (sampleWorld []))) = ["r9"].
Proof. repeat split; reflexivity. Qed.

Example recordUpdate_open :
  result (recordUpdate sampleFinalizer (sampleEnv openCollection guest) (sampleRequest "r1")
            (sampleWorld [publicRow])) = None.
Proof. reflexivity. Qed.

Example recordDelete_open :
  result (recordDelete sampleFinalizer (sampleEnv openCollection guest) (sampleRequest "r1")
            (sampleWorld [publicRow])) = None /\
  rows (fst (recordDelete sampleFinalizer (sampleEnv openCollection guest)
               (sampleRequest "r1") (sampleWorld [publicRow]))) = [].
Proof. split; reflexivity. Qed.

(** The list and view handlers serve a view collection. *)
Example reads_on_view_collection :
  result (recordsList (sampleEnv (sampleCollection TypeView (Some "") None) guest)
            (sampleRequest "") (sampleWorld [])) = None /\
  seen (recordView (sampleEnv (sampleCollection TypeView (Some "") None) guest)
          (sampleRequest "r1") (sampleWorld [])) = Some (404, "").
Proof. split; reflexivity. Qed.

(** A rule that a row does not satisfy hides the row from a guest, and a
    superuser sees it. *)
Example recordView_private_row :
  seen (recordView (sampleEnv ruledCollection guest) (sampleRequest "r1")
          (sampleWorld [privateRow])) = Some (404, "") /\
  result (recordView (sampleEnv ruledCollection superuser) (sampleRequest "r1")
            (sampleWorld [privateRow])) = None.
Proof. split; reflexivity. Qed.

(** A hook that stops the chain without error: the finalizer runs after
    the trigger, and nothing was deleted. *)
Example recordDelete_stopped_by_hook :
  result (recordDelete sampleFinalizer
            (withHooks (sampleEnv openCollection guest) [HookNext; HookStop None])
            (sampleRequest "r1") (sampleWorld [publicRow])) = None /\
  finalizerCalls
    (effectsOf (recordDelete sampleFinalizer
                  (withHooks (sampleEnv openCollection guest) [HookNext; HookStop None])
                  (sampleRequest "r1"))
       (sampleWorld [publicRow])) = 1 /\
  rows (fst (recordDelete sampleFinalizer
               (withHooks (sampleEnv openCollection guest) [HookNext; HookStop None])
               (sampleRequest "r1") (sampleWorld [publicRow]))) = [publicRow].
Proof. repeat split; reflexivity. Qed.

(** ** What a computation may add to the world *)

Lemma grows_refl P w : grows P w w.
Proof.
  split; [exists []; split; [by rewrite app_nil_r | constructor] | lia].
Qed.

Lemma grows_trans P w1 w2 w3 : grows P w1 w2 -> grows P w2 w3 -> grows P w1 w3.
Proof.
  intros [(a1 & E1 & F1) L1] [(a2 & E2 & F2) L2]. split; [|lia].
  exists (a1 ++ a2). split.
  - by rewrite E2, E1, app_assoc.
  - by apply Forall_app.
Qed.

Lemma emitsOnly_ret {A} P (a : A) : emitsOnly P (ret a).
Proof. intros w. apply grows_refl. Qed.

Lemma emitsOnly_fail {A} P e : emitsOnly P (@fail A e).
Proof. intros w. apply grows_refl. Qed.

Lemma emitsOnly_bind {A B} P (m : M A) (k : A -> M B) :
  emitsOnly P m -> (forall a, emitsOnly P (k a)) -> emitsOnly P (bind m k).
Proof.
  intros Hm Hk w. unfold bind. specialize (Hm w).
  destruct (m w) as [w' [err|a]]; simpl in *; [done|].
  eapply grows_trans; [exact Hm | apply Hk].
Qed.

Lemma emitsOnly_bind_ret {A B} P (a : A) (k : A -> M B) :
  emitsOnly P (k a) -> emitsOnly P (bind (ret a) k).
Proof. intros Hk w. apply Hk. Qed.

Lemma emitsOnly_bind_orReturn {A B} P (r : error + A) f (k : A -> M B) :
  (forall a, r = inr a -> emitsOnly P (k a)) -> emitsOnly P (bind (orReturn r f) k).
Proof.
  intros Hk w. destruct r as [err|a]; simpl.
  - apply grows_refl.
  - by apply Hk.
Qed.

Lemma emitsOnly_try {A} P (m : M A) f : emitsOnly P m -> emitsOnly P (try m f).
Proof.
  intros Hm w. unfold try. specialize (Hm w). by destruct (m w) as [w' [err|a]].
Qed.

Lemma emitsOnly_emit P eff : P eff -> emitsOnly P (emit eff).
Proof.
  intros HP w. split; [|simpl; lia].
  exists [eff]. split; [done | by constructor].
Qed.

Lemma emitsOnly_get P : emitsOnly P get.
Proof. intros w. apply grows_refl. Qed.

Lemma emitsOnly_returnIf P b e : emitsOnly P (returnIf b e).
Proof. destruct b; [apply emitsOnly_fail | apply emitsOnly_ret]. Qed.

Lemma emitsOnly_returnErr P err f : emitsOnly P (returnErr err f).
Proof. destruct err; [apply emitsOnly_fail | apply emitsOnly_ret]. Qed.

Lemma emitsOnly_orReturn {A} P (r : error + A) f : emitsOnly P (orReturn r f).
Proof. destruct r; [apply emitsOnly_fail | apply emitsOnly_ret]. Qed.

Lemma emitsOnly_alloc P r : emitsOnly P (alloc r).
Proof.
  intros w. split; [exists []; split; [by rewrite app_nil_r | constructor]|].
  simpl. rewrite length_app. lia.
Qed.

Lemma emitsOnly_load P p : emitsOnly P (load p).
Proof. intros w. unfold load. destruct (heap w !! p); apply grows_refl. Qed.

Lemma emitsOnly_store P p r : emitsOnly P (store p r).
Proof.
  intros w. split; [exists []; split; [by rewrite app_nil_r | constructor]|].
  simpl. by rewrite length_insert.
Qed.

Lemma emitsOnly_setFinalizerCalled P b : emitsOnly P (setFinalizerCalled b).
Proof.
  intros w. split; [exists []; split; [by rewrite app_nil_r | constructor] | simpl; lia].
Qed.

Lemma emitsOnly_setRows {A} P (f : World -> list RecordObj) (a : A) :
  emitsOnly P (fun w => (setRows w (f w), inr a)).
Proof.
  intros w. split; [exists []; split; [by rewrite app_nil_r | constructor] | simpl; lia].
Qed.

Lemma emitsOnly_Trigger {E} P handlers (event : E) final :
  emitsOnly P (final event) -> emitsOnly P (Trigger handlers event final).
Proof.
  intros Hf. induction handlers as [|[|[err|]] rest IH]; simpl; auto.
  - apply emitsOnly_fail.
  - apply emitsOnly_ret.
Qed.

Lemma emitsOnly_checkRateLimit P rtId rule :
  P (EffRateLimit rtId) -> emitsOnly P (checkRateLimit rtId rule).
Proof.
  intros HP w. unfold checkRateLimit.
  destruct (Nat.ltb _ _); (split; [|simpl; lia]);
    (exists [EffRateLimit rtId]; split; [done|]);
    constructor; auto.
Qed.

(** One step of the routine proofs that a computation only adds calls that
    satisfy [P]. *)
Ltac emits_step :=
  match goal with
  | |- emitsOnly _ (bind (ret _) _) => apply emitsOnly_bind_ret
  | |- emitsOnly _ (bind (orReturn _ _) _) => apply emitsOnly_bind_orReturn; intros
  | |- emitsOnly _ (bind _ _) => apply emitsOnly_bind; [|intros]
  | |- emitsOnly _ (ret _) => apply emitsOnly_ret
  | |- emitsOnly _ (fail _) => apply emitsOnly_fail
  | |- emitsOnly _ (try _ _) => apply emitsOnly_try
  | |- emitsOnly _ (emit _) => apply emitsOnly_emit; try done
  | |- emitsOnly _ get => apply emitsOnly_get
  | |- emitsOnly _ (returnIf _ _) => apply emitsOnly_returnIf
  | |- emitsOnly _ (returnErr _ _) => apply emitsOnly_returnErr
  | |- emitsOnly _ (orReturn _ _) => apply emitsOnly_orReturn
  | |- emitsOnly _ (alloc _) => apply emitsOnly_alloc
  | |- emitsOnly _ (load _) => apply emitsOnly_load
  | |- emitsOnly _ (store _ _) => apply emitsOnly_store
  | |- emitsOnly _ (setFinalizerCalled _) => apply emitsOnly_setFinalizerCalled
  | |- emitsOnly _ (fun w => (setRows w _, inr _)) => apply emitsOnly_setRows
  | |- emitsOnly _ (Trigger _ _ _) => apply emitsOnly_Trigger
  | |- emitsOnly _ (checkRateLimit _ _) => apply emitsOnly_checkRateLimit; try done
  | |- emitsOnly _ (match ?x with _ => _ end) => destruct x
  | |- emitsOnly _ (if ?b then _ else _) =>
      let E := fresh "E" in
      destruct b eqn:E; [try (rewrite andb_false_r in E; discriminate)|]
  | |- emitsOnly _ (let '(_, _) := ?x in _) => destruct x
  end.

Ltac emits := repeat emits_step.

Section Ordinary.
Variable P : Effect -> Prop.
Hypothesis ordinary_P : forall eff, ordinary eff = true -> P eff.

Local Ltac ord := emits; try (apply ordinary_P; reflexivity).

Lemma emitsOnly_checkCollectionRateLimit env c tag :
  emitsOnly P (checkCollectionRateLimit env c tag).
Proof. unfold checkCollectionRateLimit. ord. Qed.

Lemma emitsOnly_respondJSON env status : emitsOnly P (respondJSON env status).
Proof. unfold respondJSON. ord. Qed.

Lemma emitsOnly_respondNoContent env status : emitsOnly P (respondNoContent env status).
Proof. unfold respondNoContent. ord. Qed.

Lemma emitsOnly_FindRecordById c id filters : emitsOnly P (FindRecordById c id filters).
Proof. unfold FindRecordById. ord. Qed.

Lemma emitsOnly_Clone p : emitsOnly P (Clone p).
Proof. unfold Clone. ord. Qed.

Lemma emitsOnly_SetVerified p b : emitsOnly P (SetVerified p b).
Proof. unfold SetVerified. ord. Qed.

Lemma emitsOnly_NewRecord c : emitsOnly P (NewRecord c).
Proof. unfold NewRecord. ord. Qed.

Lemma emitsOnly_Load env f data : emitsOnly P (Load env f data).
Proof. unfold Load. ord. Qed.

Lemma emitsOnly_Submit env f : emitsOnly P (Submit env f).
Proof. unfold Submit. ord. Qed.

Lemma emitsOnly_Delete env p : emitsOnly P (Delete env p).
Proof. unfold Delete. ord. Qed.

Lemma emitsOnly_hasAuthManageAccess env info c q :
  emitsOnly P (hasAuthManageAccess env info c q).
Proof. unfold hasAuthManageAccess. ord. Qed.

Lemma emitsOnly_createRuleCheck env su info e form :
  emitsOnly P (createRuleCheck env su info e form).
Proof.
  unfold createRuleCheck. ord;
    try apply emitsOnly_Clone; try apply emitsOnly_SetVerified;
    try apply emitsOnly_hasAuthManageAccess.
Qed.
End Ordinary.

Ltac emits_any :=
  repeat first
    [ emits_step
    | apply emitsOnly_checkCollectionRateLimit; done
    | apply emitsOnly_respondJSON; done
    | apply emitsOnly_respondNoContent; done
    | apply emitsOnly_FindRecordById; done
    | apply emitsOnly_NewRecord; done
    | apply emitsOnly_Load; done
    | apply emitsOnly_Submit; done
    | apply emitsOnly_Delete; done
    | apply emitsOnly_hasAuthManageAccess; done
    | apply emitsOnly_createRuleCheck; done ].

Lemma emitsOnly_randomizedThrottle env softMax :
  emitsOnly anyEffect (randomizedThrottle env softMax).
Proof. unfold randomizedThrottle. emits_any. Qed.

Lemma emitsOnly_callFinalizer fin p f : emitsOnly anyEffect (callFinalizer fin p f).
Proof. unfold callFinalizer. emits_any. Qed.

Lemma emitsOnly_finalizeInline fin e f : emitsOnly anyEffect (finalizeInline fin e f).
Proof. unfold finalizeInline. emits_any. apply emitsOnly_callFinalizer. Qed.

Lemma emitsOnly_finalizeAfterTrigger fin e f :
  emitsOnly anyEffect (finalizeAfterTrigger fin e f).
Proof. unfold finalizeAfterTrigger. emits_any. apply emitsOnly_callFinalizer. Qed.

Lemma emitsOnly_handler op fin env e : emitsOnly anyEffect (handler op fin env e).
Proof.
  destruct op; simpl;
    [ unfold recordsList | unfold recordView | unfold recordCreate
    | unfold recordUpdate | unfold recordDelete ];
    emits_any;
    first [ apply emitsOnly_randomizedThrottle | apply emitsOnly_finalizeInline
          | apply emitsOnly_finalizeAfterTrigger ].
Qed.

Lemma after_rate_limit {A} env c tag (k : unit -> M A) w :
  emitsOnly anyEffect (k tt) ->
  exists rest,
    trace (fst (bind (checkCollectionRateLimit env c tag) k w)) =
    trace w ++ EffRateLimit (Id c +:+ ":" +:+ tag) :: rest.
Proof.
  intros Hk. unfold bind at 1, checkCollectionRateLimit, bind, emit, returnErr.
  destruct (checkCollectionRateLimitResult env c tag); simpl.
  - by exists [].
  - destruct (Hk (addEffect w (EffRateLimit (Id c +:+ ":" +:+ tag)))) as [(rest & E & _) _].
    exists rest. rewrite E. simpl. by rewrite <- app_assoc.
Qed.

(** ** C10: writes on a view collection are refused at once *)

(** C10. When the collection of the request is a view collection, create,
    update and delete return the 400 error "Unsupported collection type."
    and leave the world as it was: nothing was rate limited, parsed or
    checked before.  The list and view handlers have no such check: on a
    view collection their first step is the rate limiter. *)
Theorem view_collection_refused_for_writes :
  forall (optFinalizer : Finalizer) (env : Env) (e : RequestEvent) (w : World)
         (c : Collection),
    FindCachedCollectionByNameOrId env (pathCollection e) = (Some c, None) ->
    IsView c = true ->
    (forall op, isWrite op = true ->
       handler op optFinalizer env e w =
       (w, inl (BadRequestError "Unsupported collection type." None))) /\
    (forall op, isWrite op = false ->
       exists rest,
         trace (fst (handler op optFinalizer env e w)) =
         trace w ++ EffRateLimit (Id c +:+ ":" +:+ opTag op) :: rest).
Proof.
  intros fin env e w c Hc Hv. split; intros op Hop; destruct op; try discriminate; simpl.
  - unfold recordCreate. rewrite Hc, Hv. reflexivity.
  - unfold recordUpdate. rewrite Hc, Hv. reflexivity.
  - unfold recordDelete. rewrite Hc, Hv. reflexivity.
  - unfold recordsList. rewrite Hc. apply after_rate_limit.
    emits_any. apply emitsOnly_randomizedThrottle.
  - unfold recordView. rewrite Hc. apply after_rate_limit. emits_any.
Qed.

(** ** C1: an absent rule lets only superusers through *)

Lemma FindRecordById_eq c id filters q w :
  applyFilters filters (AndWhere (RecordQuery c) (idEquals (Name c) id)) = inr q ->
  FindRecordById c id filters w =
  match List.filter (matches q) (rows w) with
  | [] => (addEffect w (EffFindRecord q), inl ErrNoRows)
  | r :: _ => (setHeap (addEffect w (EffFindRecord q)) (heap w ++ [r]), inr (length (heap w)))
  end.
Proof.
  intros H. unfold FindRecordById, bind, get. rewrite H. simpl.
  destruct (List.filter (matches q) (rows w)); reflexivity.
Qed.

Lemma FindRecordById_err c id filters err w :
  applyFilters filters (AndWhere (RecordQuery c) (idEquals (Name c) id)) = inl err ->
  FindRecordById c id filters w = (w, inl err).
Proof. intros H. unfold FindRecordById. rewrite H. reflexivity. Qed.

Lemma prolongs {A} (m : M A) w0 w pre :
  emitsOnly anyEffect m ->
  trace w = trace w0 ++ pre ->
  exists rest, trace (fst (m w)) = trace w0 ++ pre ++ rest.
Proof.
  intros Hm E. destruct (Hm w) as [(rest & E' & _) _].
  exists rest. by rewrite E', E, app_assoc.
Qed.

Lemma heap_grows {A} (m : M A) w :
  emitsOnly anyEffect m -> length (heap w) <= length (heap (fst (m w))).
Proof. intros Hm. apply (Hm w). Qed.

(** Unpacks [reachesRuleCheck] for the operation at hand. *)
Ltac reach H :=
  destruct H as (Hc & Hv & Hrl & Hid & Hri); simpl in Hv, Hrl, Hid;
  try (specialize (Hv eq_refl));
  try (specialize (Hid eq_refl); apply String.eqb_neq in Hid).

Ltac emits_handler :=
  emits_any;
  first [ apply emitsOnly_finalizeInline | apply emitsOnly_finalizeAfterTrigger
        | apply emitsOnly_randomizedThrottle ].

Lemma passes_when_open op fin env e w c info :
  reachesRuleCheck env e op c info ->
  isNil (ruleSlot op c) && negb (HasSuperuserAuth info) = false ->
  negb (HasSuperuserAuth info) && nonEmptyRule (ruleSlot op c) = false ->
  passesRuleCheck op env e c info w (handler op fin env e w).
Proof.
  intros Hreach Hgate Hopen.
  destruct op; reach Hreach; simpl in Hgate, Hopen |- *.
  - unfold recordsList, checkCollectionRateLimit.
    rewrite Hc, Hrl, Hri; cbn. rewrite Hgate, Hopen. cbn.
    destruct (checkForSuperuserOnlyRuleFields env info) as [err|]; cbn; [reflexivity|].
    do 2 eexists. eapply (prolongs _ w _ [_; _]); [emits_any|].
    simpl. by rewrite <- app_assoc.
  - unfold recordView, checkCollectionRateLimit.
    rewrite Hc, Hrl, Hri; cbn. rewrite Hid; cbn. rewrite Hgate. cbn.
    unfold bind at 1; unfold try at 1.
    erewrite FindRecordById_eq by (unfold ruleFunc; rewrite Hopen; reflexivity).
    simpl rows. destruct (List.filter _ _) as [|r ?].
    + exists (AndWhere (RecordQuery c) (idEquals (Name c) (pathId e))), [].
      simpl. by rewrite <- app_assoc.
    + eexists. eapply (prolongs _ w _ [_; _]); [emits_any|].
      simpl. by rewrite <- app_assoc.
  - unfold recordCreate, checkCollectionRateLimit.
    rewrite Hc, Hrl, Hri; cbn. rewrite Hv; cbn.
    rewrite (andb_comm (negb _) (isNil _)), Hgate. cbn.
    match goal with
    | |- _ < length (heap (fst (?m ?w1))) =>
        assert (Hg : length (heap w1) <= length (heap (fst (m w1))))
    end.
    { apply heap_grows. emits_handler. }
    simpl in Hg. rewrite length_app in Hg. simpl in Hg. lia.
  - unfold recordUpdate, checkCollectionRateLimit.
    rewrite Hc, Hrl, Hri; cbn. rewrite Hv, Hid; cbn.
    rewrite (andb_comm (negb _) (isNil _)), Hgate. cbn.
    unfold bind at 1; unfold try at 1.
    erewrite FindRecordById_eq by reflexivity.
    simpl rows. destruct (List.filter _ _) as [|r ?].
    + exists (AndWhere (RecordQuery c) (idEquals (Name c) (pathId e))), [].
      simpl. by rewrite <- app_assoc.
    + eexists. eapply (prolongs _ w _ [_; _]); [emits_handler|].
      simpl. by rewrite <- app_assoc.
  - unfold recordDelete, checkCollectionRateLimit.
    rewrite Hc, Hrl, Hri; cbn. rewrite Hv, Hid; cbn.
    rewrite (andb_comm (negb _) (isNil _)), Hgate. cbn.
    unfold bind at 1; unfold try at 1.
    erewrite FindRecordById_eq by (unfold ruleFunc; rewrite Hopen; reflexivity).
    simpl rows. destruct (List.filter _ _) as [|r ?].
    + exists (AndWhere (RecordQuery c) (idEquals (Name c) (pathId e))), [].
      simpl. by rewrite <- app_assoc.
    + eexists. eapply (prolongs _ w _ [_; _]); [emits_handler|].
      simpl. by rewrite <- app_assoc.
Qed.

(** C1 (as amended).  When a request gets as far as the check of the rule
    slot and that slot is nil, a caller without superuser auth (a guest
    included) gets the 403 error of each of the five handlers, and all the
    run did before was to ask the collection's rate limiter: no record was
    queried or changed.  A superuser passes the check. *)
Theorem absent_rule_forbidden_when_reached :
  forall (op : Op) (optFinalizer : Finalizer) (env : Env) (e : RequestEvent) (w : World)
         (c : Collection) (info : RequestInfo),
    reachesRuleCheck env e op c info ->
    ruleSlot op c = None ->
    (HasSuperuserAuth info = false ->
       handler op optFinalizer env e w =
       (addEffect w (EffRateLimit (Id c +:+ ":" +:+ opTag op)),
        inl (ForbiddenError "Only superusers can perform this action." None))) /\
    (HasSuperuserAuth info = true ->
       passesRuleCheck op env e c info w (handler op optFinalizer env e w)).
Proof.
  intros op fin env e w c info Hreach Hrule. split; intros Hsu.
  - destruct op; reach Hreach; simpl in Hrule |- *;
      [ unfold recordsList | unfold recordView | unfold recordCreate
      | unfold recordUpdate | unfold recordDelete ];
      unfold checkCollectionRateLimit;
      rewrite Hc, Hrl, Hri; cbn; try rewrite Hv; try rewrite Hid; cbn;
      rewrite Hrule, Hsu; reflexivity.
  - apply passes_when_open; [done | by rewrite Hsu, andb_false_r | by rewrite Hsu].
Qed.

(** A guest deleting from a collection whose delete rule is nil. *)
Lemma absent_rule_forbidden_witness :
  handler OpDelete sampleFinalizer (sampleEnv lockedCollection guest) (sampleRequest "r1")
    (sampleWorld []) =
  (addEffect (sampleWorld []) (EffRateLimit "c1:delete"),
   inl (ForbiddenError "Only superusers can perform this action." None)).
Proof.
  apply (absent_rule_forbidden_when_reached OpDelete sampleFinalizer
           (sampleEnv lockedCollection guest) (sampleRequest "r1") (sampleWorld [])
           lockedCollection guest).
  - repeat split; try reflexivity; intros _; discriminate.
  - reflexivity.
  - reflexivity.
Defined.

(** The claim as it was stated fails on a view collection, whose create
    rule is nil: a guest's create request is answered 400, not 403. *)
Lemma absent_rule_on_view_collection_not_forbidden :
  ruleSlot OpCreate viewCollection = None /\
  HasSuperuserAuth guest = false /\
  result (handler OpCreate None (sampleEnv viewCollection guest) (sampleRequest "")
            (sampleWorld [])) =
  Some (BadRequestError "Unsupported collection type." None) /\
  result (handler OpCreate None (sampleEnv viewCollection guest) (sampleRequest "")
            (sampleWorld [])) <>
  Some (ForbiddenError "Only superusers can perform this action." None).
Proof. repeat split. discriminate. Qed.

(** Deleting on a view collection. *)
Lemma view_collection_refused_witness :
  handler OpDelete sampleFinalizer (sampleEnv viewCollection guest) (sampleRequest "r1")
    (sampleWorld []) =
  (sampleWorld [], inl (BadRequestError "Unsupported collection type." None)).
Proof.
  apply (proj1 (view_collection_refused_for_writes sampleFinalizer
                  (sampleEnv viewCollection guest) (sampleRequest "r1") (sampleWorld [])
                  viewCollection eq_refl eq_refl) OpDelete eq_refl).
Defined.

(** ** Queries under an empty rule *)

Lemma ruleFunc_empty env su c info q : ruleFunc env su c info (Some "") q = inr q.
Proof. unfold ruleFunc. simpl. by rewrite andb_false_r. Qed.

Ltac unfold_all :=
  unfold checkCollectionRateLimit, respondJSON, respondNoContent, FindRecordById,
    NewRecord, Load, Submit, Delete, hasAuthManageAccess, createRuleCheck, Clone,
    SetVerified, finalizeInline, finalizeAfterTrigger, callFinalizer, randomizedThrottle.

Ltac emits_with tac := repeat first [progress tac | emits_step].

(** Closes the conditions on the queries that a run emitted. *)
Ltac side :=
  repeat match goal with
  | H : applyFilters _ _ = inr _ |- _ =>
      simpl in H; rewrite ?ruleFunc_empty in H; injection H as <-
  | H : (if _ then _ else _) = inr _ |- _ =>
      cbn in H; rewrite andb_false_r in H; injection H as <- <-
  end; try reflexivity.

Lemma empty_rule_emits_ruleFree op fin env e c :
  FindCachedCollectionByNameOrId env (pathCollection e) = (Some c, None) ->
  ruleSlot op c = Some "" ->
  emitsOnly (ruleFree c e) (handler op fin env e).
Proof.
  intros Hc Hrule.
  destruct op; simpl in *;
    [ unfold recordsList | unfold recordView | unfold recordCreate
    | unfold recordUpdate | unfold recordDelete ];
    rewrite Hc; unfold_all;
    emits_with ltac:(unfold_all; cbn [evCollection evRecord nonEmptyRule negb String.eqb];
                     rewrite ?Hrule);
    side.
Qed.

Lemma matches_idQuery c id r :
  matches (AndWhere (RecordQuery c) (idEquals (Name c) id)) r =
  String.eqb (Name (recCollection r)) (Name c) && String.eqb (recId r) id.
Proof. unfold matches. simpl. by rewrite andb_true_r. Qed.

Lemma FindRecordById_finds_unfiltered c w row :
  In row (rows w) ->
  Name (recCollection row) = Name c ->
  exists r,
    recId r = recId row /\ Name (recCollection r) = Name c /\ In r (rows w) /\
    FindRecordById c (recId row) [] w =
    (setHeap (addEffect w (EffFindRecord (AndWhere (RecordQuery c) (idEquals (Name c) (recId row)))))
       (heap w ++ [r]), inr (length (heap w))).
Proof.
  intros Hin Hname.
  rewrite (FindRecordById_eq c (recId row) [] _ w eq_refl).
  destruct (List.filter _ (rows w)) as [|r rest] eqn:Hf.
  - assert (In row (List.filter (matches (AndWhere (RecordQuery c) (idEquals (Name c) (recId row)))) (rows w))) as Hrow.
    { apply filter_In. split; [done|]. rewrite matches_idQuery, Hname.
      by rewrite !String.eqb_refl. }
    rewrite Hf in Hrow. destruct Hrow.
  - assert (In r (List.filter (matches (AndWhere (RecordQuery c) (idEquals (Name c) (recId row)))) (rows w))) as Hr.
    { rewrite Hf. by left. }
    apply filter_In in Hr as [Hr1 Hr2]. rewrite matches_idQuery in Hr2.
    apply andb_true_iff in Hr2 as [Hn Hi].
    apply String.eqb_eq in Hn, Hi. by exists r.
Qed.

(** ** C3: manage access *)

(** C3.  [hasAuthManageAccess] always answers, and it answers true exactly
    when the collection is an auth collection, [ManageRule] is neither nil
    nor empty, the request info and its auth record are not nil, the rule
    expression builds without error and the rule query runs without error
    and finds a row.  In particular it answers false, without any call to
    a collaborator, whenever [ManageRule] is nil or the empty string. *)
Theorem hasAuthManageAccess_true_only_when :
  forall (env : Env) (requestInfo : option RequestInfo) (collection : Collection)
         (query : SelectQuery) (w : World),
    (exists w' granted, hasAuthManageAccess env requestInfo collection query w = (w', inr granted)) /\
    (snd (hasAuthManageAccess env requestInfo collection query w) = inr true <->
     manageGranted env requestInfo collection query) /\
    ((ManageRule collection = None \/ ManageRule collection = Some "") ->
     hasAuthManageAccess env requestInfo collection query w = (w, inr false)).
Proof.
  intros env ri c q w. unfold manageGranted, hasAuthManageAccess.
  destruct (IsAuth c) eqn:Hauth; simpl.
  2:{ split; [by eauto|]. split; [|done]. split; [done|]. intros [? _]. done. }
  destruct (ManageRule c) as [rule|] eqn:Hrule.
  2:{ split; [by eauto|]. split; [|done]. split; [done|].
      intros (_ & ? & ? & ? & ? & ? & ? & _). done. }
  destruct (String.eqb rule "") eqn:Hempty.
  { apply String.eqb_eq in Hempty. subst rule.
    split; [by eauto|]. split; [|done]. split; [done|].
    intros (_ & ? & ? & ? & ? & ? & [= <-] & ? & _). done. }
  apply String.eqb_neq in Hempty.
  assert (Hnot : ¬ (Some rule = None ∨ Some rule = Some "")).
  { intros [?|[= ?]]; done. }
  destruct ri as [info|].
  2:{ split; [by eauto|]. split; [|done]. split; [done|].
      intros (_ & ? & ? & ? & ? & ? & _ & _ & ? & _). done. }
  destruct (Auth info) as [auth|] eqn:Hau.
  2:{ split; [by eauto|]. split; [|done]. split; [done|].
      intros (_ & ? & ? & ? & ? & ? & _ & _ & [= <-] & ? & _). congruence. }
  destruct (BuildExpr env rule _) as [err|[expr res]] eqn:Hb; simpl.
  { split; [by eauto|]. split; [|done]. split; [done|].
      intros (_ & ? & ? & ? & ? & ? & [= <-] & _ & _ & _ & ? & _). congruence. }
  destruct (Row env _) as [[err|] ex] eqn:Hrow; simpl.
  { split; [by eauto|]. split; [|done]. split; [done|].
    intros (_ & ? & ? & ? & ? & ? & [= <-] & _ & _ & _ & Hb' & Hr).
    rewrite Hb in Hb'. injection Hb' as <- <-. congruence. }
  split; [by eauto|]. split; [|done]. split.
  - intros [= ->]. split; [done|]. by exists rule, info, auth, expr, res.
  - intros (_ & ? & ? & ? & ? & ? & [= <-] & _ & _ & _ & Hb' & Hr).
    rewrite Hb in Hb'. injection Hb' as <- <-. congruence.
Qed.

(** An authenticated user on an auth collection with a manage rule. *)
Lemma hasAuthManageAccess_witness :
  manageGranted (sampleEnv authCollection user) (Some user) authCollection
    (SelectOne "" "posts" ∅).
Proof.
  apply (proj1 (proj1 (proj2 (hasAuthManageAccess_true_only_when
           (sampleEnv authCollection user) (Some user) authCollection
           (SelectOne "" "posts" ∅) (sampleWorld []))))).
  reflexivity.
Defined.

(** ** C5: hidden fields *)





(** ** Running the create rule check *)

Lemma load_Some p r w : heap w !! p = Some r -> load p w = (w, inr r).
Proof. intros H. unfold load. by rewrite H. Qed.

Lemma lookup_new {A} (l : list A) x : (l ++ [x]) !! length l = Some x.
Proof. by rewrite list_lookup_middle. Qed.

Lemma insert_new {A} (l : list A) x y : <[length l := y]> (l ++ [x]) = l ++ [y].
Proof.
  rewrite insert_app_r_alt by lia. by rewrite Nat.sub_diag.
Qed.

Lemma bind_run {A B} (m : M A) (k : A -> M B) w w' a :
  m w = (w', inr a) -> bind m k w = k a w'.
Proof. intros H. unfold bind. by rewrite H. Qed.

Lemma bind_run_fail {A B} (m : M A) (k : A -> M B) w w' err :
  m w = (w', inl err) -> bind m k w = (w', inl err).
Proof. intros H. unfold bind. by rewrite H. Qed.

Lemma Clone_run p r w :
  heap w !! p = Some r ->
  Clone p w = (setHeap w (heap w ++ [r]), inr (length (heap w))).
Proof. intros H. unfold Clone. by rewrite (bind_run _ _ _ _ _ (load_Some _ _ _ H)). Qed.

Lemma SetVerified_run p r b w :
  heap w !! p = Some r ->
  SetVerified p b w = (setHeap w (<[p := setVerified r b]> (heap w)), inr tt).
Proof. intros H. unfold SetVerified. by rewrite (bind_run _ _ _ _ _ (load_Some _ _ _ H)). Qed.

(** The preparation of the dummy record in [createRuleCheck]. *)
Lemma createRuleCheck_prepare env info e form w r rule :
  CreateRule (evCollection e) = Some rule ->
  heap w !! evRecord e = Some r ->
  createRuleCheck env false info e form w =
  match DBExport env (dummyOf env r) with
  | inl err =>
      (withDummy env w r,
       inl (BadRequestError "Failed to create record"
              (Some (WrapError "dummy DBExport error" (Some err)))))
  | inr dummyExport =>
      (do _ <-
         (if negb (String.eqb rule "")
          then
            do (expr, resolver) <-
              orReturn (BuildExpr env rule (createRuleResolver env (evCollection e) info))
                (fun err => BadRequestError "Failed to create record"
                   (Some (WrapError "create rule build expression failure" (Some err))));
            do _ <- emit (EffQueryRow CreateRuleQuery
                            (createRuleQuery env (evCollection e) dummyExport expr resolver));
            let '(err, exists_) :=
              Row env (createRuleQuery env (evCollection e) dummyExport expr resolver) in
            returnIf (negb (isNil err) || negb exists_)
              (BadRequestError "Failed to create record"
                 (Some (WrapError "create rule failure" err)))
          else ret tt);
       if negb (HasManageAccess form)
       then
         do granted <- hasAuthManageAccess env (Some info)
                         (dummyCollectionOf env (evCollection e) (dummyRandomPartOf env))
                         (dummyQueryOf env (evCollection e) dummyExport);
         ret (if granted then GrantManagerAccess form else form)
       else ret form) (withDummy env w r)
  end.
Proof.
  intros Hrule Hr. unfold createRuleCheck. rewrite Hrule. cbn [negb].
  rewrite (bind_run _ _ _ _ _ (Clone_run _ _ _ Hr)).
  erewrite bind_run by (apply load_Some; apply lookup_new).
  assert (Hprep :
    forall (k : RecordObj -> M RecordUpsert),
      (do _ <- (if String.eqb (recId r) ""
                then store (length (heap w))
                       (setId r ("__temp_id__" +:+ "__hb_create__" +:+ PseudorandomString env 6))
                else ret tt);
       do _ <- SetVerified (length (heap w)) false;
       do dummy <- load (length (heap w));
       k dummy) (setHeap w (heap w ++ [r])) =
      k (dummyOf env r) (setHeap w (heap w ++ [dummyOf env r]))).
  { intros k. unfold dummyOf, dummyRandomPartOf.
    destruct (String.eqb (recId r) ""); cbn [bind store ret heap setHeap].
    - rewrite insert_new.
      erewrite bind_run by (apply SetVerified_run; apply lookup_new).
      cbn [heap setHeap]. rewrite insert_new.
      erewrite bind_run by (apply load_Some; apply lookup_new).
      reflexivity.
    - erewrite bind_run by (apply SetVerified_run; apply lookup_new).
      cbn [heap setHeap]. rewrite insert_new.
      erewrite bind_run by (apply load_Some; apply lookup_new).
      reflexivity. }
  rewrite Hprep. clear Hprep.
  unfold withDummy, createRuleQuery, dummyQueryOf, createRuleResolver, dummyRandomPartOf.
  destruct (DBExport env (dummyOf env r)) as [err|dummyExport]; reflexivity.
Qed.

Lemma createRuleCheck_failure env info e form w r rule dummyExport :
  CreateRule (evCollection e) = Some rule ->
  rule <> "" ->
  heap w !! evRecord e = Some r ->
  DBExport env (dummyOf env r) = inr dummyExport ->
  CreateRuleFailure env (evCollection e) info rule dummyExport ->
  exists w' raw,
    createRuleCheck env false info e form w =
    (w', inl (BadRequestError "Failed to create record" (Some raw))).
Proof.
  intros Hrule Hne Hr Hexp Hfail.
  rewrite (createRuleCheck_prepare _ _ _ _ _ _ _ Hrule Hr), Hexp.
  apply String.eqb_neq in Hne. rewrite Hne. cbn [negb].
  destruct Hfail as [err Hb | expr res err found Hb Hq | expr res Hb Hq];
    rewrite Hb; [cbn; by eauto| |];
    unfold bind at 1 2 3; cbn [orReturn ret emit]; rewrite Hq; cbn; by eauto.
Qed.

Lemma Trigger_all_next {E} handlers (event : E) final :
  Forall (fun h => h = HookNext) handlers -> Trigger handlers event final = final event.
Proof. induction 1 as [|h rest -> _ IH]; simpl; [done | apply IH]. Qed.

Lemma Load_run env f data r w :
  heap w !! formRecord f = Some r ->
  Load env f data w =
  (setHeap w (<[formRecord f := LoadData env (formAccess f) r data]> (heap w)), inr tt).
Proof. intros H. unfold Load. by rewrite (bind_run _ _ _ _ _ (load_Some _ _ _ H)). Qed.

(** ** C2: an empty rule lets every caller through *)

(** The submitted data is read when the uploaded files are. *)
Lemma recordDataFromRequest_read op fin env e info r :
  RequestInfoResult env = inr info ->
  cooperative op fin env e ->
  exists data, recordDataFromRequest env e r = inr data.
Proof.
  intros Hri (_ & _ & _ & Hup & _). unfold recordDataFromRequest. rewrite Hri.
  destruct (Hup (recCollection r)) as (files & ->).
  destruct (negb (HasSuperuserAuth info)); eauto.
Qed.

(** The fetch by the id alone finds a row of the collection with the id
    whenever there is one. *)
Lemma first_row c id l row :
  In row l -> Name (recCollection row) = Name c -> recId row = id ->
  exists target others,
    List.filter (matches (idQuery c id)) l = target :: others /\
    In target l /\ Name (recCollection target) = Name c /\ recId target = id.
Proof.
  intros Hin Hname Hid.
  destruct (List.filter (matches (idQuery c id)) l) as [|target others] eqn:Hf.
  - assert (In row (List.filter (matches (idQuery c id)) l)) as Hrow.
    { apply filter_In. split; [done|]. unfold idQuery. rewrite matches_idQuery, Hname, Hid.
      by rewrite !String.eqb_refl. }
    rewrite Hf in Hrow. destruct Hrow.
  - exists target, others. split; [done|].
    assert (In target (List.filter (matches (idQuery c id)) l)) as Ht by (rewrite Hf; by left).
    apply filter_In in Ht as [Ht1 Ht2]. unfold idQuery in Ht2. rewrite matches_idQuery in Ht2.
    apply andb_true_iff in Ht2 as [Hn Hi]. apply String.eqb_eq in Hn, Hi. done.
Qed.

Lemma list_carried_out fin env e c info w :
  reachesRuleCheck env e OpList c info ->
  ruleSlot OpList c = Some "" ->
  cooperative OpList fin env e ->
  carriedOut OpList fin env e c info w (newRecord c) (recordsList env e w).
Proof.
  intros Hreach Hrule (Hhooks & Hsf & Hsearch & _ & _ & _ & _ & Henr & _ & Hjson & _).
  reach Hreach. simpl in Hrule, Hhooks.
  assert (recordsList env e w =
          (addEffect
             (addEffect (addEffect w (EffRateLimit (Id c +:+ ":" +:+ "list")))
                (EffSearch (SetAllowHiddenFields (NewRecordFieldResolver c (Some info) true)
                              (HasSuperuserAuth info))
                   (RecordQuery c) (urlQuery e)))
             (EffJSON 200), inr tt)) as ->.
  { unfold recordsList, checkCollectionRateLimit.
    rewrite Hc, Hrl, Hri, Hrule. cbn. rewrite Hsf, andb_false_r. cbn.
    destruct (Hsearch (SetAllowHiddenFields (NewRecordFieldResolver c (Some info) true)
                         (HasSuperuserAuth info)) (RecordQuery c) (rows w)) as (records & ->).
    cbn. rewrite (Trigger_all_next _ _ _ Hhooks). cbn.
    rewrite Henr. cbn. rewrite ?andb_false_r. cbn. by rewrite Hjson. }
  repeat split. simpl. by rewrite <- !app_assoc.
Qed.

Lemma view_carried_out fin env e c info w target others :
  reachesRuleCheck env e OpView c info ->
  ruleSlot OpView c = Some "" ->
  cooperative OpView fin env e ->
  List.filter (matches (idQuery c (pathId e))) (rows w) = target :: others ->
  carriedOut OpView fin env e c info w target (recordView env e w).
Proof.
  intros Hreach Hrule (Hhooks & _ & _ & _ & _ & _ & _ & _ & Henr & Hjson & _) Hf.
  reach Hreach. simpl in Hrule, Hhooks.
  assert (recordView env e w =
          (addEffect
             (setHeap
                (addEffect (addEffect w (EffRateLimit (Id c +:+ ":" +:+ "view")))
                   (EffFindRecord (idQuery c (pathId e))))
                (heap w ++ [target]))
             (EffJSON 200), inr tt)) as ->.
  { unfold recordView, checkCollectionRateLimit.
    rewrite Hc, Hrl, Hri, Hrule. cbn. rewrite Hid. cbn.
    erewrite bind_run.
    2:{ unfold try. erewrite FindRecordById_eq
          by (simpl; rewrite ruleFunc_empty; reflexivity).
        fold (idQuery c (pathId e)). simpl rows. rewrite Hf. reflexivity. }
    rewrite (Trigger_all_next _ _ _ Hhooks). cbn [evRecord].
    erewrite bind_run by (apply load_Some; apply lookup_new).
    rewrite Henr. cbn. by rewrite Hjson. }
  repeat split. simpl. by rewrite <- !app_assoc.
Qed.

(** Runs a fetch whose filters leave the query as it is. *)
Ltac fetch_unruled Hf :=
  unfold try; erewrite FindRecordById_eq by (simpl; rewrite ?ruleFunc_empty; reflexivity);
  match type of Hf with
  | List.filter (matches (idQuery ?c ?id)) _ = _ => fold (idQuery c id)
  end;
  simpl rows; rewrite Hf; reflexivity.

Lemma delete_carried_out fin env e c info w target others :
  reachesRuleCheck env e OpDelete c info ->
  ruleSlot OpDelete c = Some "" ->
  cooperative OpDelete fin env e ->
  List.filter (matches (idQuery c (pathId e))) (rows w) = target :: others ->
  carriedOut OpDelete fin env e c info w target (recordDelete fin env e w).
Proof.
  intros Hreach Hrule (Hhooks & _ & _ & _ & _ & _ & Hdel & _ & _ & _ & Hnc & Hfin) Hf.
  reach Hreach. simpl in Hrule, Hhooks.
  unfold carriedOut, recordDelete, checkCollectionRateLimit.
  rewrite Hc, Hrl, Hri, Hrule. cbn. rewrite Hv, Hid. cbn. rewrite andb_false_r. cbn.
  erewrite bind_run by fetch_unruled Hf.
  cbn [bind setFinalizerCalled].
  rewrite (Trigger_all_next _ _ _ Hhooks). cbn [evRecord].
  unfold Delete, respondNoContent, finalizeInline, finalizeAfterTrigger, callFinalizer,
    finalizerCall.
  destruct fin as [f|].
  all: erewrite (bind_run (bind (try _ _) _))
    by (erewrite (bind_run (try _ _))
          by (unfold try; erewrite bind_run by (apply load_Some; apply lookup_new);
              cbn; rewrite Hdel; cbn; reflexivity);
        cbn; rewrite Hnc; cbn; rewrite ?Hfin; reflexivity).
  all: cbn; repeat split; by rewrite <- ?app_assoc.
Qed.

(** Calls that are only logged. *)
Lemma trace_foldl_addEffect added : forall w,
  trace (foldl addEffect w added) = trace w ++ added /\
  heap (foldl addEffect w added) = heap w /\
  rows (foldl addEffect w added) = rows w /\
  isOptFinalizerCalled (foldl addEffect w added) = isOptFinalizerCalled w.
Proof.
  induction added as [|eff rest IH]; intros w; simpl.
  - by rewrite app_nil_r.
  - destruct (IH (addEffect w eff)) as (-> & -> & -> & ->). simpl.
    by rewrite <- app_assoc.
Qed.

(** [hasAuthManageAccess] always answers, after at most one call. *)
Lemma hasAuthManageAccess_run env requestInfo c q w :
  exists granted added,
    hasAuthManageAccess env requestInfo c q w = (foldl addEffect w added, inr granted) /\
    Forall checkCall added.
Proof.
  unfold hasAuthManageAccess.
  destruct (negb (IsAuth c)); [by exists false, []|].
  destruct (ManageRule c) as [rule|]; [|by exists false, []].
  destruct (String.eqb rule ""); [by exists false, []|].
  destruct requestInfo as [info|]; [|by exists false, []].
  destruct (Auth info); [|by exists false, []].
  destruct (BuildExpr env rule _) as [err|[expr resolver]].
  - exists false, [EffLog "Manage rule build expression error"]. split; [done|].
    by repeat constructor.
  - cbn. destruct (Row env _) as [err found].
    eexists _, [EffQueryRow ManageRuleQuery _]. split; [reflexivity|].
    by repeat constructor.
Qed.

Lemma bind_assoc {A B C} (m : M A) (k : A -> M B) (k' : B -> M C) w :
  bind (bind m k) k' w = bind m (fun a => bind (k a) k') w.
Proof. unfold bind. by destruct (m w) as [w' [err|a]]. Qed.

Lemma try_run {A} (m : M A) f w w' a : m w = (w', inr a) -> try m f w = (w', inr a).
Proof. intros H. unfold try. by rewrite H. Qed.

Lemma Submit_run env f r saved w :
  heap w !! formRecord f = Some r ->
  Save env (formAccess f) r = inr saved ->
  Submit env f w =
  (setRows (setHeap (addEffect w (EffSave (formAccess f) r))
              (<[formRecord f := saved]> (heap w)))
     (List.filter (fun x => negb (sameRow x saved)) (rows w) ++ [saved]), inr tt).
Proof.
  intros Hr Hs. unfold Submit.
  rewrite (bind_run _ _ _ _ _ (load_Some _ _ _ Hr)). cbn. rewrite Hs. reflexivity.
Qed.

(** The end of the closures of create and update: the form is submitted,
    the record enriched, the response written and the finalizer called. *)
Lemma save_and_respond env fin form ev f1 f2 f3 f4 r saved w :
  evRecord ev = formRecord form ->
  heap w !! formRecord form = Some r ->
  Save env (formAccess form) r = inr saved ->
  (forall r, EnrichRecord env r = None) ->
  (forall status, JSONResult env status = None) ->
  match fin with Some f => forall p, f p = None | None => True end ->
  exists w',
    (do _ <- (do _ <- try (Submit env form) f1;
              do r0 <- load (evRecord ev);
              do _ <- returnErr (EnrichRecord env r0) f2;
              do _ <- respondJSON env 200;
              finalizeInline fin ev f3);
     finalizeAfterTrigger fin ev f4) w = (w', inr tt) /\
    trace w' = trace w ++ [EffSave (formAccess form) r; EffJSON 200] ++
               finalizerCall fin (evRecord ev) /\
    rows w' = List.filter (fun x => negb (sameRow x saved)) (rows w) ++ [saved].
Proof.
  intros Hev Hr Hs Henr Hjson Hfin.
  rewrite !bind_assoc.
  rewrite (bind_run _ _ _ _ _ (try_run _ _ _ _ _ (Submit_run _ _ _ _ _ Hr Hs))).
  rewrite bind_assoc.
  erewrite bind_run
    by (apply load_Some; rewrite Hev; cbn [heap setHeap setRows];
        apply list_lookup_insert_eq; by apply lookup_lt_Some in Hr).
  rewrite bind_assoc. rewrite Henr. cbn [bind returnErr ret].
  unfold respondJSON. rewrite !bind_assoc. cbn [bind emit]. rewrite Hjson.
  cbn [bind returnErr ret].
  unfold finalizeInline, finalizeAfterTrigger, callFinalizer, finalizerCall.
  destruct fin as [f|]; cbn; rewrite ?Hfin; cbn; eexists; (split; [reflexivity|]);
    cbn; split; by rewrite <- ?app_assoc.
Qed.

Lemma update_carried_out fin env e c info w target others :
  reachesRuleCheck env e OpUpdate c info ->
  ruleSlot OpUpdate c = Some "" ->
  cooperative OpUpdate fin env e ->
  List.filter (matches (idQuery c (pathId e))) (rows w) = target :: others ->
  carriedOut OpUpdate fin env e c info w target (recordUpdate fin env e w).
Proof.
  intros Hreach Hrule Hcoop Hf.
  destruct (recordDataFromRequest_read _ _ _ _ _ target
              (proj2 (proj2 (proj2 (proj2 Hreach)))) Hcoop) as (data & Hdata).
  destruct Hcoop as (Hhooks & _ & _ & _ & _ & Hsave & _ & _ & Henr & Hjson & _ & Hfin).
  reach Hreach. simpl in Hrule, Hhooks.
  assert (Hrun : exists submitAccess saved checks w',
    recordUpdate fin env e w = (w', inr tt) /\
    Save env submitAccess
      (LoadData env (if HasSuperuserAuth info then AccessSuperuser else AccessDefault)
         target data) = inr saved /\
    Forall checkCall checks /\
    trace w' =
      trace w ++ [EffRateLimit (Id c +:+ ":" +:+ "update"); EffFindRecord (idQuery c (pathId e));
                  EffFindRecord (idQuery c (pathId e))] ++ checks ++
      [EffSave submitAccess
         (LoadData env (if HasSuperuserAuth info then AccessSuperuser else AccessDefault)
            target data);
       EffJSON 200] ++ finalizerCall fin (S (length (heap w))) /\
    rows w' = List.filter (fun x => negb (sameRow x saved)) (rows w) ++ [saved]).
  { unfold recordUpdate, checkCollectionRateLimit.
    rewrite Hc, Hrl, Hri, Hrule. cbn. rewrite Hv, Hid. cbn. rewrite andb_false_r. cbn.
    erewrite bind_run by fetch_unruled Hf.
    erewrite bind_run by (apply load_Some; apply lookup_new).
    rewrite Hdata. cbn [bind orReturn ret].
    erewrite bind_run by fetch_unruled Hf.
    cbn [heap setHeap addEffect].
    destruct (HasSuperuserAuth info) eqn:Hsu.
    all: erewrite bind_run by (apply Load_run; apply lookup_new).
    all: cbn [bind setFinalizerCalled].
    all: rewrite (Trigger_all_next _ _ _ Hhooks).
    all: cbn [evCollection evRecord formRecord formAccess NewRecordUpsert GrantSuperuserAccess
              heap setHeap addEffect].
    all: rewrite insert_new.
    all: rewrite (bind_assoc (load _)).
    all: erewrite bind_run by (apply load_Some; apply lookup_new).
    all: cbn [HasManageAccess SetRecord formAccess GrantSuperuserAccess NewRecordUpsert negb].
    - rewrite (bind_assoc (ret _)). cbn [bind ret].
      destruct (Hsave AccessSuperuser (LoadData env AccessSuperuser target data))
        as (saved & Hs).
      match goal with
      | |- context [bind (bind (try (Submit env ?form) ?f1) _)
                         (fun _ => finalizeAfterTrigger fin ?ev ?f4) ?w0] =>
          destruct (save_and_respond env fin form ev f1
                      (fun err => firstApiError
                         [Some err;
                          Some (InternalServerError "Failed to enrich record" (Some err))])
                      (fun err => firstApiError
                         [Some err;
                          Some (InternalServerError ""
                                  (Some (WrapError "update optFinalizer error" (Some err))))])
                      f4 (LoadData env AccessSuperuser target data) saved w0
                      eq_refl (lookup_new _ _) Hs Henr Hjson Hfin)
            as (w' & Hrun & Htrace & Hrows)
      end.
      exists AccessSuperuser, saved, [], w'. split; [exact Hrun|].
      split; [exact Hs|]. split; [constructor|]. split.
      + rewrite Htrace. cbn. rewrite length_app, Nat.add_1_r.
        by rewrite <- !app_assoc.
      + rewrite Hrows. reflexivity.
    - rewrite !bind_assoc.
      match goal with
      | |- context [bind (hasAuthManageAccess env ?ri ?cc ?q) _ ?w0] =>
          destruct (hasAuthManageAccess_run env ri cc q w0)
            as (granted & checks & Hmanage & Hchecks);
          destruct (trace_foldl_addEffect checks w0) as (Htr & Hheap & Hrows0 & _)
      end.
      rewrite (bind_run _ _ _ _ _ Hmanage). cbn [bind ret].
      destruct (Hsave (if granted then AccessManager else AccessDefault)
                  (LoadData env AccessDefault target data)) as (saved & Hs).
      match goal with
      | |- context [bind (bind (try (Submit env ?form) ?f1) _)
                         (fun _ => finalizeAfterTrigger fin ?ev ?f4) ?w0] =>
          destruct (save_and_respond env fin form ev f1
                      (fun err => firstApiError
                         [Some err;
                          Some (InternalServerError "Failed to enrich record" (Some err))])
                      (fun err => firstApiError
                         [Some err;
                          Some (InternalServerError ""
                                  (Some (WrapError "update optFinalizer error" (Some err))))])
                      f4 (LoadData env AccessDefault target data) saved w0)
            as (w' & Hrun & Htrace & Hrows);
          [ by destruct granted
          | rewrite Hheap; destruct granted; apply lookup_new
          | by destruct granted
          | done | done | done | ]
      end.
      exists (if granted then AccessManager else AccessDefault), saved, checks, w'.
      split; [exact Hrun|]. split; [exact Hs|]. split; [exact Hchecks|]. split.
      + rewrite Htrace, Htr. cbn. rewrite length_app, Nat.add_1_r.
        destruct granted; by rewrite <- !app_assoc.
      + rewrite Hrows, Hrows0. reflexivity. }
  destruct Hrun as (submitAccess & saved & checks & w' & -> & Hs & Hchecks & Htrace & Hrows).
  split; [reflexivity|]. exists data, submitAccess, saved, checks. by repeat split.
Qed.

Lemma create_carried_out fin env e c info w :
  reachesRuleCheck env e OpCreate c info ->
  ruleSlot OpCreate c = Some "" ->
  cooperative OpCreate fin env e ->
  carriedOut OpCreate fin env e c info w (newRecord c) (recordCreate fin env e w).
Proof.
  intros Hreach Hrule Hcoop.
  destruct (recordDataFromRequest_read _ _ _ _ _ (newRecord c)
              (proj2 (proj2 (proj2 (proj2 Hreach)))) Hcoop) as (data & Hdata).
  destruct Hcoop as (Hhooks & _ & _ & _ & Hexp & Hsave & _ & _ & Henr & Hjson & _ & Hfin).
  reach Hreach. simpl in Hrule, Hhooks.
  assert (Hrun : exists submitAccess saved checks w',
    recordCreate fin env e w = (w', inr tt) /\
    Save env submitAccess (createLoaded env c info data) = inr saved /\
    Forall checkCall checks /\
    trace w' =
      trace w ++ [EffRateLimit (Id c +:+ ":" +:+ "create")] ++ checks ++
      [EffSave submitAccess (createLoaded env c info data); EffJSON 200] ++
      finalizerCall fin (length (heap w)) /\
    rows w' = List.filter (fun x => negb (sameRow x saved)) (rows w) ++ [saved]).
  { unfold recordCreate, checkCollectionRateLimit.
    rewrite Hc, Hrl, Hri; cbn. rewrite Hv; cbn. rewrite Hrule, andb_false_r. cbn.
    erewrite bind_run by (apply load_Some; apply lookup_new).
    fold (newRecord c). rewrite Hdata. cbn [bind orReturn ret].
    fold (createData env info data).
    set (skip := String.eqb (Context info) RequestInfoContextOAuth2 &&
                 isNil (data !! FieldNamePassword)).
    assert (Hloaded :
      forall (k : unit -> M unit) w0 r0,
        heap w0 = heap w ++ [r0] ->
        bind (if skip
              then do r <- load (length (heap w));
                   store (length (heap w)) (unsetPlainPassword r)
              else ret tt) k w0 =
        k tt (setHeap w0 (heap w ++ [if skip then unsetPlainPassword r0 else r0]))).
    { intros k w0 r0 Hw0. destruct skip.
      - cbn [bind]. erewrite bind_run.
        2:{ erewrite bind_run by (apply load_Some; rewrite Hw0; apply lookup_new).
            reflexivity. }
        cbn [heap setHeap]. by rewrite Hw0, insert_new.
      - cbn. rewrite <- Hw0. by destruct w0. }
    assert (Hobj : (if skip
                    then unsetPlainPassword
                           (LoadData env
                              (if HasSuperuserAuth info then AccessSuperuser else AccessDefault)
                              (newRecord c) (createData env info data))
                    else LoadData env
                           (if HasSuperuserAuth info then AccessSuperuser else AccessDefault)
                           (newRecord c) (createData env info data)) =
                   createLoaded env c info data) by reflexivity.
    destruct (HasSuperuserAuth info) eqn:Hsu.
    all: erewrite bind_run by (apply Load_run; apply lookup_new).
    all: cbn [heap setHeap formRecord formAccess NewRecordUpsert GrantSuperuserAccess].
    all: rewrite insert_new.
    all: erewrite Hloaded by reflexivity.
    all: rewrite Hobj; clear Hloaded Hobj.
    all: cbn [bind setFinalizerCalled].
    all: rewrite (Trigger_all_next _ _ _ Hhooks).
    all: cbn [evCollection evRecord SetRecord formRecord formAccess NewRecordUpsert
              GrantSuperuserAccess].
    all: rewrite (bind_assoc (createRuleCheck _ _ _ _ _)).
    - unfold createRuleCheck. cbn [evCollection]. rewrite Hrule. cbn [negb bind ret].
      destruct (Hsave AccessSuperuser (createLoaded env c info data)) as (saved & Hs).
      match goal with
      | |- context [bind (bind (try (Submit env ?form) ?f1) _)
                         (fun _ => finalizeAfterTrigger fin ?ev ?f4) ?w0] =>
          destruct (save_and_respond env fin form ev f1
                      (fun err => firstApiError
                         [Some err;
                          Some (InternalServerError "Failed to enrich record" (Some err))])
                      f4 f4 (createLoaded env c info data) saved w0
                      eq_refl (lookup_new _ _) Hs Henr Hjson Hfin)
            as (w' & Hrun & Htrace & Hrows)
      end.
      exists AccessSuperuser, saved, [], w'. split; [exact Hrun|].
      split; [exact Hs|]. split; [constructor|]. split.
      + rewrite Htrace. cbn. by rewrite <- !app_assoc.
      + rewrite Hrows. reflexivity.
    - destruct (Hexp (dummyOf env (createLoaded env c info data))) as (dummyExport & Hd).
      match goal with
      | |- context [bind (createRuleCheck env false ?i ?ev ?form) _ ?w0] =>
          destruct (hasAuthManageAccess_run env (Some i)
                      (dummyCollectionOf env c (dummyRandomPartOf env))
                      (dummyQueryOf env c dummyExport)
                      (withDummy env w0 (createLoaded env c info data)))
            as (granted & checks & Hmanage & Hchecks);
          destruct (trace_foldl_addEffect checks
                      (withDummy env w0 (createLoaded env c info data)))
            as (Htr & Hheap & Hrows0 & _);
          assert (Hcheck :
            createRuleCheck env false i ev form w0 =
            (foldl addEffect (withDummy env w0 (createLoaded env c info data)) checks,
             inr (if granted then GrantManagerAccess form else form)))
      end.
      { erewrite createRuleCheck_prepare by (first [exact Hrule | apply lookup_new]).
        rewrite Hd. cbn [String.eqb negb bind ret HasManageAccess formAccess SetRecord
                         NewRecordUpsert evCollection].
        by rewrite (bind_run _ _ _ _ _ Hmanage). }
      rewrite (bind_run _ _ _ _ _ Hcheck).
      destruct (Hsave (if granted then AccessManager else AccessDefault)
                  (createLoaded env c info data)) as (saved & Hs).
      match goal with
      | |- context [bind (bind (try (Submit env ?form) ?f1) _)
                         (fun _ => finalizeAfterTrigger fin ?ev ?f4) ?w0] =>
          destruct (save_and_respond env fin form ev f1
                      (fun err => firstApiError
                         [Some err;
                          Some (InternalServerError "Failed to enrich record" (Some err))])
                      f4 f4 (createLoaded env c info data) saved w0)
            as (w' & Hrun & Htrace & Hrows);
          [ by destruct granted
          | rewrite Hheap; destruct granted; cbn;
            (rewrite lookup_app_l by (rewrite length_app; simpl; lia)); apply lookup_new
          | by destruct granted
          | done | done | done | ]
      end.
      exists (if granted then AccessManager else AccessDefault), saved,
        (EffDBExport (dummyOf env (createLoaded env c info data)) :: checks), w'.
      split; [exact Hrun|]. split; [exact Hs|].
      split; [by constructor|]. split.
      + rewrite Htrace, Htr. cbn.
        destruct granted; by rewrite <- !app_assoc.
      + rewrite Hrows, Hrows0. reflexivity. }
  destruct Hrun as (submitAccess & saved & checks & w' & -> & Hs & Hchecks & Htrace & Hrows).
  split; [reflexivity|]. exists data, submitAccess, saved, checks. by repeat split.
Qed.

(** C2.  When the rule slot of the operation is the empty string, every
    caller, guest or superuser, can perform the operation on every row.
    - Every query a run of the handler makes is free of a rule predicate:
      the search runs the collection's plain query, records are fetched
      by id alone, no create rule query is run.
    - A request that gets as far as the rule check passes it.
    - The rule function leaves the query as it is, and the fetch with
      that rule function finds every persisted row of the collection.
    - The operation is carried out.  Take a request that gets as far as
      the rule check, and collaborators that do not fail for a reason of
      their own (no hook stops the chain, the data is read, the form
      accepts the record, the response is written, ...).  Then the
      handler returns nil; [recordsList] has searched the plain query and
      responded; [recordCreate] has saved the new record and responded;
      and for every persisted row of the collection, a request with the
      id of that row makes [recordView] respond, [recordUpdate] save and
      respond, and [recordDelete] delete and respond, after the fetch by
      the id alone found a row of the collection with that id. *)
Theorem empty_rule_is_unfiltered :
  forall (op : Op) (optFinalizer : Finalizer) (env : Env) (e : RequestEvent)
         (c : Collection),
    FindCachedCollectionByNameOrId env (pathCollection e) = (Some c, None) ->
    ruleSlot op c = Some "" ->
    emitsOnly (ruleFree c e) (handler op optFinalizer env e) /\
    (forall info w,
       reachesRuleCheck env e op c info ->
       passesRuleCheck op env e c info w (handler op optFinalizer env e w)) /\
    (forall hasSuperuserAuth info q,
       ruleFunc env hasSuperuserAuth c info (ruleSlot op c) q = inr q) /\
    (forall hasSuperuserAuth info w row,
       In row (rows w) ->
       Name (recCollection row) = Name c ->
       exists r,
         recId r = recId row /\ Name (recCollection r) = Name c /\ In r (rows w) /\
         FindRecordById c (recId row)
           [ruleFunc env hasSuperuserAuth c info (ruleSlot op c)] w =
         (setHeap
            (addEffect w
               (EffFindRecord (AndWhere (RecordQuery c) (idEquals (Name c) (recId row)))))
            (heap w ++ [r]),
          inr (length (heap w)))) /\
    (forall info w,
       reachesRuleCheck env e op c info ->
       cooperative op optFinalizer env e ->
       operationOpen op optFinalizer env e c info w).
Proof.
  intros op fin env e c Hc Hrule. split; [|split; [|split; [|split]]].
  - by apply empty_rule_emits_ruleFree.
  - intros info w Hreach.
    apply passes_when_open; [done | by rewrite Hrule | by rewrite Hrule, andb_false_r].
  - intros su info q. rewrite Hrule. apply ruleFunc_empty.
  - intros su info w row Hin Hname.
    destruct (FindRecordById_finds_unfiltered c w row Hin Hname) as (r & H1 & H2 & H3 & H4).
    exists r. repeat split; try done.
    rewrite Hrule, <- H4. unfold FindRecordById. simpl applyFilters.
    by rewrite ruleFunc_empty.
  - intros info w Hreach Hcoop.
    destruct op; simpl;
      [ by apply list_carried_out | | by apply create_carried_out | | ];
      intros row Hin Hname Hid;
      destruct (first_row c (pathId e) (rows w) row Hin Hname Hid)
        as (target & others & Hf & Ht & Hn & Hi);
      exists target; (split; [done | split; [done | split; [congruence|]]]).
    + by apply (view_carried_out fin env e c info w target others).
    + by apply (update_carried_out fin env e c info w target others).
    + by apply (delete_carried_out fin env e c info w target others).
Qed.

(** A guest deleting a row of a collection whose rules are empty. *)
Lemma empty_rule_witness :
  operationOpen OpDelete sampleFinalizer (sampleEnv openCollection guest)
    (sampleRequest "r1") openCollection guest (sampleWorld [publicRow]).
Proof.
  apply (empty_rule_is_unfiltered OpDelete sampleFinalizer (sampleEnv openCollection guest)
           (sampleRequest "r1") openCollection eq_refl eq_refl).
  - repeat split; try reflexivity; intros _; discriminate.
  - repeat split; try reflexivity; try (by constructor); intros; by eexists.
Defined.

(** ** C6: a failed create rule is reported as a generic failure *)

(** C6.  Take a create request of a caller without superuser auth that
    gets as far as the check of a non-empty create rule (the hooks let it
    through and the dummy record is exported).  If the check fails, be it
    that the rule expression does not build, that the rule query returns
    an error, or that it finds no row, the handler returns an error that
    the client sees as status 400 with the message "Failed to create
    record": the three failures look the same. *)
Theorem create_rule_failure_is_generic :
  forall (optFinalizer : Finalizer) (env : Env) (e : RequestEvent) (w : World)
         (c : Collection) (info : RequestInfo) (rule : string)
         (data dummyExport : gmap string Value),
    reachesRuleCheck env e OpCreate c info ->
    HasSuperuserAuth info = false ->
    CreateRule c = Some rule ->
    rule <> "" ->
    recordDataFromRequest env e (newRecord c) = inr data ->
    Forall (fun h => h = HookNext) (OnRecordCreateRequest env) ->
    DBExport env (dummyOf env (createLoaded env c info data)) = inr dummyExport ->
    CreateRuleFailure env c (withBody info (createData env info data)) rule dummyExport ->
    exists err,
      result (recordCreate optFinalizer env e w) = Some err /\
      visible err = Some (400, "Failed to create record").
Proof.
  intros fin env e w c info rule data dummyExport Hreach Hsu Hrule Hne Hdata Hhooks Hexp Hfail.
  reach Hreach. unfold recordCreate, checkCollectionRateLimit.
  rewrite Hc, Hrl, Hri; cbn. rewrite Hv; cbn. rewrite Hsu, Hrule. cbn.
  erewrite bind_run by (apply load_Some; apply lookup_new).
  fold (newRecord c). rewrite Hdata. cbn [bind orReturn ret].
  erewrite bind_run by (apply Load_run; apply lookup_new).
  cbn [heap setHeap formRecord formAccess NewRecordUpsert]. rewrite insert_new.
  fold (createData env info data).
  set (skip := String.eqb (Context info) RequestInfoContextOAuth2 &&
               isNil (data !! FieldNamePassword)).
  assert (Hloaded :
    forall (k : unit -> M unit) w0 r0,
      heap w0 = heap w ++ [r0] ->
      bind (if skip
            then do r <- load (length (heap w));
                 store (length (heap w)) (unsetPlainPassword r)
            else ret tt) k w0 =
      k tt (setHeap w0 (heap w ++ [if skip then unsetPlainPassword r0 else r0]))).
  { intros k w0 r0 Hw0. destruct skip.
    - cbn [bind]. erewrite bind_run.
      2:{ erewrite bind_run by (apply load_Some; rewrite Hw0; apply lookup_new).
          reflexivity. }
      cbn [heap setHeap]. by rewrite Hw0, insert_new.
    - cbn. rewrite <- Hw0. by destruct w0. }
  erewrite Hloaded by reflexivity. clear Hloaded.
  cbn [bind setFinalizerCalled].
  rewrite (Trigger_all_next _ _ _ Hhooks). cbn [evCollection evRecord].
  match goal with
  | |- context [createRuleCheck env false ?i ?ev ?f] =>
      destruct (createRuleCheck_failure env i ev f
                  (setFlag
                     (setHeap (addEffect w (EffRateLimit (Id c +:+ ":" +:+ "create")))
                        (heap w ++ [createLoaded env c info data])) false)
                  (createLoaded env c info data) rule dummyExport)
        as (w' & raw & Hcheck); try done
  end.
  { apply lookup_new. }
  assert (Hobj : (if skip
                  then unsetPlainPassword
                         (LoadData env AccessDefault (newRecord c) (createData env info data))
                  else LoadData env AccessDefault (newRecord c) (createData env info data)) =
                 createLoaded env c info data).
  { unfold createLoaded. rewrite Hsu. reflexivity. }
  rewrite Hobj. cbn [setHeap setFlag heap rows limiters trace isOptFinalizerCalled addEffect].
  cbn [setHeap setFlag heap rows limiters trace isOptFinalizerCalled addEffect] in Hcheck.
  erewrite bind_run_fail.
  2:{ erewrite bind_run_fail by exact Hcheck. reflexivity. }
  exists (BadRequestError "Failed to create record" (Some raw)). by split.
Qed.

(** A guest creating a record against a rule that evaluates to false. *)
Lemma create_rule_failure_witness :
  exists err,
    result (recordCreate None
              (withRow (sampleEnv ruledCollection guest) (fun _ => (None, false)))
              (sampleRequest "") (sampleWorld [])) = Some err /\
    visible err = Some (400, "Failed to create record").
Proof.
  eapply (create_rule_failure_is_generic None
            (withRow (sampleEnv ruledCollection guest) (fun _ => (None, false)))
            (sampleRequest "") (sampleWorld []) ruledCollection guest "public = true").
  - repeat split; try reflexivity; intros; discriminate.
  - reflexivity.
  - reflexivity.
  - discriminate.
  - reflexivity.
  - constructor.
  - reflexivity.
  - eapply RuleIsFalse; reflexivity.
Defined.

(** ** C4: the create and manage rules see an unverified clone *)

Lemma keepsRecords_ret {A} (a : A) : keepsRecords (ret a).
Proof. by intros w. Qed.

Lemma keepsRecords_fail {A} e : keepsRecords (@fail A e).
Proof. by intros w. Qed.

Lemma keepsRecords_emit eff : keepsRecords (emit eff).
Proof. by intros w. Qed.

Lemma keepsRecords_bind {A B} (m : M A) (k : A -> M B) :
  keepsRecords m -> (forall a, keepsRecords (k a)) -> keepsRecords (bind m k).
Proof.
  intros Hm Hk w. unfold bind. specialize (Hm w).
  destruct (m w) as [w' [err|a]]; simpl in *; [done|].
  destruct (Hk a w') as [H1 H2]. destruct Hm as [H3 H4]. split; congruence.
Qed.

Lemma keepsRecords_returnIf b e : keepsRecords (returnIf b e).
Proof. by destruct b. Qed.

Lemma keepsRecords_orReturn {A} (r : error + A) f : keepsRecords (orReturn r f).
Proof. by destruct r. Qed.

Ltac keeps_step :=
  match goal with
  | |- keepsRecords (bind _ _) => apply keepsRecords_bind; [|intros]
  | |- keepsRecords (ret _) => apply keepsRecords_ret
  | |- keepsRecords (fail _) => apply keepsRecords_fail
  | |- keepsRecords (emit _) => apply keepsRecords_emit
  | |- keepsRecords (returnIf _ _) => apply keepsRecords_returnIf
  | |- keepsRecords (orReturn _ _) => apply keepsRecords_orReturn
  | |- keepsRecords (match ?x with _ => _ end) => destruct x
  | |- keepsRecords (if ?b then _ else _) => destruct b
  | |- keepsRecords (let '(_, _) := ?x in _) => destruct x
  end.

Lemma keepsRecords_hasAuthManageAccess env info c q :
  keepsRecords (hasAuthManageAccess env info c q).
Proof. unfold hasAuthManageAccess. repeat keeps_step. Qed.

Lemma emitsOnly_hasAuthManageAccess_dummy env c r info dummyExport :
  DBExport env (dummyOf env r) = inr dummyExport ->
  emitsOnly (aboutDummy env c r)
    (hasAuthManageAccess env info (dummyCollectionOf env c (dummyRandomPartOf env))
       (dummyQueryOf env c dummyExport)).
Proof.
  intros Hexp. unfold hasAuthManageAccess. emits. simpl. eauto.
Qed.

Lemma checkRules_keeps env info c form rule dummyExport :
  keepsRecords (checkRules env info c form rule dummyExport).
Proof.
  unfold checkRules. repeat keeps_step; apply keepsRecords_hasAuthManageAccess.
Qed.

Lemma checkRules_emits env info c r form rule dummyExport :
  DBExport env (dummyOf env r) = inr dummyExport ->
  emitsOnly (aboutDummy env c r) (checkRules env info c form rule dummyExport).
Proof.
  intros Hexp. unfold checkRules. emits.
  - simpl. eauto.
  - by apply emitsOnly_hasAuthManageAccess_dummy.
Qed.

Lemma checkRules_form env info c form rule dummyExport w form' :
  snd (checkRules env info c form rule dummyExport w) = inr form' ->
  formRecord form' = formRecord form.
Proof.
  unfold checkRules, bind.
  destruct (_ w) as [w1 [err|[]]]; simpl; [done|].
  destruct (negb (HasManageAccess form)); simpl; [|by intros [= <-]].
  destruct (hasAuthManageAccess _ _ _ _ w1) as [w2 [err|[|]]]; simpl; try done;
    by intros [= <-].
Qed.

Lemma createRuleCheck_split env info e form w r rule :
  CreateRule (evCollection e) = Some rule ->
  heap w !! evRecord e = Some r ->
  createRuleCheck env false info e form w =
  match DBExport env (dummyOf env r) with
  | inl err =>
      (withDummy env w r,
       inl (BadRequestError "Failed to create record"
              (Some (WrapError "dummy DBExport error" (Some err)))))
  | inr dummyExport =>
      checkRules env info (evCollection e) form rule dummyExport (withDummy env w r)
  end.
Proof. intros Hrule Hr. by rewrite (createRuleCheck_prepare _ _ _ _ _ _ _ Hrule Hr). Qed.

Lemma effectsOf_app {A} (m : M A) w added :
  trace (fst (m w)) = trace w ++ added -> effectsOf m w = added.
Proof. intros H. unfold effectsOf. by rewrite H, drop_app_length. Qed.

Lemma Submit_effects env f r w :
  heap w !! formRecord f = Some r ->
  effectsOf (Submit env f) w = [EffSave (formAccess f) r].
Proof.
  intros H. apply effectsOf_app. unfold Submit.
  rewrite (bind_run _ _ _ _ _ (load_Some _ _ _ H)). cbn [bind emit].
  destruct (Save env (formAccess f) r); reflexivity.
Qed.

Lemma dummyOf_unverified env r :
  recData (dummyOf env r) !! FieldNameVerified = Some (VBool false).
Proof. unfold dummyOf, setVerified. simpl. apply lookup_insert_eq. Qed.

(** C4.  [recordCreate] runs [createRuleCheck] on the record of the event.
    For a caller without superuser auth and a create rule that is not
    nil, whatever the record [r] holds (its [verified] field included):
    the record that is exported and bound to the rule queries is the
    dummy, whose [verified] field is false; every call of the check is
    about that dummy; the dummy is a new object of the heap, the record
    of the event still holds [r] and no row was persisted; and the
    submit that follows saves [r]. *)
Theorem dummy_record_is_unverified_clone :
  forall (env : Env) (info : RequestInfo) (e : RecordRequestEvent) (form : RecordUpsert)
         (w : World) (r : RecordObj) (rule : string),
    CreateRule (evCollection e) = Some rule ->
    heap w !! evRecord e = Some r ->
    formRecord form = evRecord e ->
    recData (dummyOf env r) !! FieldNameVerified = Some (VBool false) /\
    (exists checked,
       effectsOf (createRuleCheck env false info e form) w =
         EffDBExport (dummyOf env r) :: checked /\
       Forall (aboutDummy env (evCollection e) r) checked) /\
    heap (fst (createRuleCheck env false info e form w)) = heap w ++ [dummyOf env r] /\
    heap (fst (createRuleCheck env false info e form w)) !! evRecord e = Some r /\
    rows (fst (createRuleCheck env false info e form w)) = rows w /\
    (forall form',
       snd (createRuleCheck env false info e form w) = inr form' ->
       effectsOf (Submit env form') (fst (createRuleCheck env false info e form w)) =
       [EffSave (formAccess form') r]).
Proof.
  intros env info e form w r rule Hrule Hr Hform.
  split; [apply dummyOf_unverified|].
  assert (Hlt : evRecord e < length (heap w)) by (by eapply lookup_lt_Some).
  unfold effectsOf at 1.
  rewrite (createRuleCheck_split _ _ _ _ _ _ _ Hrule Hr).
  destruct (DBExport env (dummyOf env r)) as [err|dummyExport] eqn:Hexp.
  - cbn [fst snd]. split; [|split; [|split; [|split]]]; try done.
    + exists []. split; [|constructor]. simpl.
      by rewrite drop_app_length.
    + simpl. by rewrite lookup_app_l.
  - destruct (checkRules_keeps env info (evCollection e) form rule dummyExport
                (withDummy env w r)) as [Hheap Hrows].
    destruct (checkRules_emits env info (evCollection e) r form rule dummyExport Hexp
                (withDummy env w r)) as [(added & Htrace & Hadded) _].
    split; [|split; [|split; [|split]]].
    + exists added. split; [|done].
      rewrite Htrace. simpl. by rewrite <- app_assoc, drop_app_length.
    + by rewrite Hheap.
    + rewrite Hheap. simpl. by rewrite lookup_app_l.
    + by rewrite Hrows.
    + intros form' Hform'. apply Submit_effects.
      rewrite (checkRules_form _ _ _ _ _ _ _ _ Hform'), Hform, Hheap.
      simpl. by rewrite lookup_app_l.
Qed.

(** A record submitted with [verified] set, checked on behalf of a guest. *)
Lemma dummy_record_witness :
  recData (dummyOf (sampleEnv ruledCollection guest) selfVerified) !! FieldNameVerified =
    Some (VBool false) /\
  heap (fst (createRuleCheck (sampleEnv ruledCollection guest) false guest
               {| evCollection := ruledCollection; evRecord := 0 |}
               (NewRecordUpsert 0) (worldHolding selfVerified))) !! 0 = Some selfVerified.
Proof.
  destruct (dummy_record_is_unverified_clone (sampleEnv ruledCollection guest) guest
              {| evCollection := ruledCollection; evRecord := 0 |}
              (NewRecordUpsert 0) (worldHolding selfVerified) selfVerified
              "public = true" eq_refl eq_refl eq_refl)
    as (Hverified & _ & _ & Hreal & _).
  exact (conj Hverified Hreal).
Defined.

(** ** C7: a missing row and a row the rule rejects *)

Lemma filter_rejected c id expr resolver l :
  (forall r, In r l -> matches (idQuery c id) r = true -> exprHolds expr r = false) ->
  List.filter (matches (AndWhere (UpdateQuery resolver (idQuery c id)) expr)) l = [].
Proof.
  intros H. induction l as [|r l IH]; [done|]. simpl.
  rewrite IH by (intros; apply H; [by right | done]).
  assert (matches (AndWhere (UpdateQuery resolver (idQuery c id)) expr) r =
          matches (idQuery c id) r && exprHolds expr r) as ->.
  { unfold matches. simpl. rewrite !andb_true_r. by rewrite andb_assoc. }
  destruct (matches (idQuery c id) r) eqn:E; [|done].
  by rewrite (H r (or_introl eq_refl) E).
Qed.

Lemma ruleFunc_compiled env c info rule expr resolver q :
  rule <> "" ->
  BuildExpr env rule (NewRecordFieldResolver c (Some info) true) = inr (expr, resolver) ->
  ruleFunc env false c info (Some rule) q = inr (AndWhere (UpdateQuery resolver q) expr).
Proof.
  intros Hne Hb. unfold ruleFunc. simpl. apply String.eqb_neq in Hne.
  by rewrite Hne, Hb.
Qed.

Lemma filter_narrowed (q q' : SelectQuery) l :
  (forall r, matches q' r = true -> matches q r = true) ->
  List.filter (matches q) l = [] -> List.filter (matches q') l = [].
Proof.
  intros Himp. induction l as [|r l IH]; [done|]. simpl.
  destruct (matches q r) eqn:E; [done|]. intros Hl.
  destruct (matches q' r) eqn:E'; [|by apply IH].
  rewrite (Himp r E') in E. discriminate.
Qed.

Lemma matches_compiled resolver q expr r :
  matches (AndWhere (UpdateQuery resolver q) expr) r = true -> matches q r = true.
Proof.
  unfold matches. simpl. rewrite forallb_app. simpl.
  intros H. apply andb_true_iff in H as [H1 H2].
  apply andb_true_iff in H2 as [H2 _]. by rewrite H1, H2.
Qed.

Lemma fetch_rejected env c info rule id expr resolver w0 w :
  rows w = rows w0 ->
  rule <> "" ->
  BuildExpr env rule (NewRecordFieldResolver c (Some info) true) = inr (expr, resolver) ->
  (forall r, In r (rows w0) -> matches (idQuery c id) r = true -> exprHolds expr r = false) ->
  FindRecordById c id [ruleFunc env false c info (Some rule)] w =
  (addEffect w (EffFindRecord (AndWhere (UpdateQuery resolver (idQuery c id)) expr)),
   inl ErrNoRows).
Proof.
  intros Hrows Hne Hb Hrej.
  erewrite FindRecordById_eq
    by (simpl; rewrite (ruleFunc_compiled _ _ _ _ _ _ _ Hne Hb); reflexivity).
  rewrite Hrows. fold (idQuery c id). by rewrite (filter_rejected _ _ _ _ _ Hrej).
Qed.

(** The fetch with the rule of the slot fails for an id that is absent
    and for an id whose rows the rule rejects. *)
Lemma fetch_with_rule_fails env c info rule id w0 w :
  rows w = rows w0 ->
  absentId w0 c id \/
  (exists expr resolver,
     rule <> "" /\
     BuildExpr env rule (NewRecordFieldResolver c (Some info) true) = inr (expr, resolver) /\
     (forall r, In r (rows w0) -> matches (idQuery c id) r = true -> exprHolds expr r = false)) ->
  exists w' err,
    FindRecordById c id [ruleFunc env false c info (Some rule)] w = (w', inl err).
Proof.
  intros Hrows [Habsent | (expr & resolver & Hne & Hb & Hrej)].
  - destruct (applyFilters [ruleFunc env false c info (Some rule)]
                (AndWhere (RecordQuery c) (idEquals (Name c) id))) as [err|q] eqn:Hf.
    + rewrite (FindRecordById_err _ _ _ _ _ Hf). eauto.
    + rewrite (FindRecordById_eq _ _ _ _ _ Hf), Hrows.
      assert (List.filter (matches q) (rows w0) = []) as ->; [|eauto].
      eapply filter_narrowed; [|exact Habsent].
      simpl in Hf. unfold ruleFunc in Hf. simpl in Hf.
      destruct (negb (String.eqb rule "")); [|by injection Hf as <-].
      destruct (BuildExpr _ _ _) as [?|[expr resolver]]; [done|].
      injection Hf as <-. intros r. apply matches_compiled.
  - rewrite (fetch_rejected _ _ _ _ _ _ _ w0 _ Hrows Hne Hb Hrej). eauto.
Qed.

(** C7 (as amended).  For view, update and delete by a caller without
    superuser auth, on a request that is let through to the fetch of the
    record: an id that no row has, and an id whose rows the compiled rule
    of the operation rejects, are both answered with a 404 error with the
    same (empty) message.  For update this is under the condition, part of
    [filteredOut], that the submitted data of the request is read without
    error. *)
Theorem missing_and_filtered_rows_look_alike :
  forall (op : Op) (optFinalizer : Finalizer) (env : Env) (e : RequestEvent) (w : World)
         (c : Collection) (info : RequestInfo) (rule : string) (id : string),
    isSingle op = true ->
    FindCachedCollectionByNameOrId env (pathCollection e) = (Some c, None) ->
    (isWrite op = true -> IsView c = false) ->
    checkCollectionRateLimitResult env c (opTag op) = None ->
    RequestInfoResult env = inr info ->
    HasSuperuserAuth info = false ->
    ruleSlot op c = Some rule ->
    absentId w c id \/ filteredOut op env e w c info rule id ->
    seen (handler op optFinalizer env (withId e id) w) = Some (404, "").
Proof.
  intros op fin env e w c info rule id Hop Hc Hv Hrl Hri Hsu Hrule Hcase.
  destruct op; try discriminate; simpl in Hv, Hrl, Hrule |- *;
    try specialize (Hv eq_refl).
  - unfold recordView, checkCollectionRateLimit, withId. cbn [pathCollection pathId].
    rewrite Hc, Hrl, Hri. cbn.
    destruct (String.eqb id "") eqn:Hid; cbn; [reflexivity|].
    rewrite Hrule, Hsu. cbn.
    destruct (fetch_with_rule_fails env c info rule id w
                (addEffect w (EffRateLimit (Id c +:+ ":" +:+ "view"))) eq_refl)
      as (w' & err & Hfetch).
    { destruct Hcase as [Ha | (f & o & i' & expr & res & Hne & _ & [= <-] & Hb & Hrej)];
        [by left | right; eauto]. }
    erewrite bind_run_fail by (unfold try; rewrite Hfetch; reflexivity).
    reflexivity.
  - unfold recordUpdate, checkCollectionRateLimit, withId. cbn [pathCollection pathId].
    rewrite Hc, Hrl, Hri. cbn. rewrite Hv. cbn.
    destruct (String.eqb id "") eqn:Hid; cbn; [reflexivity|].
    rewrite Hrule, Hsu. cbn.
    destruct Hcase as [Ha | (f & o & i' & expr & res & Hne & Hfound & Hinfo & Hb & Hrej)].
    + erewrite bind_run_fail.
      2:{ unfold try. erewrite FindRecordById_eq by reflexivity.
          fold (idQuery c id). simpl rows. rewrite Ha. reflexivity. }
      reflexivity.
    + simpl in Hinfo.
      destruct (recordDataFromRequest env _ f) as [?|data] eqn:Hdata; [done|].
      injection Hinfo as <-.
      erewrite bind_run.
      2:{ unfold try. erewrite FindRecordById_eq by reflexivity.
          fold (idQuery c id). simpl rows. rewrite Hfound. reflexivity. }
      erewrite bind_run by (apply load_Some; apply lookup_new).
      unfold withId in Hdata. rewrite Hdata. cbn [bind orReturn ret].
      erewrite bind_run_fail
        by (unfold try; erewrite (fetch_rejected _ _ _ _ _ _ _ w) by done; reflexivity).
      reflexivity.
  - unfold recordDelete, checkCollectionRateLimit, withId. cbn [pathCollection pathId].
    rewrite Hc, Hrl, Hri. cbn. rewrite Hv. cbn.
    destruct (String.eqb id "") eqn:Hid; cbn; [reflexivity|].
    rewrite Hrule, Hsu. cbn.
    match goal with
    | |- context [bind (try (FindRecordById c id _) _) _ ?w1] =>
        destruct (fetch_with_rule_fails env c info rule id w w1 eq_refl)
          as (w' & err & Hfetch)
    end.
    { destruct Hcase as [Ha | (f & o & i' & expr & res & Hne & _ & [= <-] & Hb & Hrej)];
        [by left | right; eauto]. }
    erewrite bind_run_fail by (unfold try; rewrite Hfetch; reflexivity).
    reflexivity.
Qed.

(** A guest viewing a private row. *)
Lemma missing_and_filtered_witness :
  seen (handler OpView None (sampleEnv ruledCollection guest)
          (withId (sampleRequest "") "r1") (sampleWorld [privateRow])) = Some (404, "").
Proof.
  apply (missing_and_filtered_rows_look_alike OpView None (sampleEnv ruledCollection guest)
           (sampleRequest "") (sampleWorld [privateRow]) ruledCollection guest
           "public = true" "r1"); try reflexivity.
  right. exists privateRow, [], guest, {| exprText := "public = true"; exprHolds := isPublic |},
      (NewRecordFieldResolver ruledCollection (Some guest) true).
    repeat split; try reflexivity; try discriminate.
    intros r [<-|[]] _. reflexivity.
Defined.

(** The claim as it was stated fails for update: when the uploaded files
    of the request cannot be read, an id that no row has is answered 404
    and the id of a row that the rule rejects is answered 400. *)
Lemma update_tells_missing_from_filtered :
  absentId (sampleWorld [privateRow]) ruledCollection "r0" /\
  In privateRow (rows (sampleWorld [privateRow])) /\
  recId privateRow = "r1" /\
  isPublic privateRow = false /\
  seen (recordUpdate None brokenUpload (multipartRequest "r0") (sampleWorld [privateRow])) =
    Some (404, "") /\
  seen (recordUpdate None brokenUpload (multipartRequest "r1") (sampleWorld [privateRow])) =
    Some (400, "Failed to read the submitted data.").
Proof. repeat split; try reflexivity. by left. Qed.

(** ** C8: the randomized throttle of the list handler *)

Lemma sleeps_app l1 l2 : sleeps (l1 ++ l2) = sleeps l1 ++ sleeps l2.
Proof.
  induction l1 as [|eff l1 IH]; [done|]. destruct eff; simpl; by rewrite ?IH.
Qed.

Lemma effectsOf_Trigger {E} handlers (event : E) final w :
  effectsOf (Trigger handlers event final) w = effectsOf (final event) w \/
  effectsOf (Trigger handlers event final) w = [].
Proof.
  induction handlers as [|[|[err|]] rest IH]; simpl; auto;
    right; unfold effectsOf; simpl; apply drop_all.
Qed.

Lemma throttle_run env c w :
  (do limited <- checkRateLimit ("@hb_list_timing_check_" +:+ Id c) listTimingRateLimitRule;
   match limited with
   | Some _ =>
       do _ <- emit (EffLog "Randomized throttle because of too many failed searches");
       randomizedThrottle env 150
   | None => ret tt
   end) w =
  if exhausted w (timingLimiter c) listTimingRateLimitRule
  then (addEffect
          (addEffect (addEffect w (EffRateLimit (timingLimiter c)))
             (EffLog "Randomized throttle because of too many failed searches"))
          (EffSleep (throttleDelay env 150)),
        inr tt)
  else (addEffect
          (setLimiters w
             (<[timingLimiter c := S (default 0 (limiters w !! timingLimiter c))]>
                (limiters w)))
          (EffRateLimit (timingLimiter c)),
        inr tt).
Proof.
  unfold bind, checkRateLimit, exhausted, timingLimiter.
  by destruct (Nat.ltb _ _).
Qed.

Lemma listClosure_sleeps env c info ev w ms :
  In ms (sleeps (effectsOf (listClosure env c info ev) w)) ->
  HasSuperuserAuth info = false /\
  nonEmptyRule (ListRule c) = true /\
  queryParam info "filter" <> "" /\
  listRecords ev = [] /\
  exhausted w (timingLimiter c) listTimingRateLimitRule = true /\
  match randReader env with
  | inr raw => ms = (raw mod 150)%Z /\ (0 <= ms < 150)%Z
  | inl _ => ms = 150%Z
  end.
Proof.
  unfold listClosure, respondJSON, effectsOf.
  destruct (EnrichRecords env (listRecords ev)) as [err|] eqn:Hen.
  { cbn. rewrite drop_all. intros []. }
  rewrite (bind_run _ _ w w tt eq_refl).
  destruct (HasSuperuserAuth info) eqn:Hsu; cbn [negb andb].
  { cbn. destruct (JSONResult env 200); cbn;
      rewrite drop_app_length; intros []. }
  destruct (nonEmptyRule (ListRule c)) eqn:Hrule; cbn [negb andb].
  2:{ cbn. destruct (JSONResult env 200); cbn;
      rewrite drop_app_length; intros []. }
  destruct (String.eqb (queryParam info "filter") "") eqn:Hfilter; cbn [negb andb].
  { cbn. destruct (JSONResult env 200); cbn;
      rewrite drop_app_length; intros []. }
  destruct (Nat.eqb (length (listRecords ev)) 0) eqn:Hlen; cbn [negb andb].
  2:{ cbn. destruct (JSONResult env 200); cbn;
      rewrite drop_app_length; intros []. }
  destruct (exhausted w (timingLimiter c) listTimingRateLimitRule) eqn:Hex.
  2:{ pose proof (throttle_run env c w) as Hrun. rewrite Hex in Hrun.
      rewrite (bind_run _ _ _ _ _ Hrun).
      cbn. destruct (JSONResult env 200); cbn;
      rewrite <- app_assoc, drop_app_length; intros []. }
  pose proof (throttle_run env c w) as Hrun. rewrite Hex in Hrun.
  rewrite (bind_run _ _ _ _ _ Hrun).
  intros Hin.
  assert (ms = throttleDelay env 150) as Hms.
  { cbn - [throttleDelay] in Hin. destruct (JSONResult env 200); cbn - [throttleDelay] in Hin;
      rewrite <- !app_assoc, drop_app_length in Hin; cbn - [throttleDelay] in Hin;
      by destruct Hin as [<-|[]]. }
  unfold throttleDelay, cryptoRandInt in Hms.
  repeat split; try done.
  - by apply String.eqb_neq.
  - apply Nat.eqb_eq in Hlen. by destruct (listRecords ev).
  - destruct (randReader env) as [?|raw]; [done|]. split; [done|]. subst ms.
    apply Z.mod_pos_bound. lia.
Qed.

Lemma sleeps_after {A} (m : M A) w w2 pre :
  trace w2 = trace w ++ pre ->
  sleeps pre = [] ->
  emitsOnly anyEffect m ->
  sleeps (drop (length (trace w)) (trace (fst (m w2)))) = sleeps (effectsOf m w2).
Proof.
  intros Hpre Hquiet Hm. destruct (Hm w2) as [(added & Hadded & _) _].
  rewrite (effectsOf_app _ _ _ Hadded), Hadded, Hpre, <- app_assoc, drop_app_length.
  by rewrite sleeps_app, Hquiet.
Qed.

Lemma emitsOnly_listClosure env c info ev : emitsOnly anyEffect (listClosure env c info ev).
Proof. unfold listClosure. emits_any. apply emitsOnly_randomizedThrottle. Qed.

(** C8 (as amended).  Whenever a run of [recordsList] sleeps in the
    throttle, the caller has no superuser auth, [ListRule] is neither nil
    nor empty, the [filter] query parameter is not empty, the search
    returned no record, and the limiter of the timing check (3 requests
    per 3 seconds, under an id made of the collection id) was exhausted:
    its check answered with an error.  The delay is the random value, in
    [[0, 150)] milliseconds, when the random source yields one, and 150
    milliseconds when the random source fails. *)
Theorem throttle_fires_only_on_exhausted_bucket :
  forall (env : Env) (e : RequestEvent) (w : World) (ms : Z),
    In ms (sleeps (effectsOf (recordsList env e) w)) ->
    throttled env e w ms.
Proof.
  intros env e w ms. unfold recordsList, effectsOf, checkCollectionRateLimit.
  destruct (FindCachedCollectionByNameOrId env (pathCollection e)) as [[c|] [err|]] eqn:Hc;
    try (cbn; rewrite drop_all; intros []).
  destruct (checkCollectionRateLimitResult env c "list") as [err|] eqn:Hrl.
  { cbn. rewrite drop_app_length. intros []. }
  destruct (RequestInfoResult env) as [err|info] eqn:Hri.
  { cbn. rewrite drop_app_length. intros []. }
  cbn [bind emit returnErr ret orReturn].
  destruct (isNil (ListRule c) && negb (HasSuperuserAuth info)) eqn:Hgate.
  { cbn. rewrite drop_app_length. intros []. }
  cbn [bind returnIf ret].
  destruct (checkForSuperuserOnlyRuleFields env info) as [err|] eqn:Hfields.
  { cbn. rewrite drop_app_length. intros []. }
  cbn [bind returnErr ret].
  match goal with
  | |- context [orReturn ?r _] => destruct r as [err|[q resolver]] eqn:Hquery
  end.
  { cbn. rewrite drop_app_length. intros []. }
  cbn [bind orReturn ret emit get]. cbn [rows addEffect].
  destruct (ParseAndExec env _ q (urlQuery e) (rows w)) as [err|records] eqn:Hsearch.
  { cbn. rewrite <- app_assoc, drop_app_length. intros []. }
  cbn [bind orReturn ret].
  change (fun e0 : RecordsListRequestEvent => _) with (listClosure env c info).
  erewrite (sleeps_after _ w _ [_; _]);
    [ | simpl; by rewrite <- app_assoc | reflexivity
      | apply emitsOnly_Trigger, emitsOnly_listClosure ].
  match goal with
  | |- context [effectsOf (Trigger ?hs ?ev ?f) ?w2] =>
      destruct (effectsOf_Trigger hs ev f w2) as [-> | ->]; [|intros []]
  end.
  intros Hin. apply listClosure_sleeps in Hin.
  destruct Hin as (Hsu & Hrule & Hfilter & Hrecords & Hex & Hms).
  simpl in Hrecords. subst records.
  exists c, info, (SetAllowHiddenFields resolver (HasSuperuserAuth info)), q.
  repeat split; done.
Qed.

(** A fourth empty filtered search within the window. *)
Lemma throttle_witness :
  throttled (sampleEnv ruledCollection searching) (sampleRequest "") crowded 34.
Proof.
  apply (throttle_fires_only_on_exhausted_bucket
           (sampleEnv ruledCollection searching) (sampleRequest "") crowded 34).
  left. reflexivity.
Defined.

(** The claim as it was stated fails twice: the throttle fires when the
    bucket is exhausted (and not while it still has room), and when the
    random source fails the delay is 150 milliseconds, outside [[0, 150)]. *)
Lemma throttle_fires_when_bucket_is_exhausted :
  exhausted crowded (timingLimiter ruledCollection) listTimingRateLimitRule = true /\
  sleeps (effectsOf (recordsList (sampleEnv ruledCollection searching) (sampleRequest ""))
            crowded) = [34%Z] /\
  exhausted (sampleWorld []) (timingLimiter ruledCollection) listTimingRateLimitRule = false /\
  sleeps (effectsOf (recordsList (sampleEnv ruledCollection searching) (sampleRequest ""))
            (sampleWorld [])) = [] /\
  sleeps (effectsOf
            (recordsList
               (withRandReader (sampleEnv ruledCollection searching)
                  (inl (PlainError "entropy source failed")))
               (sampleRequest ""))
            crowded) = [150%Z].
Proof. repeat split; reflexivity. Qed.

(** ** C9: the finalizer of create, update and delete *)

Lemma finalizerCalls_app l1 l2 :
  finalizerCalls (l1 ++ l2) = finalizerCalls l1 + finalizerCalls l2.
Proof.
  induction l1 as [|eff l1 IH]; [done|]. destruct eff; simpl; by rewrite ?IH.
Qed.

Lemma finalizerCalls_none l : Forall notFinalizer l -> finalizerCalls l = 0.
Proof.
  induction 1 as [|eff l H _ IH]; [done|]. destruct eff; simpl; try done.
Qed.

Lemma keepsFlag_ret {A} (a : A) : keepsFlag (ret a).
Proof. by intros w. Qed.

Lemma keepsFlag_fail {A} e : keepsFlag (@fail A e).
Proof. by intros w. Qed.

Lemma keepsFlag_emit eff : keepsFlag (emit eff).
Proof. by intros w. Qed.

Lemma keepsFlag_get : keepsFlag get.
Proof. by intros w. Qed.

Lemma keepsFlag_alloc r : keepsFlag (alloc r).
Proof. by intros w. Qed.

Lemma keepsFlag_store p r : keepsFlag (store p r).
Proof. by intros w. Qed.

Lemma keepsFlag_load p : keepsFlag (load p).
Proof. intros w. unfold load. by destruct (heap w !! p). Qed.

Lemma keepsFlag_bind {A B} (m : M A) (k : A -> M B) :
  keepsFlag m -> (forall a, keepsFlag (k a)) -> keepsFlag (bind m k).
Proof.
  intros Hm Hk w. unfold bind. specialize (Hm w).
  destruct (m w) as [w' [err|a]]; simpl in *; [done|].
  by rewrite (Hk a w').
Qed.

Lemma keepsFlag_try {A} (m : M A) f : keepsFlag m -> keepsFlag (try m f).
Proof. intros Hm w. unfold try. specialize (Hm w). by destruct (m w) as [w' [err|a]]. Qed.

Lemma keepsFlag_returnIf b e : keepsFlag (returnIf b e).
Proof. by destruct b. Qed.

Lemma keepsFlag_returnErr err f : keepsFlag (returnErr err f).
Proof. by destruct err. Qed.

Lemma keepsFlag_orReturn {A} (r : error + A) f : keepsFlag (orReturn r f).
Proof. by destruct r. Qed.

Lemma keepsFlag_setRows {A} (f : World -> list RecordObj) (a : A) :
  keepsFlag (fun w => (setRows w (f w), inr a)).
Proof. by intros w. Qed.

Ltac flag_step :=
  match goal with
  | |- keepsFlag (bind _ _) => apply keepsFlag_bind; [|intros]
  | |- keepsFlag (ret _) => apply keepsFlag_ret
  | |- keepsFlag (fail _) => apply keepsFlag_fail
  | |- keepsFlag (try _ _) => apply keepsFlag_try
  | |- keepsFlag (emit _) => apply keepsFlag_emit
  | |- keepsFlag get => apply keepsFlag_get
  | |- keepsFlag (alloc _) => apply keepsFlag_alloc
  | |- keepsFlag (store _ _) => apply keepsFlag_store
  | |- keepsFlag (load _) => apply keepsFlag_load
  | |- keepsFlag (returnIf _ _) => apply keepsFlag_returnIf
  | |- keepsFlag (returnErr _ _) => apply keepsFlag_returnErr
  | |- keepsFlag (orReturn _ _) => apply keepsFlag_orReturn
  | |- keepsFlag (fun w => (setRows w _, inr _)) => apply keepsFlag_setRows
  | |- keepsFlag (match ?x with _ => _ end) => destruct x
  | |- keepsFlag (if ?b then _ else _) => destruct b
  | |- keepsFlag (let '(_, _) := ?x in _) => destruct x
  end.

Ltac flag :=
  unfold respondJSON, respondNoContent, Submit, Delete, hasAuthManageAccess,
    createRuleCheck, Clone, SetVerified;
  repeat (flag_step; unfold hasAuthManageAccess).

Lemma keepsFlag_createRuleCheck env su info e form :
  keepsFlag (createRuleCheck env su info e form).
Proof. flag. Qed.

Lemma keepsFlag_Submit env f : keepsFlag (Submit env f).
Proof. flag. Qed.

Lemma keepsFlag_Delete env p : keepsFlag (Delete env p).
Proof. flag. Qed.

Lemma keepsFlag_hasAuthManageAccess env info c q :
  keepsFlag (hasAuthManageAccess env info c q).
Proof. flag. Qed.

Lemma ordinary_notFinalizer eff : ordinary eff = true -> notFinalizer eff.
Proof. unfold ordinary, notFinalizer. by destruct (isFinalizer eff). Qed.

Lemma endsWithFinalizer_app before added :
  Forall notFinalizer before -> endsWithFinalizer added ->
  endsWithFinalizer (before ++ added).
Proof.
  intros Hb (b2 & p & -> & H2). exists (before ++ b2), p.
  split; [by rewrite app_assoc | by apply Forall_app].
Qed.

Lemma endsWithFinalizer_calls added : endsWithFinalizer added -> finalizerCalls added = 1.
Proof.
  intros (before & p & -> & H). by rewrite finalizerCalls_app, (finalizerCalls_none _ H).
Qed.

Lemma closureCallsOnce_bind {A B} (m : M A) (k : A -> M B) :
  emitsOnly notFinalizer m -> keepsFlag m ->
  (forall a, closureCallsOnce (k a)) ->
  closureCallsOnce (bind m k).
Proof.
  intros Hm Hflag Hk w Hw. unfold bind.
  destruct (Hm w) as [(a1 & E1 & F1) _]. specialize (Hflag w).
  destruct (m w) as [w1 [err|a]]; simpl in *.
  - exists a1. split; [done|]. left. split; [done|]. split; [congruence | eauto].
  - destruct (Hk a w1) as (a2 & E2 & H2); [congruence|].
    exists (a1 ++ a2). split; [by rewrite E2, E1, app_assoc|].
    destruct H2 as [(F2 & ? & ?) | (F2 & ?)].
    + left. split; [by apply Forall_app | done].
    + right. split; [by apply endsWithFinalizer_app | done].
Qed.

Lemma closureCallsOnce_finalizeInline fin e f :
  closureCallsOnce (finalizeInline (Some fin) e f).
Proof.
  intros w Hw. exists [EffFinalizer (evRecord e)].
  unfold finalizeInline, callFinalizer. cbn.
  destruct (fin (evRecord e)); cbn; (split; [done|]); right;
    (split; [|done]); by exists [], (evRecord e).
Qed.

Lemma Trigger_cases {E} handlers (event : E) final w :
  Trigger handlers event final w = final event w \/
  Trigger handlers event final w = (w, inr tt) \/
  exists err, Trigger handlers event final w = (w, inl err).
Proof.
  induction handlers as [|[|[err|]] rest IH]; simpl; eauto.
Qed.

Lemma callsOnce_fail {A} e : callsOnce (@fail A e).
Proof.
  intros w. exists []. simpl. rewrite app_nil_r. split; [done|]. left. by split.
Qed.

Lemma callsOnce_bind {A B} (m : M A) (k : A -> M B) :
  emitsOnly notFinalizer m -> (forall a, callsOnce (k a)) -> callsOnce (bind m k).
Proof.
  intros Hm Hk w. unfold bind.
  destruct (Hm w) as [(a1 & E1 & F1) _].
  destruct (m w) as [w1 [err|a]]; simpl in *.
  - exists a1. split; [done|]. left. by split.
  - destruct (Hk a w1) as (a2 & E2 & H2).
    exists (a1 ++ a2). split; [by rewrite E2, E1, app_assoc|].
    destruct H2 as [(F2 & ?) | F2].
    + left. split; [by apply Forall_app | done].
    + right. by apply endsWithFinalizer_app.
Qed.

(** The end of the three writing handlers: the flag is declared, the hooks
    are triggered, and the finalizer runs after the trigger when the
    closure did not run it. *)
Lemma callsOnce_tail fin handlers ev (closure : RecordRequestEvent -> M unit) f :
  closureCallsOnce (closure ev) ->
  callsOnce (do _ <- setFinalizerCalled false;
             do _ <- Trigger handlers ev closure;
             finalizeAfterTrigger (Some fin) ev f).
Proof.
  intros Hclosure w. cbn [bind setFinalizerCalled].
  set (w0 := setFlag w false).
  assert (Hw0 : isOptFinalizerCalled w0 = false) by done.
  assert (Ht0 : trace w0 = trace w) by done.
  unfold bind.
  destruct (Trigger_cases handlers ev closure w0) as [-> | [-> | [err ->]]].
  - destruct (Hclosure w0 Hw0) as (added & E & Hcases).
    destruct (closure ev w0) as [w1 [err|[]]]; simpl in *.
    + exists added. split; [congruence|].
      destruct Hcases as [(? & _) | (? & _)]; [left | right]; done.
    + destruct Hcases as [(_ & _ & err & ?) | (Hcount & Hflag)]; [done|].
      unfold finalizeAfterTrigger, bind, get. simpl. rewrite Hflag. simpl.
      exists added. split; [congruence|]. by right.
  - unfold finalizeAfterTrigger, callFinalizer, bind, get. simpl.
    exists [EffFinalizer (evRecord ev)].
    destruct (fin (evRecord ev)); cbn; (split; [done|]); right;
      by exists [], (evRecord ev).
  - exists []. simpl. rewrite app_nil_r. split; [done|]. left. by split.
Qed.

Ltac emits_quiet :=
  repeat first
    [ emits_step
    | apply emitsOnly_checkCollectionRateLimit; exact ordinary_notFinalizer
    | apply emitsOnly_respondJSON; exact ordinary_notFinalizer
    | apply emitsOnly_respondNoContent; exact ordinary_notFinalizer
    | apply emitsOnly_FindRecordById; exact ordinary_notFinalizer
    | apply emitsOnly_NewRecord; exact ordinary_notFinalizer
    | apply emitsOnly_Load; exact ordinary_notFinalizer
    | apply emitsOnly_Submit; exact ordinary_notFinalizer
    | apply emitsOnly_Delete; exact ordinary_notFinalizer
    | apply emitsOnly_hasAuthManageAccess; exact ordinary_notFinalizer
    | apply emitsOnly_createRuleCheck; exact ordinary_notFinalizer
    | reflexivity ].

Ltac flag_quiet :=
  repeat first
    [ flag_step
    | apply keepsFlag_createRuleCheck
    | apply keepsFlag_Submit
    | apply keepsFlag_Delete
    | apply keepsFlag_hasAuthManageAccess
    | progress unfold respondJSON, respondNoContent ].

Ltac closure_once :=
  repeat match goal with
  | |- closureCallsOnce (finalizeInline (Some _) _ _) => apply closureCallsOnce_finalizeInline
  | |- closureCallsOnce (bind _ _) =>
      apply closureCallsOnce_bind; [emits_quiet | flag_quiet | intros]
  | |- closureCallsOnce (let _ := _ in _) => lazy zeta
  end.

Ltac handler_once :=
  repeat match goal with
  | |- callsOnce (bind (setFinalizerCalled false) _) => apply callsOnce_tail; closure_once
  | |- callsOnce (bind _ _) => apply callsOnce_bind; [emits_quiet | intros]
  | |- callsOnce (fail _) => apply callsOnce_fail
  | |- callsOnce (let _ := _ in _) => lazy zeta
  | |- callsOnce (match ?x with _ => _ end) => destruct x
  | |- callsOnce (let '(_, _) := ?x in _) => destruct x
  end.

Lemma handler_callsOnce op fin env e :
  isWrite op = true -> callsOnce (handler op (Some fin) env e).
Proof.
  intros Hop. destruct op; try discriminate; simpl;
    [ unfold recordCreate | unfold recordUpdate | unfold recordDelete ];
    handler_once.
Qed.

(** C9 (as amended).  In every run of create, update and delete with a
    finalizer that is not nil, the finalizer is called at most once.  When
    the handler returns nil it was called exactly once, and that call is
    the last call of the run: by the closure, as its last step, when the
    hook chain ran to its end, and after the trigger when a hook stopped
    the chain.  A run that returns an error may end without it. *)
Theorem finalizer_runs_at_most_once :
  forall (op : Op) (fin : loc -> option error) (env : Env) (e : RequestEvent) (w : World),
    isWrite op = true ->
    finalizerCalls (effectsOf (handler op (Some fin) env e) w) <= 1 /\
    (result (handler op (Some fin) env e w) = None ->
     finalizerCalls (effectsOf (handler op (Some fin) env e) w) = 1 /\
     endsWithFinalizer (effectsOf (handler op (Some fin) env e) w)).
Proof.
  intros op fin env e w Hop.
  destruct (handler_callsOnce op fin env e Hop w) as (added & E & Hcases).
  rewrite (effectsOf_app _ _ _ E).
  destruct Hcases as [(Hnone & Herr) | Hlast].
  - rewrite (finalizerCalls_none _ Hnone). split; [lia | done].
  - rewrite (endsWithFinalizer_calls _ Hlast). split; [lia | done].
Qed.

(** A guest deleting a row of a collection whose rules are empty. *)
Lemma finalizer_witness :
  finalizerCalls
    (effectsOf (handler OpDelete (Some (fun _ => None)) (sampleEnv openCollection guest)
                  (sampleRequest "r1"))
       (sampleWorld [publicRow])) = 1.
Proof.
  exact (proj1 (proj2 (finalizer_runs_at_most_once OpDelete (fun _ => None)
                         (sampleEnv openCollection guest) (sampleRequest "r1")
                         (sampleWorld [publicRow]) eq_refl)
                  eq_refl)).
Defined.

(** The claim as it was stated fails: a create request gets as far as the
    hook trigger, and its closure as far as the submit of the form, which
    rejects the record; the handler returns the error and the finalizer
    is never called.  The same holds when a hook stops the chain with an
    error. *)
Lemma finalizer_skipped_when_trigger_fails :
  existsb isSave
    (effectsOf (recordCreate (Some (fun _ => None)) rejectingForm (sampleRequest ""))
       (sampleWorld [])) = true /\
  seen (recordCreate (Some (fun _ => None)) rejectingForm (sampleRequest "")
          (sampleWorld [])) = Some (400, "Failed to create record") /\
  finalizerCalls
    (effectsOf (recordCreate (Some (fun _ => None)) rejectingForm (sampleRequest ""))
       (sampleWorld [])) = 0 /\
  result (recordCreate (Some (fun _ => None)) stoppingHook (sampleRequest "")
            (sampleWorld [])) = Some (PlainError "stopped") /\
  finalizerCalls
    (effectsOf (recordCreate (Some (fun _ => None)) stoppingHook (sampleRequest ""))
       (sampleWorld [])) = 0.
Proof. repeat split; reflexivity. Qed.

(** ** Requests that end before the rule is applied *)

(** X1.  When the collection of the path is not found (the cache answers
    nil or an error), each of the five handlers returns the 404 error
    "Missing collection context.", which carries the cache's error, and
    leaves the world as it was: no rate limiter was asked, the request
    info was not read, nothing was queried. *)
Theorem missing_collection_is_not_found :
  forall (op : Op) (optFinalizer : Finalizer) (env : Env) (e : RequestEvent) (w : World)
         (c : option Collection) (err : option error),
    FindCachedCollectionByNameOrId env (pathCollection e) = (c, err) ->
    c = None \/ err <> None ->
    handler op optFinalizer env e w =
    (w, inl (NotFoundError "Missing collection context." err)).
Proof.
  intros op fin env e w c err Hc Hmiss.
  destruct op; simpl;
    [ unfold recordsList | unfold recordView | unfold recordCreate
    | unfold recordUpdate | unfold recordDelete ];
    rewrite Hc; destruct Hmiss as [-> | Herr];
    destruct err; try done; destruct c; done.
Qed.

(** A list request for a collection that the cache does not know. *)
Lemma missing_collection_witness :
  handler OpList None lostCollection (sampleRequest "") (sampleWorld []) =
  (sampleWorld [], inl (NotFoundError "Missing collection context." None)).
Proof.
  apply (missing_collection_is_not_found OpList None lostCollection (sampleRequest "")
           (sampleWorld []) None None eq_refl).
  left. reflexivity.
Defined.

(** X2.  When the collection's rate limiter rejects the request, each of
    the five handlers returns the limiter's error as it is, and the call
    of the limiter is the only call of the run: the request info is not
    read and nothing is queried or changed.  (For create, update and
    delete the collection is not a view collection, which is refused
    before the limiter is asked.) *)
Theorem rate_limited_request_stops_at_the_limiter :
  forall (op : Op) (optFinalizer : Finalizer) (env : Env) (e : RequestEvent) (w : World)
         (c : Collection) (err : error),
    FindCachedCollectionByNameOrId env (pathCollection e) = (Some c, None) ->
    (isWrite op = true -> IsView c = false) ->
    checkCollectionRateLimitResult env c (opTag op) = Some err ->
    handler op optFinalizer env e w =
    (addEffect w (EffRateLimit (Id c +:+ ":" +:+ opTag op)), inl err).
Proof.
  intros op fin env e w c err Hc Hv Hrl.
  destruct op; simpl in Hv, Hrl |- *; try specialize (Hv eq_refl);
    [ unfold recordsList | unfold recordView | unfold recordCreate
    | unfold recordUpdate | unfold recordDelete ];
    unfold checkCollectionRateLimit; rewrite Hc; cbn; try rewrite Hv; cbn;
    rewrite Hrl; reflexivity.
Qed.

(** A delete request that the limiter rejects. *)
Lemma rate_limited_request_witness :
  handler OpDelete sampleFinalizer rateLimited (sampleRequest "r1") (sampleWorld [publicRow]) =
  (addEffect (sampleWorld [publicRow]) (EffRateLimit "c1:delete"),
   inl (TooManyRequestsError "" None)).
Proof.
  apply (rate_limited_request_stops_at_the_limiter OpDelete sampleFinalizer rateLimited
           (sampleRequest "r1") (sampleWorld [publicRow]) openCollection
           (TooManyRequestsError "" None) eq_refl).
  - reflexivity.
  - reflexivity.
Defined.

(** X3.  With an empty record id in the path, view, update and delete
    return the 404 error with the empty message once the rate limiter
    let the request through, whoever the caller is and whatever the rule
    slot holds: the request info is not read, the rule is not looked at
    and no record is fetched. *)
Theorem empty_record_id_is_not_found :
  forall (op : Op) (optFinalizer : Finalizer) (env : Env) (e : RequestEvent) (w : World)
         (c : Collection),
    isSingle op = true ->
    FindCachedCollectionByNameOrId env (pathCollection e) = (Some c, None) ->
    (isWrite op = true -> IsView c = false) ->
    checkCollectionRateLimitResult env c (opTag op) = None ->
    pathId e = "" ->
    handler op optFinalizer env e w =
    (addEffect w (EffRateLimit (Id c +:+ ":" +:+ opTag op)), inl (NotFoundError "" None)).
Proof.
  intros op fin env e w c Hs Hc Hv Hrl Hid.
  destruct op; try discriminate; simpl in Hv, Hrl |- *; try specialize (Hv eq_refl);
    [ unfold recordView | unfold recordUpdate | unfold recordDelete ];
    unfold checkCollectionRateLimit; rewrite Hc; cbn; try rewrite Hv; cbn;
    rewrite Hrl, Hid; reflexivity.
Qed.

(** A view request without record id, on a collection whose rules are nil. *)
Lemma empty_record_id_witness :
  handler OpView None (sampleEnv lockedCollection guest) (sampleRequest "") (sampleWorld []) =
  (addEffect (sampleWorld []) (EffRateLimit "c1:view"), inl (NotFoundError "" None)).
Proof.
  apply (empty_record_id_is_not_found OpView None (sampleEnv lockedCollection guest)
           (sampleRequest "") (sampleWorld []) lockedCollection eq_refl eq_refl).
  - intros H. discriminate H.
  - reflexivity.
  - reflexivity.
Defined.

(** X4.  When the non-empty rule of a caller without superuser auth does
    not compile, no query is made: [recordsList] returns the builder's
    error as it is, and [recordView] and [recordDelete] return the 404
    error with the empty message, which carries the builder's error as
    its raw data.  The limiter's call is the only call of the run. *)
Theorem uncompilable_rule_is_reported_before_any_query :
  forall (op : Op) (optFinalizer : Finalizer) (env : Env) (e : RequestEvent) (w : World)
         (c : Collection) (info : RequestInfo) (rule : string) (err : error),
    compilesRuleFirst op = true ->
    reachesRuleCheck env e op c info ->
    HasSuperuserAuth info = false ->
    checkForSuperuserOnlyRuleFields env info = None ->
    ruleSlot op c = Some rule ->
    rule <> "" ->
    BuildExpr env rule (NewRecordFieldResolver c (Some info) true) = inl err ->
    handler op optFinalizer env e w =
    (addEffect w (EffRateLimit (Id c +:+ ":" +:+ opTag op)),
     inl (match op with
          | OpList => err
          | _ => NotFoundError "" (Some err)
          end)).
Proof.
  intros op fin env e w c info rule err Hop Hreach Hsu Hso Hrule Hne Hb.
  apply String.eqb_neq in Hne.
  destruct op; try discriminate; reach Hreach; simpl in Hrule |- *;
    [ unfold recordsList | unfold recordView | unfold recordDelete ];
    unfold checkCollectionRateLimit;
    rewrite Hc, Hrl, Hri; cbn; try rewrite Hv; try rewrite Hid; cbn;
    rewrite Hrule, Hsu; cbn; rewrite ?Hso; cbn; rewrite ?Hne; cbn.
  - rewrite Hb. reflexivity.
  - unfold bind at 1; unfold try at 1.
    rewrite (FindRecordById_err _ _ _ err).
    + reflexivity.
    + simpl. unfold ruleFunc. simpl. rewrite Hne. simpl.
      rewrite Hb. reflexivity.
  - unfold bind at 1; unfold try at 1.
    rewrite (FindRecordById_err _ _ _ err).
    + reflexivity.
    + simpl. unfold ruleFunc. simpl. rewrite Hne. simpl.
      rewrite Hb. reflexivity.
Qed.

(** A guest viewing a record under a rule that does not compile. *)
Lemma uncompilable_rule_witness :
  handler OpView None brokenRule (sampleRequest "r1") (sampleWorld [privateRow]) =
  (addEffect (sampleWorld [privateRow]) (EffRateLimit "c1:view"),
   inl (NotFoundError "" (Some (PlainError "invalid filter")))).
Proof.
  apply (uncompilable_rule_is_reported_before_any_query OpView None brokenRule
           (sampleRequest "r1") (sampleWorld [privateRow]) ruledCollection guest
           "public = true" (PlainError "invalid filter") eq_refl).
  - repeat split; try reflexivity; intros; discriminate.
  - reflexivity.
  - reflexivity.
  - reflexivity.
  - discriminate.
  - reflexivity.
Defined.

(** ** Superusers *)

Lemma createRuleCheck_superuser env info e form :
  createRuleCheck env true info e form = ret form.
Proof. unfold createRuleCheck. by destruct (CreateRule (evCollection e)). Qed.

Lemma ruleFunc_superuser env c info rule q : ruleFunc env true c info rule q = inr q.
Proof. reflexivity. Qed.

Ltac su_step Hsu :=
  first
    [ match goal with H : inr _ = inr _ |- _ => injection H as <- end
    | progress cbv beta zeta
    | progress rewrite ?Hsu, ?createRuleCheck_superuser
    | progress cbn [negb andb orb HasManageAccess formAccess SetRecord GrantSuperuserAccess
                    NewRecordUpsert formRecord evCollection evRecord]
    | progress unfold checkCollectionRateLimit, respondJSON, respondNoContent, FindRecordById,
        NewRecord, Load, Submit, Delete, finalizeInline, finalizeAfterTrigger, callFinalizer
    | emits_step ].

(** X5.  For a caller with superuser auth no rule is applied, whatever the
    rule slots hold.  Every call of a run of the five handlers is one of:
    the collection's rate limiter, the search over the plain query of the
    collection with the hidden fields allowed, the fetch of a record by
    the id of the path alone, a save with superuser access, the delete,
    the response, the finalizer.  No create or manage rule query is run,
    no dummy record is exported, the timing limiter is not asked and the
    throttle never sleeps. *)
Theorem superuser_bypasses_the_rules :
  forall (op : Op) (optFinalizer : Finalizer) (env : Env) (e : RequestEvent)
         (c : Collection) (info : RequestInfo),
    FindCachedCollectionByNameOrId env (pathCollection e) = (Some c, None) ->
    RequestInfoResult env = inr info ->
    HasSuperuserAuth info = true ->
    emitsOnly (superuserCall op c e) (handler op optFinalizer env e).
Proof.
  intros op fin env e c info Hc Hri Hsu.
  destruct op; simpl;
    [ unfold recordsList | unfold recordView | unfold recordCreate
    | unfold recordUpdate | unfold recordDelete ];
    rewrite Hc, Hri; repeat su_step Hsu.
  all: repeat match goal with
       | H : applyFilters _ _ = inr _ |- _ =>
           simpl in H; rewrite ?ruleFunc_superuser in H; injection H as <-
       end; reflexivity.
Qed.

(** A superuser updating a private row of a collection with rules. *)
Lemma superuser_bypass_witness :
  emitsOnly (superuserCall OpUpdate ruledCollection (sampleRequest "r1"))
    (handler OpUpdate sampleFinalizer (sampleEnv ruledCollection superuser)
       (sampleRequest "r1")).
Proof.
  apply (superuser_bypasses_the_rules OpUpdate sampleFinalizer
           (sampleEnv ruledCollection superuser) (sampleRequest "r1") ruledCollection
           superuser eq_refl eq_refl eq_refl).
Defined.

(** ** A non-empty rule *)

Ltac ruled_step Hsu Hrule Hne :=
  first
    [ match goal with H : inr _ = inr _ |- _ => injection H as <- end
    | progress cbv beta zeta
    | progress rewrite ?Hsu, ?Hrule
    | progress cbn [negb andb nonEmptyRule isNil default]
    | progress rewrite ?Hne
    | progress unfold checkCollectionRateLimit, respondJSON, respondNoContent, FindRecordById,
        NewRecord, Load, Submit, Delete, finalizeInline, finalizeAfterTrigger, callFinalizer,
        randomizedThrottle, hasAuthManageAccess
    | emits_step ].

Lemma grows_effects P w w' :
  grows P w w' -> Forall P (drop (length (trace w)) (trace w')).
Proof. intros [(added & -> & F) _]. by rewrite drop_app_length. Qed.

(** X6.  For a caller without superuser auth and a rule slot that is
    neither nil nor empty, the rule is part of every query that list,
    view, update and delete make for records: the search of
    [recordsList] runs the collection's query with the compiled rule
    added, and with a resolver that does not resolve hidden fields; the
    fetch of [recordView] and [recordDelete] selects the record of the
    path's id with the compiled rule added; and every fetch of
    [recordUpdate] is either the fetch by the id alone, which it makes to
    read the submitted data, or a fetch with the rule added, compiled
    against the request info whose body is the submitted data: the data
    that [recordDataFromRequest] returns for the record that the fetch by
    the id alone found. *)
Theorem rule_is_added_to_every_query :
  forall (op : Op) (optFinalizer : Finalizer) (env : Env) (e : RequestEvent) (w : World)
         (c : Collection) (info : RequestInfo) (rule : string),
    op <> OpCreate ->
    FindCachedCollectionByNameOrId env (pathCollection e) = (Some c, None) ->
    RequestInfoResult env = inr info ->
    HasSuperuserAuth info = false ->
    ruleSlot op c = Some rule ->
    rule <> "" ->
    Forall (ruled op env c info rule e (rows w)) (effectsOf (handler op optFinalizer env e) w).
Proof.
  intros op fin env e w c info rule Hop Hc Hri Hsu Hrule Hne.
  apply String.eqb_neq in Hne. apply grows_effects.
  destruct op; try done; simpl in Hrule |- *.
  1,2,4: match goal with
         | |- grows ?P ?w0 (fst (?m ?w0)) => cut (emitsOnly P m); [by intros H|]
         end.
  1,2,3: [> unfold recordsList | unfold recordView | unfold recordDelete ];
    rewrite Hc, Hri; repeat ruled_step Hsu Hrule Hne.
  - match goal with
    | H : match BuildExpr ?env ?rule ?res with _ => _ end = inr _ |- _ =>
        destruct (BuildExpr env rule res) as [err|[expr compiled]] eqn:Hb;
        [discriminate H | injection H as <- <-]
    end.
    by exists expr, compiled.
  - match goal with H : applyFilters _ _ = inr _ |- _ =>
      simpl in H; unfold ruleFunc in H; simpl in H; rewrite Hne in H; simpl in H
    end.
    destruct (BuildExpr env rule _) as [err|[expr compiled]] eqn:Hb; [done|].
    match goal with H : inr _ = inr _ |- _ => injection H as <- end.
    right. by exists info, expr, compiled.
  - match goal with H : applyFilters _ _ = inr _ |- _ =>
      simpl in H; unfold ruleFunc in H; simpl in H; rewrite Hne in H; simpl in H
    end.
    destruct (BuildExpr env rule _) as [err|[expr compiled]] eqn:Hb; [done|].
    match goal with H : inr _ = inr _ |- _ => injection H as <- end.
    right. by exists info, expr, compiled.
  - unfold recordUpdate, checkCollectionRateLimit. rewrite Hc, Hri.
    set (P := ruled OpUpdate env c info rule e (rows w)).
    assert (HRL : forall label, P (EffRateLimit label)) by done.
    assert (HF : P (EffFindRecord (idQuery c (pathId e)))) by (by left).
    cbn.
    destruct (IsView c); cbn; [apply grows_refl|].
    destruct (checkCollectionRateLimitResult env c "update"); cbn.
    { split; [eexists [_]; split; [reflexivity | by repeat constructor] | simpl; lia]. }
    destruct (String.eqb (pathId e) ""); cbn.
    { split; [eexists [_]; split; [reflexivity | by repeat constructor] | simpl; lia]. }
    rewrite Hsu, Hrule. cbn.
    unfold bind at 1. unfold try at 1.
    erewrite FindRecordById_eq by reflexivity. fold (idQuery c (pathId e)). simpl rows.
    destruct (List.filter _ (rows w)) as [|fetched others] eqn:Hf.
    { split; [eexists [_; _]; split; [simpl; by rewrite <- app_assoc | by repeat constructor]
             | simpl; lia]. }
    erewrite bind_run by (apply load_Some; apply lookup_new).
    destruct (recordDataFromRequest env e fetched) as [err|data] eqn:Hdata;
      cbn [bind orReturn ret fail].
    { split; [eexists [_; _]; split; [simpl; by rewrite <- app_assoc | by repeat constructor]
             | simpl; rewrite length_app; lia]. }
    match goal with
    | |- grows P w (fst (?m ?w1)) =>
        apply (grows_trans P w w1);
        [ split; [eexists [_; _]; split; [simpl; by rewrite <- app_assoc | by repeat constructor]
                 | simpl; rewrite length_app; lia]
        | cut (emitsOnly P m); [by intros H|] ]
    end.
    clear HRL HF. subst P. repeat ruled_step Hsu Hrule Hne.
    match goal with H : applyFilters _ _ = inr _ |- _ =>
      simpl in H; unfold ruleFunc in H; simpl in H; rewrite Hne in H; simpl in H
    end.
    destruct (BuildExpr env rule _) as [err|[expr compiled]] eqn:Hb; [done|].
    match goal with H : inr _ = inr _ |- _ => injection H as <- end.
    right. exists (withBody info data), expr, compiled.
    split; [by exists fetched, others, data|]. by split.
Qed.

(** A guest updating a public record of a collection with an update rule. *)
Lemma rule_is_added_witness :
  Forall (ruled OpUpdate (sampleEnv ruledCollection guest) ruledCollection guest
            "public = true" (sampleRequest "r1")
            (rows (sampleWorld [sampleRow ruledCollection "r1" true])))
    (effectsOf (handler OpUpdate None (sampleEnv ruledCollection guest) (sampleRequest "r1"))
       (sampleWorld [sampleRow ruledCollection "r1" true])).
Proof.
  apply (rule_is_added_to_every_query OpUpdate None (sampleEnv ruledCollection guest)
           (sampleRequest "r1") (sampleWorld [sampleRow ruledCollection "r1" true])
           ruledCollection guest "public = true").
  - discriminate.
  - reflexivity.
  - reflexivity.
  - reflexivity.
  - reflexivity.
  - discriminate.
Defined.

(** ** The access of a save *)

Lemma noSave_not_in added access r : Forall noSave added -> ~ In (EffSave access r) added.
Proof.
  intros Hall Hin. rewrite Forall_forall in Hall.
  specialize (Hall _ (proj2 (list_elem_of_In _ _) Hin)). discriminate Hall.
Qed.

Lemma noSave_no_split added before access r after :
  Forall noSave added -> added <> before ++ EffSave access r :: after.
Proof.
  intros Hall ->. apply (noSave_not_in _ access r Hall).
  apply in_or_app. right. by left.
Qed.

(** A save among the calls of two runs, the first of which saves nothing,
    is a save of the second. *)
Lemma save_in_second a1 a2 before access r after :
  Forall noSave a1 ->
  a1 ++ a2 = before ++ EffSave access r :: after ->
  exists l, before = a1 ++ l /\ a2 = l ++ EffSave access r :: after.
Proof.
  intros F1 E. apply app_eq_inv in E as [(k & E1 & E2)|(k & E1 & E2)].
  - destruct k as [|x k]; simpl in E2.
    + exists []. rewrite app_nil_r in E1. rewrite app_nil_r. by subst.
    + injection E2 as <- _. by destruct (noSave_no_split _ _ _ _ _ F1 E1).
  - by exists k.
Qed.

Lemma save_in_first a1 a2 before access r after :
  Forall noSave a2 ->
  a1 ++ a2 = before ++ EffSave access r :: after ->
  exists l, a1 = before ++ EffSave access r :: l /\ after = l ++ a2.
Proof.
  intros F2 E. apply app_eq_inv in E as [(k & E1 & E2)|(k & E1 & E2)].
  - destruct k as [|x k]; simpl in E2.
    + by destruct (noSave_no_split a2 [] access r after F2).
    + injection E2 as <- ->. by exists k.
  - by destruct (noSave_no_split _ _ _ _ _ F2 E2).
Qed.

Lemma Submit_saves env form :
  forall w, exists added,
    trace (fst (Submit env form w)) = trace w ++ added /\
    (added = [] \/ exists r, added = [EffSave (formAccess form) r]).
Proof.
  intros w. unfold Submit, bind, load.
  destruct (heap w !! formRecord form) as [r|]; simpl.
  - exists [EffSave (formAccess form) r]. split; [|right; eauto].
    destruct (Save env (formAccess form) r); reflexivity.
  - exists []. split; [by rewrite app_nil_r | by left].
Qed.

Section Justified.
Variable J : list Effect -> Access -> Prop.
Hypothesis J_lasting : lasting J.

Lemma justified_after before added access : J added access -> J (before ++ added) access.
Proof. intros H. rewrite <- (app_nil_r added). by apply J_lasting. Qed.

Lemma justified_before added after access : J added access -> J (added ++ after) access.
Proof. intros H. by apply (J_lasting [] added after). Qed.

Lemma grantsJustified_ret form : J [] (formAccess form) -> grantsJustified J (ret form).
Proof.
  intros H w. exists []. simpl. rewrite app_nil_r. repeat split; try done.
  by intros ? [= <-].
Qed.

Lemma grantsJustified_bind {A} (m : M A) (k : A -> M RecordUpsert) :
  emitsOnly noSave m -> (forall a, grantsJustified J (k a)) -> grantsJustified J (bind m k).
Proof.
  intros Hm Hk w. unfold bind.
  destruct (Hm w) as [(a1 & E1 & F1) _].
  destruct (m w) as [w1 [err|a]]; simpl in *.
  - exists a1. repeat split; done.
  - destruct (Hk a w1) as (a2 & E2 & F2 & Hform).
    exists (a1 ++ a2). split; [by rewrite E2, E1, app_assoc|].
    split; [by apply Forall_app|].
    intros form Hf. apply justified_after. by apply Hform.
Qed.

Lemma savesAsJustified_quiet {A} (m : M A) : emitsOnly noSave m -> savesAsJustified J m.
Proof.
  intros Hm w. destruct (Hm w) as [(added & E & F) _].
  exists added. split; [done|].
  intros before access r after E'. by destruct (noSave_no_split _ _ _ _ _ F E').
Qed.

Lemma savesAsJustified_bind {A B} (m : M A) (k : A -> M B) :
  emitsOnly noSave m ->
  (forall a, savesAsJustified J (k a)) ->
  savesAsJustified J (bind m k).
Proof.
  intros Hm Hk w. unfold bind.
  destruct (Hm w) as [(a1 & E1 & F1) _].
  destruct (m w) as [w1 [err|a]]; simpl in *.
  - exists a1. split; [done|].
    intros before access r after E'. by destruct (noSave_no_split _ _ _ _ _ F1 E').
  - destruct (Hk a w1) as (a2 & E2 & H2).
    exists (a1 ++ a2). split; [by rewrite E2, E1, app_assoc|].
    intros before access r after E'.
    apply save_in_second in E' as (l & -> & E'); [|done].
    apply justified_after. by apply (H2 l access r after).
Qed.

Lemma savesAsJustified_bind_orReturn {A B} (r : error + A) f (k : A -> M B) :
  (forall a, r = inr a -> savesAsJustified J (k a)) ->
  savesAsJustified J (bind (orReturn r f) k).
Proof.
  intros Hk. destruct r as [err|a].
  - apply savesAsJustified_quiet. intros w. apply grows_refl.
  - intros w. by apply Hk.
Qed.

Lemma savesAsJustified_then {A B} (m : M A) (k : A -> M B) :
  savesAsJustified J m ->
  (forall a, emitsOnly noSave (k a)) ->
  savesAsJustified J (bind m k).
Proof.
  intros Hm Hk w. unfold bind.
  destruct (Hm w) as (a1 & E1 & H1).
  destruct (m w) as [w1 [err|a]]; simpl in *.
  - by exists a1.
  - destruct (Hk a w1) as [(a2 & E2 & F2) _].
    exists (a1 ++ a2). split; [by rewrite E2, E1, app_assoc|].
    intros before access r after E'.
    apply save_in_first in E' as (l & E' & _); [|done].
    by apply (H1 before access r l).
Qed.

Lemma savesAsJustified_Trigger {E} handlers (event : E) final :
  savesAsJustified J (final event) -> savesAsJustified J (Trigger handlers event final).
Proof.
  intros Hf. induction handlers as [|[|[err|]] rest IH]; simpl; auto.
  - apply savesAsJustified_quiet, emitsOnly_fail.
  - apply savesAsJustified_quiet, emitsOnly_ret.
Qed.

(** The closures of [recordCreate] and [recordUpdate]: the access of the
    form is settled, the form is submitted, and the rest saves nothing. *)
Lemma savesAsJustified_closure {B} env (grant : M RecordUpsert) f (rest : unit -> M B) :
  grantsJustified J grant ->
  emitsOnly noSave (rest tt) ->
  savesAsJustified J (bind grant (fun form => bind (try (Submit env form) f) rest)).
Proof.
  intros Hg Hrest w. unfold bind at 1.
  destruct (Hg w) as (a1 & E1 & F1 & Hform).
  destruct (grant w) as [w1 [err|form]]; simpl in *.
  { exists a1. split; [done|].
    intros before access r after E'. by destruct (noSave_no_split _ _ _ _ _ F1 E'). }
  specialize (Hform form eq_refl). unfold bind, try.
  destruct (Submit_saves env form w1) as (a2 & E2 & Ha2).
  assert (Hsaved : savesJustified J (a1 ++ a2)).
  { intros before access r after E'.
    apply save_in_second in E' as (l & -> & E'); [|done].
    destruct Ha2 as [->|[r' ->]]; [by destruct l|].
    destruct l as [|x l]; simpl in E'.
    - injection E' as <- _ _. by rewrite app_nil_r.
    - injection E' as _ E'. by destruct l. }
  destruct (Submit env form w1) as [w2 [err|[]]]; simpl in *.
  { exists (a1 ++ a2). split; [by rewrite E2, E1, app_assoc | done]. }
  destruct (Hrest w2) as [(a3 & E3 & F3) _].
  exists ((a1 ++ a2) ++ a3). split; [by rewrite E3, E2, E1, !app_assoc|].
  intros before access r after E'.
  apply save_in_first in E' as (l & E' & _); [|done].
  by apply (Hsaved before access r l).
Qed.

End Justified.

Lemma earned_lasting env su : lasting (earned env su).
Proof.
  intros before added after access. destruct access; simpl; try done.
  intros [? (q & Hin & Hq)]. split; [done|]. exists q. split; [|done].
  apply in_or_app. right. apply in_or_app. by left.
Qed.

Lemma ruleChecked_lasting env : lasting (ruleChecked env).
Proof.
  intros before added after access (q & Hin & Hq). exists q. split; [|done].
  apply in_or_app. right. apply in_or_app. by left.
Qed.

Lemma hasAuthManageAccess_grant env info c q :
  forall w, exists added,
    trace (fst (hasAuthManageAccess env info c q w)) = trace w ++ added /\
    Forall noSave added /\
    forall granted, snd (hasAuthManageAccess env info c q w) = inr granted ->
      granted = true -> manageGrantIn env added.
Proof.
  intros w. unfold hasAuthManageAccess.
  destruct (IsAuth c); simpl; [|exists []; rewrite app_nil_r; repeat split; try done; by intros ? [= <-]].
  destruct (ManageRule c) as [rule|]; [|exists []; rewrite app_nil_r; repeat split; try done; by intros ? [= <-]].
  destruct (String.eqb rule ""); [exists []; rewrite app_nil_r; repeat split; try done; by intros ? [= <-]|].
  destruct info as [info|]; [|exists []; rewrite app_nil_r; repeat split; try done; by intros ? [= <-]].
  destruct (Auth info); [|exists []; rewrite app_nil_r; repeat split; try done; by intros ? [= <-]].
  destruct (BuildExpr env rule _) as [err|[expr res]]; simpl.
  { eexists [_]. repeat split; [by repeat constructor|]. by intros ? [= <-]. }
  destruct (Row env _) as [[err|] ex] eqn:Hrow; simpl.
  { eexists [_]. repeat split; [by repeat constructor|]. by intros ? [= <-]. }
  eexists [_]. repeat split; [by repeat constructor|].
  intros ? [= <-] ->. eexists. split; [by left | exact Hrow].
Qed.

(** The access of the form once the manage rule was consulted. *)
Lemma grantsJustified_manage env su info c q form :
  earned env su [] (formAccess form) ->
  formAccess form <> AccessManager ->
  grantsJustified (earned env su)
    (if negb (HasManageAccess form)
     then do granted <- hasAuthManageAccess env info c q;
          ret (if granted then GrantManagerAccess form else form)
     else ret form).
Proof.
  intros Hform Hnm.
  destruct (HasManageAccess form) eqn:Hm; simpl; [by apply grantsJustified_ret|].
  intros w. unfold bind.
  destruct (hasAuthManageAccess_grant env info c q w) as (added & E & F & Hg).
  destruct (hasAuthManageAccess env info c q w) as [w1 [err|granted]]; simpl in *.
  - exists added. repeat split; done.
  - exists added. repeat split; try done.
    intros ? [= <-]. destruct granted; simpl.
    + split; [|by apply (Hg true)].
      unfold HasManageAccess in Hm. by destruct (formAccess form).
    + rewrite <- (app_nil_r added).
      by apply (justified_after _ (earned_lasting env su)).
Qed.

Ltac quiet_step :=
  first
    [ progress unfold checkCollectionRateLimit, respondJSON, respondNoContent, FindRecordById,
        NewRecord, Load, Delete, finalizeInline, finalizeAfterTrigger, callFinalizer,
        randomizedThrottle, hasAuthManageAccess, Clone, SetVerified
    | emits_step ].

Lemma grantsJustified_createRuleCheck env su info e form :
  earned env su [] (formAccess form) ->
  formAccess form <> AccessManager ->
  grantsJustified (earned env su) (createRuleCheck env su info e form).
Proof.
  intros Hform Hnm. unfold createRuleCheck.
  destruct (CreateRule (evCollection e)) as [rule|]; [|by apply grantsJustified_ret].
  destruct su; simpl negb; cbv iota; [by apply grantsJustified_ret|].
  repeat (apply (grantsJustified_bind _ (earned_lasting env false));
          [by repeat quiet_step | intros]).
  by apply grantsJustified_manage.
Qed.

Ltac earn_step lasts :=
  match goal with
  | |- savesAsJustified _ (bind (orReturn _ _) _) =>
      apply savesAsJustified_bind_orReturn;
      let H := fresh "H" in intros ? H; try (injection H as <-)
  | |- savesAsJustified _ (bind (Trigger _ _ _) _) =>
      apply savesAsJustified_then;
      [apply savesAsJustified_Trigger; cbv beta zeta | intros; by repeat quiet_step]
  | |- savesAsJustified _ (bind (createRuleCheck _ _ _ _ _) _) => fail 1
  | |- savesAsJustified _ (bind (if negb (HasManageAccess _) then _ else _) _) => fail 1
  | |- savesAsJustified _ (bind _ _) =>
      apply (savesAsJustified_bind _ lasts); [by repeat quiet_step | intros]
  end.

Lemma handler_saves_as_earned op fin env e info :
  RequestInfoResult env = inr info ->
  savesAsJustified (earned env (HasSuperuserAuth info)) (handler op fin env e).
Proof.
  intros Hri.
  pose proof (earned_lasting env (HasSuperuserAuth info)) as Hlasts.
  destruct op; simpl;
    [ unfold recordsList | unfold recordView | unfold recordCreate
    | unfold recordUpdate | unfold recordDelete ];
    destruct (FindCachedCollectionByNameOrId env (pathCollection e)) as [[c|] [err|]];
    try (apply savesAsJustified_quiet, emitsOnly_fail);
    try (apply savesAsJustified_quiet; by repeat quiet_step);
    rewrite Hri; repeat earn_step Hlasts.
  - apply savesAsJustified_closure; [|by repeat quiet_step].
    apply grantsJustified_createRuleCheck; simpl;
      destruct (HasSuperuserAuth info); simpl; done.
  - cbv zeta. apply savesAsJustified_closure; [|by repeat quiet_step].
    apply grantsJustified_manage; simpl;
      destruct (HasSuperuserAuth info); simpl; done.
Qed.

(** X7.  The access with which a handler submits the form is earned by
    what the run did before: a record is saved with superuser access only
    for a caller with superuser auth; with manager access only for a
    caller without superuser auth and after a manage rule query of the
    run answered, without error, that a row exists; and with default
    access only for a caller without superuser auth. *)
Theorem save_access_is_earned :
  forall (op : Op) (optFinalizer : Finalizer) (env : Env) (e : RequestEvent) (w : World)
         (info : RequestInfo) (access : Access) (r : RecordObj),
    RequestInfoResult env = inr info ->
    forall before after : list Effect,
      effectsOf (handler op optFinalizer env e) w = before ++ EffSave access r :: after ->
      earned env (HasSuperuserAuth info) before access.
Proof.
  intros op fin env e w info access r Hri before after.
  destruct (handler_saves_as_earned op fin env e info Hri w) as (added & E & H).
  rewrite (effectsOf_app _ _ _ E). apply H.
Qed.

(** A user creating a record in an auth collection whose manage rule
    lets the user through: the save runs with manager access, after the
    manage rule query. *)
Lemma save_access_witness :
  earned (sampleEnv authCollection user) (HasSuperuserAuth user)
    (take 3 (effectsOf (handler OpCreate None (sampleEnv authCollection user)
                          (sampleRequest ""))
               (sampleWorld [])))
    AccessManager.
Proof.
  eapply (save_access_is_earned OpCreate None (sampleEnv authCollection user)
            (sampleRequest "") (sampleWorld []) user AccessManager _ eq_refl _
            (drop 4 (effectsOf (handler OpCreate None (sampleEnv authCollection user)
                                  (sampleRequest ""))
                       (sampleWorld [])))).
  reflexivity.
Defined.

(** The check of a non-empty create rule: it yields only once its query
    answered that a row exists. *)
Lemma createRuleQuery_grant env rule (q : SelectQuery) resolver :
  forall w, exists added,
    trace (fst ((do (expr, resolver) <- orReturn (BuildExpr env rule resolver)
                   (fun err => BadRequestError "Failed to create record"
                      (Some (WrapError "create rule build expression failure" (Some err))));
                 let ruleQuery := UpdateQuery resolver (AndWhere q expr) in
                 do _ <- emit (EffQueryRow CreateRuleQuery (Limit ruleQuery 1));
                 let '(err, exists_) := Row env (Limit ruleQuery 1) in
                 returnIf (negb (isNil err) || negb exists_)
                   (BadRequestError "Failed to create record"
                      (Some (WrapError "create rule failure" err)))) w)) = trace w ++ added /\
    Forall noSave added /\
    forall a,
      snd ((do (expr, resolver) <- orReturn (BuildExpr env rule resolver)
              (fun err => BadRequestError "Failed to create record"
                 (Some (WrapError "create rule build expression failure" (Some err))));
            let ruleQuery := UpdateQuery resolver (AndWhere q expr) in
            do _ <- emit (EffQueryRow CreateRuleQuery (Limit ruleQuery 1));
            let '(err, exists_) := Row env (Limit ruleQuery 1) in
            returnIf (negb (isNil err) || negb exists_)
              (BadRequestError "Failed to create record"
                 (Some (WrapError "create rule failure" err)))) w) = inr a ->
      createGrantIn env added.
Proof.
  intros w. unfold bind.
  destruct (BuildExpr env rule resolver) as [err|[expr res]]; simpl.
  { exists []. rewrite app_nil_r. repeat split; try done. }
  destruct (Row env _) as [[err|] ex] eqn:Hrow; simpl.
  { eexists [_]. repeat split; [by repeat constructor | done]. }
  destruct ex; simpl.
  - eexists [_]. repeat split; [by repeat constructor|].
    intros _ _. eexists. split; [by left | exact Hrow].
  - eexists [_]. repeat split; [by repeat constructor | done].
Qed.

Lemma grantsJustified_after_check env (check : M unit) (k : unit -> M RecordUpsert) :
  (forall w, exists added,
     trace (fst (check w)) = trace w ++ added /\ Forall noSave added /\
     forall a, snd (check w) = inr a -> createGrantIn env added) ->
  (forall a, emitsOnly noSave (k a)) ->
  grantsJustified (ruleChecked env) (bind check k).
Proof.
  intros Hc Hk w. unfold bind.
  destruct (Hc w) as (a1 & E1 & F1 & Hg).
  destruct (check w) as [w1 [err|a]]; simpl in *.
  - exists a1. repeat split; done.
  - destruct (Hk a w1) as [(a2 & E2 & F2) _].
    exists (a1 ++ a2). split; [by rewrite E2, E1, app_assoc|].
    split; [by apply Forall_app|].
    intros form _. apply (justified_before _ (ruleChecked_lasting env)).
    by apply (Hg a).
Qed.

Lemma grantsJustified_createRuleCheck_rule env info e form rule :
  CreateRule (evCollection e) = Some rule ->
  rule <> "" ->
  grantsJustified (ruleChecked env) (createRuleCheck env false info e form).
Proof.
  intros Hrule Hne. apply String.eqb_neq in Hne.
  unfold createRuleCheck. rewrite Hrule. cbn [negb].
  do 7 (apply (grantsJustified_bind _ (ruleChecked_lasting env));
        [by repeat quiet_step | intros]).
  rewrite Hne. cbn [negb].
  apply grantsJustified_after_check.
  - apply createRuleQuery_grant.
  - intros []. repeat quiet_step.
Qed.

(** X8.  For a caller without superuser auth and a create rule that is
    neither nil nor empty, [recordCreate] saves the record only after a
    create rule query of the run answered, without error, that a row
    exists: before every save of a run there is such a query among its
    calls. *)
Theorem create_saves_only_after_the_rule_passed :
  forall (optFinalizer : Finalizer) (env : Env) (e : RequestEvent) (w : World)
         (c : Collection) (info : RequestInfo) (rule : string) (access : Access)
         (r : RecordObj),
    FindCachedCollectionByNameOrId env (pathCollection e) = (Some c, None) ->
    RequestInfoResult env = inr info ->
    HasSuperuserAuth info = false ->
    CreateRule c = Some rule ->
    rule <> "" ->
    forall before after : list Effect,
      effectsOf (recordCreate optFinalizer env e) w = before ++ EffSave access r :: after ->
      createGrantIn env before.
Proof.
  intros fin env e w c info rule access r Hc Hri Hsu Hrule Hne before after.
  pose proof (ruleChecked_lasting env) as Hlasts.
  assert (H : savesAsJustified (ruleChecked env) (recordCreate fin env e)).
  { unfold recordCreate. rewrite Hc, Hri. repeat earn_step Hlasts.
    apply savesAsJustified_closure; [|by repeat quiet_step].
    rewrite Hsu. by apply (grantsJustified_createRuleCheck_rule _ _ _ _ rule). }
  destruct (H w) as (added & E & Hs).
  rewrite (effectsOf_app _ _ _ E). apply (Hs before access r after).
Qed.

(** A guest creating a record that the create rule lets through. *)
Lemma create_saves_witness :
  createGrantIn (sampleEnv ruledCollection guest)
    (take 3 (effectsOf (recordCreate None (sampleEnv ruledCollection guest) (sampleRequest ""))
               (sampleWorld []))).
Proof.
  eapply (create_saves_only_after_the_rule_passed None (sampleEnv ruledCollection guest)
            (sampleRequest "") (sampleWorld []) ruledCollection guest "public = true"
            AccessDefault _ eq_refl eq_refl eq_refl eq_refl ltac:(discriminate) _
            (drop 4 (effectsOf (recordCreate None (sampleEnv ruledCollection guest)
                                  (sampleRequest ""))
                       (sampleWorld [])))).
  reflexivity.
Defined.

(** ** The parameters of the create rule query *)

Lemma dummyParams_fold env l :
  forall (params : gmap string Value),
    NoDup (dummyParam env <$> (fst <$> l)) ->
    forall k,
      (forall v, (k, v) ∈ l ->
         foldl (fun params kv => <["__hb_create__" +:+ Columnify env (fst kv) := snd kv]> params)
           params l !! dummyParam env k = Some v) /\
      (forall p, p ∉ dummyParam env <$> (fst <$> l) ->
         foldl (fun params kv => <["__hb_create__" +:+ Columnify env (fst kv) := snd kv]> params)
           params l !! p = params !! p).
Proof.
  induction l as [|[k0 v0] rest IH]; intros params Hnd k.
  { split; [by intros ? ?%elem_of_nil | done]. }
  rewrite !fmap_cons in Hnd. apply NoDup_cons in Hnd as [Hnotin Hnd]. simpl in Hnotin.
  cbn [foldl fst snd]. split.
  - intros v Hin. apply elem_of_cons in Hin as [[= -> ->]|Hin].
    + destruct (IH (<["__hb_create__" +:+ Columnify env k0 := v0]> params) Hnd k0) as [_ IH2].
      rewrite IH2 by done. apply lookup_insert_eq.
    + destruct (IH (<["__hb_create__" +:+ Columnify env k0 := v0]> params) Hnd k) as [IH1 _].
      by apply IH1.
  - intros p Hp. rewrite !fmap_cons in Hp. apply not_elem_of_cons in Hp as [Hne Hp].
    destruct (IH (<["__hb_create__" +:+ Columnify env k0 := v0]> params) Hnd k) as [_ IH2].
    rewrite IH2 by done. by apply lookup_insert_ne.
Qed.

(** X9.  When no two fields of the exported dummy record have the same
    column name, the parameters of the create and manage rule queries
    bind every exported field under its own name: the parameter
    [__hb_create__] followed by the column name holds the exported value
    of the field, and there is no other parameter. *)
Theorem dummy_params_bind_each_exported_field :
  forall (env : Env) (dummyExport : gmap string Value),
    (forall k1 k2, is_Some (dummyExport !! k1) -> is_Some (dummyExport !! k2) ->
       Columnify env k1 = Columnify env k2 -> k1 = k2) ->
    (forall k v, dummyExport !! k = Some v ->
       dummyParamsOf env dummyExport !! dummyParam env k = Some v) /\
    (forall p, is_Some (dummyParamsOf env dummyExport !! p) ->
       exists k, is_Some (dummyExport !! k) /\ p = dummyParam env k).
Proof.
  intros env ex Hinj.
  assert (Hnd : NoDup (dummyParam env <$> (fst <$> map_to_list ex))).
  { apply NoDup_fmap_2_strong; [|apply NoDup_fst_map_to_list].
    intros k1 k2 H1 H2 Heq.
    apply list_elem_of_fmap in H1 as ([k1' v1] & -> & H1).
    apply list_elem_of_fmap in H2 as ([k2' v2] & -> & H2).
    apply elem_of_map_to_list in H1, H2. simpl in *.
    apply Hinj; [by eexists | by eexists |].
    unfold dummyParam in Heq. by apply (inj (String.append "__hb_create__")) in Heq. }
  unfold dummyParamsOf. split.
  - intros k v Hk. destruct (dummyParams_fold env (map_to_list ex) ∅ Hnd k) as [Hin _].
    apply Hin. by apply elem_of_map_to_list.
  - intros p Hp.
    destruct (decide (p ∈ dummyParam env <$> (fst <$> map_to_list ex))) as [Hin|Hnin].
    + apply list_elem_of_fmap in Hin as (k & -> & Hk).
      apply list_elem_of_fmap in Hk as ([k' v] & -> & Hk).
      apply elem_of_map_to_list in Hk. exists k'. split; [by eexists | done].
    + destruct (dummyParams_fold env (map_to_list ex) ∅ Hnd "") as [_ Hout].
      rewrite (Hout p Hnin), lookup_empty in Hp. by destruct Hp.
Qed.

(** The export of a record with two fields. *)
Lemma dummy_params_witness :
  dummyParamsOf (sampleEnv ruledCollection guest)
    {[ "public" := VBool true; "verified" := VBool false ]} !!
    dummyParam (sampleEnv ruledCollection guest) "verified" = Some (VBool false).
Proof.
  apply (proj1 (dummy_params_bind_each_exported_field (sampleEnv ruledCollection guest)
                  {[ "public" := VBool true; "verified" := VBool false ]}
                  (fun k1 k2 _ _ H => H))).
  vm_compute. reflexivity.
Defined.

(** ** The order of the calls *)

Lemma inOrder_app op l1 l2 :
  inOrder op l1 -> inOrder op l2 ->
  (forall a b, In a l1 -> In b l2 -> mayFollow op a b) ->
  inOrder op (l1 ++ l2).
Proof.
  induction l1 as [|a l1 IH]; simpl; intros H1 H2 H12; [done|].
  destruct H1 as [Ha H1]. split.
  - apply Forall_app. split; [done|].
    apply Forall_forall. intros b Hb. apply H12; [by left|].
    by apply list_elem_of_In.
  - apply IH; try done. intros a' b Ha' Hb. apply H12; [by right | done].
Qed.

Lemma stages_in P added s :
  Forall P added -> In s (omap stage added) ->
  exists eff, P eff /\ stage eff = Some s.
Proof.
  intros Hall Hin. apply list_elem_of_In in Hin.
  apply list_elem_of_omap in Hin as (eff & Heff & Hs).
  exists eff. split; [|done]. rewrite Forall_forall in Hall. by apply Hall.
Qed.

Lemma ordered_bind {A B} op h (m : M A) (k : A -> M B) :
  emitsOnly (upTo h) m -> (forall a, emitsOnly (beyond h) (k a)) ->
  ordered op m -> (forall a, ordered op (k a)) ->
  ordered op (bind m k).
Proof.
  intros Hup Hafter Hm Hk w. unfold bind.
  destruct (Hm w) as (a1 & E1 & O1). destruct (Hup w) as [(a1' & E1' & F1) _].
  assert (a1' = a1) as -> by (rewrite E1 in E1'; by apply app_inv_head in E1').
  destruct (m w) as [w1 [err|a]]; simpl in *; [by exists a1|].
  destruct (Hk a w1) as (a2 & E2 & O2). destruct (Hafter a w1) as [(a2' & E2' & F2) _].
  assert (a2' = a2) as -> by (rewrite E2 in E2'; by apply app_inv_head in E2').
  exists (a1 ++ a2). split; [by rewrite E2, E1, app_assoc|].
  rewrite omap_app. apply inOrder_app; try done.
  intros s1 s2 H1 H2.
  destruct (stages_in _ _ _ F1 H1) as (e1 & U1 & S1).
  destruct (stages_in _ _ _ F2 H2) as (e2 & U2 & S2).
  unfold upTo in U1. unfold beyond in U2. rewrite S1 in U1. rewrite S2 in U2.
  apply Nat.leb_le in U1. apply Nat.ltb_lt in U2. left. lia.
Qed.

Lemma ordered_bind_fetch {A B} (m : M A) (k : A -> M B) :
  emitsOnly (upTo 1) m -> (forall a, emitsOnly (atLeast 1) (k a)) ->
  ordered OpUpdate m -> (forall a, ordered OpUpdate (k a)) ->
  ordered OpUpdate (bind m k).
Proof.
  intros Hup Hafter Hm Hk w. unfold bind.
  destruct (Hm w) as (a1 & E1 & O1). destruct (Hup w) as [(a1' & E1' & F1) _].
  assert (a1' = a1) as -> by (rewrite E1 in E1'; by apply app_inv_head in E1').
  destruct (m w) as [w1 [err|a]]; simpl in *; [by exists a1|].
  destruct (Hk a w1) as (a2 & E2 & O2). destruct (Hafter a w1) as [(a2' & E2' & F2) _].
  assert (a2' = a2) as -> by (rewrite E2 in E2'; by apply app_inv_head in E2').
  exists (a1 ++ a2). split; [by rewrite E2, E1, app_assoc|].
  rewrite omap_app. apply inOrder_app; try done.
  intros s1 s2 H1 H2.
  destruct (stages_in _ _ _ F1 H1) as (e1 & U1 & S1).
  destruct (stages_in _ _ _ F2 H2) as (e2 & U2 & S2).
  unfold upTo in U1. unfold atLeast in U2. rewrite S1 in U1. rewrite S2 in U2.
  apply Nat.leb_le in U1. apply Nat.leb_le in U2. unfold mayFollow.
  destruct (decide (s1 < s2)); [by left|]. right. repeat split; lia.
Qed.

Lemma ordered_silent {A} op (m : M A) : emitsOnly (fun _ => False) m -> ordered op m.
Proof.
  intros Hm w. destruct (Hm w) as [(added & E & F) _].
  exists added. split; [done|]. destruct added as [|eff ?]; [done|].
  by apply Forall_cons in F as [[] _].
Qed.

Lemma ordered_emit op eff : ordered op (emit eff).
Proof.
  intros w. exists [eff]. split; [done|]. simpl. by destruct (stage eff).
Qed.

Lemma ordered_try {A} op (m : M A) f : ordered op m -> ordered op (try m f).
Proof. intros Hm w. unfold try. specialize (Hm w). by destruct (m w) as [w' [err|a]]. Qed.

Lemma ordered_Trigger {E} op handlers (event : E) final :
  ordered op (final event) -> ordered op (Trigger handlers event final).
Proof.
  intros Hf. induction handlers as [|[|[err|]] rest IH]; simpl; auto.
  - apply ordered_silent, emitsOnly_fail.
  - apply ordered_silent, emitsOnly_ret.
Qed.

Lemma ordered_checkRateLimit op rtId rule : ordered op (checkRateLimit rtId rule).
Proof.
  intros w. unfold checkRateLimit.
  destruct (Nat.ltb _ _); by exists [EffRateLimit rtId].
Qed.

Ltac unfold_calls :=
  progress unfold checkCollectionRateLimit, respondJSON, respondNoContent, FindRecordById,
    NewRecord, Load, Submit, Delete, finalizeInline, finalizeAfterTrigger, callFinalizer,
    randomizedThrottle, hasAuthManageAccess, createRuleCheck, Clone, SetVerified.

Ltac calls_step := first [ unfold_calls | emits_step ].

Ltac calls := by repeat calls_step.

Ltac split_at h := apply (ordered_bind _ h); [calls | intros; calls | | intros].

Ltac order_step :=
  match goal with
  | |- ordered _ (bind _ _) =>
      first [ split_at 0 | split_at 1 | split_at 2 | split_at 3 | split_at 4
            | split_at 5 | split_at 6 | split_at 7
            | apply ordered_bind_fetch; [calls | intros; calls | | intros] ]
  | |- ordered _ (emit _) => apply ordered_emit
  | |- ordered _ (try _ _) => apply ordered_try
  | |- ordered _ (Trigger _ _ _) => apply ordered_Trigger; cbv beta zeta
  | |- ordered _ (checkRateLimit _ _) => apply ordered_checkRateLimit
  | |- ordered _ (match ?x with _ => _ end) => destruct x
  | |- ordered _ (if ?b then _ else _) => destruct b
  | |- ordered _ (let '(_, _) := ?x in _) => destruct x
  | |- ordered _ _ => apply ordered_silent; calls
  | |- ordered _ _ => unfold_calls
  end.

(** The stages of a guest's create request under a create rule, and of
    an update request on an open collection. *)
Example stages_of_sample_requests :
  omap stage (effectsOf (handler OpCreate sampleFinalizer (sampleEnv ruledCollection guest)
                           (sampleRequest ""))
                (sampleWorld [])) = [2; 3; 6; 7] /\
  omap stage (effectsOf (handler OpUpdate sampleFinalizer (sampleEnv openCollection guest)
                           (sampleRequest "r1"))
                (sampleWorld [publicRow])) = [1; 1; 6; 7].
Proof. split; reflexivity. Qed.

(** X10.  The calls of every run of the five handlers come in the order of
    the stages, each stage at most once: the search or the fetch of the
    record (twice in [recordUpdate], which fetches the record again with
    the rule), the export of the dummy record, the create rule query, the
    manage rule query, the sleep of the throttle, the save or the delete,
    the response.  So no rule query follows a save, nothing is saved or
    deleted once the response is written, and no run saves or responds
    twice. *)
Theorem calls_come_in_the_order_of_the_stages :
  forall (op : Op) (optFinalizer : Finalizer) (env : Env) (e : RequestEvent) (w : World),
    inOrder op (omap stage (effectsOf (handler op optFinalizer env e) w)).
Proof.
  intros op fin env e w.
  assert (H : ordered op (handler op fin env e)).
  { destruct op; simpl;
      [ unfold recordsList | unfold recordView | unfold recordCreate
      | unfold recordUpdate | unfold recordDelete ];
      repeat order_step. }
  destruct (H w) as (added & E & O). by rewrite (effectsOf_app _ _ _ E).
Qed.

(** ** The reading handlers, and a stopped hook chain *)

Lemma keepsRows_ret {A} (a : A) : keepsRows (ret a).
Proof. by intros w. Qed.

Lemma keepsRows_fail {A} e : keepsRows (@fail A e).
Proof. by intros w. Qed.

Lemma keepsRows_emit eff : keepsRows (emit eff).
Proof. by intros w. Qed.

Lemma keepsRows_get : keepsRows get.
Proof. by intros w. Qed.

Lemma keepsRows_alloc r : keepsRows (alloc r).
Proof. by intros w. Qed.

Lemma keepsRows_load p : keepsRows (load p).
Proof. intros w. unfold load. by destruct (heap w !! p). Qed.

Lemma keepsRows_bind {A B} (m : M A) (k : A -> M B) :
  keepsRows m -> (forall a, keepsRows (k a)) -> keepsRows (bind m k).
Proof.
  intros Hm Hk w. unfold bind. specialize (Hm w).
  destruct (m w) as [w' [err|a]]; simpl in *; [done|].
  by rewrite Hk.
Qed.

Lemma keepsRows_try {A} (m : M A) f : keepsRows m -> keepsRows (try m f).
Proof. intros Hm w. unfold try. specialize (Hm w). by destruct (m w) as [w' [err|a]]. Qed.

Lemma keepsRows_returnIf b e : keepsRows (returnIf b e).
Proof. by destruct b. Qed.

Lemma keepsRows_returnErr err f : keepsRows (returnErr err f).
Proof. by destruct err. Qed.

Lemma keepsRows_orReturn {A} (r : error + A) f : keepsRows (orReturn r f).
Proof. by destruct r. Qed.

Lemma keepsRows_checkRateLimit rtId rule : keepsRows (checkRateLimit rtId rule).
Proof. intros w. unfold checkRateLimit. by destruct (Nat.ltb _ _). Qed.

Lemma keepsRows_Trigger {E} handlers (event : E) final :
  keepsRows (final event) -> keepsRows (Trigger handlers event final).
Proof.
  intros Hf. induction handlers as [|[|[err|]] rest IH]; simpl; auto.
  - apply keepsRows_fail.
  - apply keepsRows_ret.
Qed.

Ltac rows_step :=
  match goal with
  | |- keepsRows (bind _ _) => apply keepsRows_bind; [|intros]
  | |- keepsRows (ret _) => apply keepsRows_ret
  | |- keepsRows (fail _) => apply keepsRows_fail
  | |- keepsRows (try _ _) => apply keepsRows_try
  | |- keepsRows (emit _) => apply keepsRows_emit
  | |- keepsRows get => apply keepsRows_get
  | |- keepsRows (alloc _) => apply keepsRows_alloc
  | |- keepsRows (load _) => apply keepsRows_load
  | |- keepsRows (returnIf _ _) => apply keepsRows_returnIf
  | |- keepsRows (returnErr _ _) => apply keepsRows_returnErr
  | |- keepsRows (orReturn _ _) => apply keepsRows_orReturn
  | |- keepsRows (checkRateLimit _ _) => apply keepsRows_checkRateLimit
  | |- keepsRows (Trigger _ _ _) => apply keepsRows_Trigger
  | |- keepsRows (match ?x with _ => _ end) => destruct x
  | |- keepsRows (let '(_, _) := ?x in _) => destruct x
  | |- keepsRows _ =>
      progress unfold checkCollectionRateLimit, respondJSON, FindRecordById, randomizedThrottle
  end.

(** X11.  [recordsList] and [recordView] only read: a run of either leaves
    the persisted rows as they were, and among its calls there is no save,
    no delete, no export of a dummy record, no rule query of its own and
    no finalizer. *)
Theorem reading_handlers_change_no_row :
  forall (env : Env) (e : RequestEvent) (w : World),
    (rows (fst (recordsList env e w)) = rows w /\
     Forall readCall (effectsOf (recordsList env e) w)) /\
    (rows (fst (recordView env e w)) = rows w /\
     Forall readCall (effectsOf (recordView env e) w)).
Proof.
  intros env e w.
  assert (Hlist : emitsOnly readCall (recordsList env e)).
  { unfold recordsList. repeat quiet_step. }
  assert (Hview : emitsOnly readCall (recordView env e)).
  { unfold recordView. repeat quiet_step. }
  split; split.
  - revert w. change (keepsRows (recordsList env e)).
    unfold recordsList. repeat rows_step.
  - destruct (Hlist w) as [(added & E & F) _]. by rewrite (effectsOf_app _ _ _ E).
  - revert w. change (keepsRows (recordView env e)).
    unfold recordView. repeat rows_step.
  - destruct (Hview w) as [(added & E & F) _]. by rewrite (effectsOf_app _ _ _ E).
Qed.

Lemma Trigger_stopped {E} P handlers (event : E) final :
  existsb stops handlers = true -> emitsOnly P (Trigger handlers event final).
Proof.
  induction handlers as [|[|[err|]] rest IH]; simpl; intros H; try done.
  - by apply IH.
  - apply emitsOnly_fail.
  - apply emitsOnly_ret.
Qed.

Ltac stopped_step H :=
  first
    [ match goal with
      | |- emitsOnly _ (Trigger _ _ _) => apply Trigger_stopped; exact H
      end
    | progress unfold checkCollectionRateLimit, FindRecordById, NewRecord, Load,
        finalizeAfterTrigger, callFinalizer
    | emits_step ].

(** X12.  When one of the handlers registered on the hook of an operation
    stops the chain (it returns without calling [Next]), the closure that
    the handler passed to the trigger does not run: the run makes no call
    but the collection's rate limiter, the search or the fetch that
    precede the trigger, and the finalizer.  Nothing is saved or deleted,
    no rule or manage query is run and no response is written. *)
Theorem stopped_hook_chain_skips_the_action :
  forall (op : Op) (optFinalizer : Finalizer) (env : Env) (e : RequestEvent),
    existsb stops (hooksOf op env) = true ->
    emitsOnly beforeTheHooks (handler op optFinalizer env e).
Proof.
  intros op fin env e Hstop.
  destruct op; simpl in *;
    [ unfold recordsList | unfold recordView | unfold recordCreate
    | unfold recordUpdate | unfold recordDelete ];
    repeat stopped_step Hstop.
Qed.

(** A delete request whose second hook handler stops the chain. *)
Lemma stopped_hook_chain_witness :
  emitsOnly beforeTheHooks
    (handler OpDelete sampleFinalizer
       (withHooks (sampleEnv openCollection guest) [HookNext; HookStop None])
       (sampleRequest "r1")).
Proof.
  apply (stopped_hook_chain_skips_the_action OpDelete sampleFinalizer
           (withHooks (sampleEnv openCollection guest) [HookNext; HookStop None])
           (sampleRequest "r1")).
  reflexivity.
Defined.

(** ** Acting on a record under a rule *)

Lemma action_in_second a1 a2 before action after :
  Forall notAction a1 -> isAction action = true ->
  a1 ++ a2 = before ++ action :: after ->
  exists l, before = a1 ++ l /\ a2 = l ++ action :: after.
Proof.
  intros F1 Ha E. apply app_eq_inv in E as [(k & E1 & E2)|(k & E1 & E2)].
  - destruct k as [|x k]; simpl in E2.
    + exists []. rewrite app_nil_r in E1. rewrite app_nil_r. by subst.
    + injection E2 as <- _. subst a1.
      apply Forall_app in F1 as [_ F1]. apply Forall_cons in F1 as [F1 _].
      unfold notAction in F1. congruence.
  - by exists k.
Qed.

Lemma guarded_quiet {A} G (m : M A) : emitsOnly notAction m -> guarded G m.
Proof.
  intros Hm w. destruct (Hm w) as [(added & E & F) _].
  exists added. split; [done|]. intros before action after Ha ->.
  apply Forall_app in F as [_ F]. apply Forall_cons in F as [F _].
  unfold notAction in F. congruence.
Qed.

Lemma guarded_bind {A B} G (m : M A) (k : A -> M B) :
  (forall before l persisted, G l persisted -> G (before ++ l) persisted) ->
  emitsOnly notAction m -> keepsRows m ->
  (forall a, guarded G (k a)) ->
  guarded G (bind m k).
Proof.
  intros Hlast Hm Hrows Hk w. unfold bind.
  destruct (Hm w) as [(a1 & E1 & F1) _]. specialize (Hrows w).
  destruct (m w) as [w1 [err|a]]; simpl in *.
  - exists a1. split; [done|]. intros before action after Ha ->.
    apply Forall_app in F1 as [_ F1]. apply Forall_cons in F1 as [F1 _].
    unfold notAction in F1. congruence.
  - destruct (Hk a w1) as (a2 & E2 & H2).
    exists (a1 ++ a2). split; [by rewrite E2, E1, app_assoc|].
    intros before action after Ha E.
    apply action_in_second in E as (l & -> & E); [|done|done].
    apply Hlast. rewrite <- Hrows. by apply (H2 l action after).
Qed.

Lemma guarded_bind_orReturn {A B} G (r : error + A) f (k : A -> M B) :
  (forall a, r = inr a -> guarded G (k a)) ->
  guarded G (bind (orReturn r f) k).
Proof.
  intros Hk. destruct r as [err|a].
  - apply guarded_quiet. intros w. apply grows_refl.
  - intros w. by apply Hk.
Qed.

(** A computation that lets the run go on only once [G] holds. *)
Lemma guarded_gate {A B} (G : list Effect -> list RecordObj -> Prop) (gate : M A)
    (rest : A -> M B) :
  (forall l after persisted, G l persisted -> G (l ++ after) persisted) ->
  (forall w, exists added,
     trace (fst (gate w)) = trace w ++ added /\ Forall notAction added /\
     forall a, snd (gate w) = inr a -> G added (rows w)) ->
  (forall a, emitsOnly anyEffect (rest a)) ->
  guarded G (bind gate rest).
Proof.
  intros Hlast Hgate Hrest w. unfold bind.
  destruct (Hgate w) as (a1 & E1 & F1 & HG).
  destruct (gate w) as [w1 [err|a]]; simpl in *.
  - exists a1. split; [done|]. intros before action after Ha ->.
    apply Forall_app in F1 as [_ F1]. apply Forall_cons in F1 as [F1 _].
    unfold notAction in F1. congruence.
  - destruct (Hrest a w1) as [(a2 & E2 & _) _].
    exists (a1 ++ a2). split; [by rewrite E2, E1, app_assoc|].
    intros before action after Ha E.
    apply action_in_second in E as (l & -> & E); [|done|done].
    apply Hlast. by apply (HG a).
Qed.

Lemma letThrough_after env c rule e info' before l persisted :
  letThrough env c rule e info' l persisted ->
  letThrough env c rule e info' (before ++ l) persisted.
Proof.
  intros (expr & compiled & row & H1 & H2 & H3).
  exists expr, compiled, row. repeat split; try tauto.
  apply in_or_app. by right.
Qed.

Lemma letThrough_before env c rule e info' l after persisted :
  letThrough env c rule e info' l persisted ->
  letThrough env c rule e info' (l ++ after) persisted.
Proof.
  intros (expr & compiled & row & H1 & H2 & H3).
  exists expr, compiled, row. repeat split; try tauto.
  apply in_or_app. by left.
Qed.

(** A run that made no action so far. *)
Lemma guarded_so_far (G : list Effect -> list RecordObj -> Prop) w (log : list Effect)
    added :
  log = trace w ++ added ->
  Forall notAction added ->
  exists added,
    log = trace w ++ added /\
    forall before action after,
      isAction action = true -> added = before ++ action :: after -> G before (rows w).
Proof.
  intros E F. exists added. split; [done|]. intros before action after Ha ->.
  apply Forall_app in F as [_ F]. apply Forall_cons in F as [F _].
  unfold notAction in F. congruence.
Qed.

(** The fetch with the rule: it yields a record only when a persisted row
    with the id satisfies the compiled rule. *)
Lemma ruled_fetch env c info' rule id f :
  rule <> "" ->
  forall w, exists added,
    trace (fst (try (FindRecordById c id [ruleFunc env false c info' (Some rule)]) f w)) =
      trace w ++ added /\
    Forall notAction added /\
    forall p,
      snd (try (FindRecordById c id [ruleFunc env false c info' (Some rule)]) f w) = inr p ->
      exists expr compiled row,
        BuildExpr env rule (NewRecordFieldResolver c (Some info') true) = inr (expr, compiled) /\
        In (EffFindRecord (AndWhere (UpdateQuery compiled (idQuery c id)) expr)) added /\
        In row (rows w) /\
        Name (recCollection row) = Name c /\
        recId row = id /\
        exprHolds expr row = true.
Proof.
  intros Hne w. apply String.eqb_neq in Hne. unfold try.
  destruct (BuildExpr env rule (NewRecordFieldResolver c (Some info') true))
    as [err|[expr compiled]] eqn:Hb.
  - rewrite (FindRecordById_err _ _ _ err).
    + exists []. rewrite app_nil_r. repeat split; done.
    + simpl. unfold ruleFunc. simpl. rewrite Hne. simpl. by rewrite Hb.
  - rewrite (FindRecordById_eq _ _ _ (AndWhere (UpdateQuery compiled (idQuery c id)) expr)).
    2:{ simpl. unfold ruleFunc. simpl. rewrite Hne. simpl. by rewrite Hb. }
    destruct (List.filter _ (rows w)) as [|row rest] eqn:Hf; simpl.
    + eexists [_]. repeat split; [by repeat constructor | done].
    + eexists [_]. split; [done|]. split; [by repeat constructor|].
      intros p _. exists expr, compiled, row.
      assert (Hin : In row (List.filter
                (matches (AndWhere (UpdateQuery compiled (idQuery c id)) expr)) (rows w))).
      { rewrite Hf. by left. }
      apply filter_In in Hin as [Hin Hm].
      unfold matches in Hm. simpl in Hm.
      apply andb_true_iff in Hm as [Hname Hm].
      apply andb_true_iff in Hm as [Hid Hexpr].
      rewrite andb_true_r in Hexpr. apply String.eqb_eq in Hname, Hid.
      repeat split; try done. by left.
Qed.

Ltac guard_step :=
  match goal with
  | |- guarded _ (bind (orReturn _ _) _) =>
      apply guarded_bind_orReturn;
      let H := fresh "H" in intros ? H; try (injection H as <-)
  | |- guarded _ (bind (try (FindRecordById _ _ [_]) _) _) => fail 1
  | |- guarded _ (bind _ _) =>
      apply guarded_bind;
      [ intros; by apply letThrough_after
      | by repeat quiet_step
      | by repeat rows_step
      | intros ]
  end.

(** The part of [recordView], [recordDelete] and [recordUpdate] from the
    fetch with the rule on. *)
Lemma guarded_from_the_fetch {B} env c info' rule e f (rest : loc -> M B) :
  rule <> "" ->
  (forall p, emitsOnly anyEffect (rest p)) ->
  guarded (letThrough env c rule e info')
    (bind (try (FindRecordById c (pathId e) [ruleFunc env false c info' (Some rule)]) f) rest).
Proof.
  intros Hne Hrest. apply guarded_gate; [intros; by apply letThrough_before | | done].
  intros w0.
  destruct (ruled_fetch env c info' rule (pathId e) f Hne w0) as (added & E & F & HG).
  exists added. split; [exact E|]. split; [exact F|]. intros p Hp.
  destruct (HG p Hp) as (expr & compiled & row & H1 & H2 & H3 & H4 & H5 & H6).
  exists expr, compiled, row. repeat split; by eauto.
Qed.

(** X13.  For a caller without superuser auth and a rule slot that is
    neither nil nor empty, [recordView], [recordUpdate] and
    [recordDelete] save, delete or respond only after the rule let the
    record through: before every such call of a run the rule was
    compiled, the record of the path's id was fetched with the compiled
    rule added, and among the rows persisted when the request came in
    there is a row of the collection with that id that satisfies the
    compiled rule.  For update the rule was compiled against the request
    info whose body is the submitted data: the data that
    [recordDataFromRequest] returns for the record that the fetch by the
    id alone found. *)
Theorem action_needs_a_row_that_satisfies_the_rule :
  forall (op : Op) (optFinalizer : Finalizer) (env : Env) (e : RequestEvent) (w : World)
         (c : Collection) (info : RequestInfo) (rule : string)
         (before after : list Effect) (action : Effect),
    isSingle op = true ->
    FindCachedCollectionByNameOrId env (pathCollection e) = (Some c, None) ->
    RequestInfoResult env = inr info ->
    HasSuperuserAuth info = false ->
    ruleSlot op c = Some rule ->
    rule <> "" ->
    isAction action = true ->
    effectsOf (handler op optFinalizer env e) w = before ++ action :: after ->
    entitled op env c info rule e before (rows w).
Proof.
  intros op fin env e w c info rule before after action Hop Hc Hri Hsu Hrule Hne Ha.
  assert (H : guarded (entitled op env c info rule e) (handler op fin env e)).
  { destruct op; try done; simpl in Hrule |- *.
    - assert (Hg : guarded (letThrough env c rule e info) (recordView env e)).
      { unfold recordView. rewrite Hc, Hri. repeat guard_step. cbv zeta. rewrite ?Hsu, Hrule.
        apply guarded_from_the_fetch; [done | intros; emits_handler]. }
      intros w0. destruct (Hg w0) as (added & E & HG). exists added. split; [done|].
      intros b a af Ha' Eq. exists info. split; [done|]. by apply (HG b a af).
    - intros w0. unfold recordUpdate, checkCollectionRateLimit. rewrite Hc, Hri. cbn.
      destruct (IsView c); cbn.
      { eapply (guarded_so_far _ w0); [by rewrite app_nil_r | constructor]. }
      destruct (checkCollectionRateLimitResult env c "update"); cbn.
      { eapply (guarded_so_far _ w0); [reflexivity | by repeat constructor]. }
      destruct (String.eqb (pathId e) ""); cbn.
      { eapply (guarded_so_far _ w0); [reflexivity | by repeat constructor]. }
      rewrite Hsu, Hrule. cbn.
      unfold bind at 1. unfold try at 1.
      erewrite FindRecordById_eq by reflexivity. fold (idQuery c (pathId e)). simpl rows.
      destruct (List.filter _ (rows w0)) as [|fetched others] eqn:Hf.
      { eapply (guarded_so_far _ w0); [simpl; rewrite <- app_assoc; reflexivity|].
        by repeat constructor. }
      erewrite bind_run by (apply load_Some; apply lookup_new).
      destruct (recordDataFromRequest env e fetched) as [err|data] eqn:Hdata;
        cbn [bind orReturn ret fail].
      { eapply (guarded_so_far _ w0); [simpl; rewrite <- app_assoc; reflexivity|].
        by repeat constructor. }
      match goal with
      | |- context [bind (try (FindRecordById c (pathId e) _) ?f) ?rest ?w1] =>
          assert (Hrest : forall p, emitsOnly anyEffect (rest p))
            by (intros; emits_handler);
          destruct (guarded_from_the_fetch env c (withBody info data) rule e f rest Hne
                      Hrest w1) as (added & E & HG)
      end.
      eexists ([_; _] ++ added). split; [rewrite E; simpl; by rewrite <- !app_assoc|].
      intros b a af Ha' Eq.
      apply action_in_second in Eq as (l & -> & Eq); [|by repeat constructor|done].
      exists (withBody info data). split; [by exists fetched, others, data|].
      apply letThrough_after. by apply (HG l a af).
    - assert (Hg : guarded (letThrough env c rule e info) (recordDelete fin env e)).
      { unfold recordDelete. rewrite Hc, Hri. repeat guard_step. cbv zeta. rewrite ?Hsu, Hrule.
        apply guarded_from_the_fetch; [done | intros; emits_handler]. }
      intros w0. destruct (Hg w0) as (added & E & HG). exists added. split; [done|].
      intros b a af Ha' Eq. exists info. split; [done|]. by apply (HG b a af). }
  destruct (H w) as (added & E & HG).
  rewrite (effectsOf_app _ _ _ E). by apply HG.
Qed.

(** A guest updating a public row under the rule that rows be public. *)
Lemma action_needs_a_row_witness :
  entitled OpUpdate (sampleEnv ruledCollection guest) ruledCollection guest "public = true"
    (sampleRequest "r1")
    (take 3 (effectsOf (handler OpUpdate None (sampleEnv ruledCollection guest)
                          (sampleRequest "r1"))
               (sampleWorld [sampleRow ruledCollection "r1" true])))
    [sampleRow ruledCollection "r1" true].
Proof.
  eapply (action_needs_a_row_that_satisfies_the_rule OpUpdate None
            (sampleEnv ruledCollection guest) (sampleRequest "r1")
            (sampleWorld [sampleRow ruledCollection "r1" true]) ruledCollection guest
            "public = true" _
            (drop 4 (effectsOf (handler OpUpdate None (sampleEnv ruledCollection guest)
                                  (sampleRequest "r1"))
                       (sampleWorld [sampleRow ruledCollection "r1" true])))
            (EffSave AccessDefault
               (LoadData (sampleEnv ruledCollection guest) AccessDefault
                  (sampleRow ruledCollection "r1" true) ∅))
            eq_refl eq_refl eq_refl eq_refl eq_refl ltac:(discriminate) eq_refl).
  reflexivity.
Defined.

(** ** Uploaded files *)

Lemma extractKeys_spec env prefix keys :
  forall seen result,
    holdsUploads env seen result ->
    match extractKeys env prefix keys result with
    | inr m =>
        holdsUploads env (seen ++ (map (prefixed prefix) keys)) m /\
        Forall (fun k => lookupFailure env k = None) (map (prefixed prefix) keys)
    | inl err =>
        exists before k after,
          map (prefixed prefix) keys = before ++ k :: after /\
          Forall (fun k => lookupFailure env k = None) before /\
          lookupFailure env k = Some err
    end.
Proof.
  induction keys as [|k0 rest IH]; intros seen result Hinv; simpl.
  - rewrite app_nil_r. by split.
  - fold (prefixed prefix k0).
    assert (Hstep : holdsUploads env (seen ++ [prefixed prefix k0])
              (if Nat.ltb 0 (length (fst (FindUploadedFiles env (prefixed prefix k0))))
               then <[prefixed prefix k0 := fst (FindUploadedFiles env (prefixed prefix k0))]> result
               else result)).
    { intros k files. destruct (Nat.ltb_spec 0 (length (fst (FindUploadedFiles env (prefixed prefix k0))))) as [Hlen|Hlen].
      - destruct (decide (k = prefixed prefix k0)) as [->|Hne].
        + rewrite lookup_insert_eq. split.
          * intros [= <-]. split; [apply in_or_app; right; by left|]. split; [done|].
            intros E. rewrite E in Hlen. simpl in Hlen. lia.
          * intros (_ & <- & _). done.
        + rewrite lookup_insert_ne by done. rewrite (Hinv k files). split.
          * intros (Hin & ? & ?). split; [apply in_or_app; by left | done].
          * intros (Hin & ? & ?). split; [|done].
            apply in_app_or in Hin as [Hin|[<-|[]]]; done.
      - rewrite (Hinv k files). split.
        + intros (Hin & ? & ?). split; [apply in_or_app; by left | done].
        + intros (Hin & Hf & Hne). split; [|done].
          apply in_app_or in Hin as [Hin|[<-|[]]]; [done|].
          destruct files; [done|]. rewrite Hf in Hlen. simpl in Hlen. lia. }
    destruct (FindUploadedFiles env (prefixed prefix k0)) as [files [err|]] eqn:Hfind; simpl in *.
    + destruct (isErrMissingFile err) eqn:Hmiss; simpl.
      * specialize (IH _ _ Hstep).
        destruct (extractKeys env prefix rest _) as [err'|m].
        -- destruct IH as (before & k & after & E & Hb & Hk).
           exists (prefixed prefix k0 :: before), k, after. rewrite E. split; [done|].
           split; [|done]. constructor; [|done]. unfold lookupFailure. by rewrite Hfind; simpl; rewrite Hmiss.
        -- destruct IH as [Hm Hall]. rewrite <- app_assoc in Hm. split; [done|].
           constructor; [|done]. unfold lookupFailure. by rewrite Hfind; simpl; rewrite Hmiss.
      * exists [], (prefixed prefix k0), (map (prefixed prefix) rest).
        split; [done|]. split; [constructor|]. unfold lookupFailure. by rewrite Hfind; simpl; rewrite Hmiss.
    + specialize (IH _ _ Hstep).
      destruct (extractKeys env prefix rest _) as [err'|m].
      * destruct IH as (before & k & after & E & Hb & Hk).
        exists (prefixed prefix k0 :: before), k, after. rewrite E. split; [done|].
        split; [|done]. constructor; [|done]. unfold lookupFailure. by rewrite Hfind.
      * destruct IH as [Hm Hall]. rewrite <- app_assoc in Hm. split; [done|].
        constructor; [|done]. unfold lookupFailure. by rewrite Hfind.
Qed.

Lemma extractFields_spec env prefix fields :
  forall seen result,
    holdsUploads env seen result ->
    match extractFields env prefix fields result with
    | inr m =>
        holdsUploads env (seen ++ uploadKeys prefix fields) m /\
        Forall (fun k => lookupFailure env k = None) (uploadKeys prefix fields)
    | inl err =>
        exists before k after,
          uploadKeys prefix fields = before ++ k :: after /\
          Forall (fun k => lookupFailure env k = None) before /\
          lookupFailure env k = Some err
    end.
Proof.
  induction fields as [|field rest IH]; intros seen result Hinv;
    cbn [extractFields uploadKeys flat_map].
  - rewrite app_nil_r. by split.
  - fold (uploadKeys prefix rest).
    destruct (String.eqb (FieldType field) FieldTypeFile); cbn [negb app].
    + pose proof (extractKeys_spec env prefix
                    [GetName field; "+" +:+ GetName field; GetName field +:+ "+"]
                    seen result Hinv) as Hkeys.
      destruct (extractKeys env prefix _ result) as [err|result'].
      * destruct Hkeys as (before & k & after & E & Hb & Hk).
        exists before, k, (after ++ uploadKeys prefix rest).
        rewrite E, <- app_assoc. by repeat split.
      * destruct Hkeys as [Hinv' Hall].
        specialize (IH _ _ Hinv').
        destruct (extractFields env prefix rest result') as [err|m].
        -- destruct IH as (before & k & after & E & Hb & Hk).
           eexists (_ ++ before), k, after. rewrite E, <- app_assoc.
           split; [done|]. split; [|done]. by apply Forall_app.
        -- destruct IH as [Hm Hall']. rewrite <- app_assoc in Hm. split; [done|].
           by apply Forall_app.
    + apply IH, Hinv.
Qed.

(** X14.  The map that [extractUploadedFiles] returns holds exactly the
    uploads of the request: it has an entry under [k] if and only if the
    request is a multipart form, [k] is one of the keys of a file field
    of the collection (its name, or its name with the prepend or the
    append modifier, behind the prefix), and files were uploaded under
    [k]; the entry is the list of these files.  In particular the map of
    a request that is not a multipart form is empty, and no entry is an
    empty list. *)
Theorem extractUploadedFiles_holds_the_uploads :
  forall (env : Env) (re : RequestEvent) (collection : Collection) (prefix : string)
         (result : gmap string (list string)),
    extractUploadedFiles env re collection prefix = inr result ->
    forall (k : string) (files : list string),
      result !! k = Some files <->
      HasPrefix (contentType re) "multipart/form-data" = true /\
      In k (uploadKeys prefix (Fields collection)) /\
      fst (FindUploadedFiles env k) = files /\ files <> [].
Proof.
  intros env re c prefix result. unfold extractUploadedFiles.
  destruct (HasPrefix (contentType re) "multipart/form-data"); cbn [negb].
  - intros Hres k files.
    assert (Hempty : holdsUploads env [] ∅).
    { intros k' files'. rewrite lookup_empty. split; [done | by intros [[] _]]. }
    pose proof (extractFields_spec env prefix (Fields c) [] ∅ Hempty) as H.
    rewrite Hres in H. destruct H as [H _]. rewrite (H k files). simpl. tauto.
  - intros [= <-] k files. rewrite lookup_empty. split; [done | by intros [? _]].
Qed.

(** Two avatars uploaded in a multipart form. *)
Lemma extractUploadedFiles_witness :
  In "avatar" (uploadKeys "" (Fields openCollection)) /\
  fst (FindUploadedFiles twoAvatars "avatar") = ["a.png"; "b.png"].
Proof.
  destruct (proj1 (extractUploadedFiles_holds_the_uploads twoAvatars (multipartRequest "")
                     openCollection "" {[ "avatar" := ["a.png"; "b.png"] ]} eq_refl
                     "avatar" ["a.png"; "b.png"]))
    as (_ & Hkey & Hfiles & _).
  - vm_compute. reflexivity.
  - exact (conj Hkey Hfiles).
Defined.

(** X15.  [extractUploadedFiles] returns an error exactly when the request
    is a multipart form and the lookup of one of the keys fails with an
    error that is not [http.ErrMissingFile]; the error returned is the
    one of the first such lookup, in the order of the fields and of the
    three keys of a field.  Missing files are never an error. *)
Theorem extractUploadedFiles_fails_on_the_first_failed_lookup :
  forall (env : Env) (re : RequestEvent) (collection : Collection) (prefix : string)
         (err : error),
    extractUploadedFiles env re collection prefix = inl err <->
    HasPrefix (contentType re) "multipart/form-data" = true /\
    exists before k after,
      uploadKeys prefix (Fields collection) = before ++ k :: after /\
      Forall (fun k => lookupFailure env k = None) before /\
      lookupFailure env k = Some err.
Proof.
  intros env re c prefix err. unfold extractUploadedFiles.
  destruct (HasPrefix (contentType re) "multipart/form-data"); cbn [negb].
  2:{ split; [done | by intros [? _]]. }
  assert (Hempty : holdsUploads env [] ∅).
  { intros k' files'. rewrite lookup_empty. split; [done | by intros [[] _]]. }
  pose proof (extractFields_spec env prefix (Fields c) [] ∅ Hempty) as H.
  destruct (extractFields env prefix (Fields c) ∅) as [err'|m].
  - destruct H as (before & k & after & E & Hb & Hk). split.
    + intros [= <-]. split; [done|]. by exists before, k, after.
    + intros (_ & before' & k' & after' & E' & Hb' & Hk').
      f_equal. rewrite E in E'.
      assert (before = before' /\ k = k') as [_ <-]; [|congruence].
      clear -E' Hb Hb' Hk Hk'. revert before' E' Hb'.
      induction before as [|x before IH]; intros [|y before'] E' Hb'; simpl in E'.
      * by injection E' as -> _.
      * injection E' as -> _. inversion Hb'; congruence.
      * injection E' as -> _. inversion Hb; congruence.
      * injection E' as -> E'. inversion Hb; inversion Hb'; subst.
        destruct (IH ltac:(done) _ E' ltac:(done)) as [-> ->]. done.
  - destruct H as [_ Hall]. split; [done|].
    intros (_ & before & k & after & E & _ & Hk).
    rewrite E in Hall. apply Forall_app in Hall as [_ Hall].
    inversion Hall; congruence.
Qed.

Lemma mergeUploaded_fold body l :
  forall (result : gmap string Value),
    NoDup (fst <$> l) ->
    forall k,
      (forall files, (k, files) ∈ l ->
         foldl (mergeUploaded body) result l !! k =
         Some (VList (submittedNames body k ++ (VFile <$> files)))) /\
      (k ∉ fst <$> l -> foldl (mergeUploaded body) result l !! k = result !! k).
Proof.
  induction l as [|[k0 files0] rest IH]; intros result Hnd k.
  { split; [by intros ? ?%elem_of_nil | done]. }
  apply NoDup_cons in Hnd as [Hnotin Hnd]. simpl in Hnotin.
  destruct (IH (mergeUploaded body result (k0, files0)) Hnd k) as [IH1 IH2].
  cbn [foldl]. split.
  - intros files Hin. apply elem_of_cons in Hin as [[= -> ->]|Hin]; [|by apply IH1].
    rewrite IH2 by done. unfold mergeUploaded, submittedNames. by rewrite lookup_insert_eq.
  - intros Hk. rewrite fmap_cons in Hk. apply not_elem_of_cons in Hk as [Hne Hk].
    rewrite IH2 by done. simpl in Hne. unfold mergeUploaded. by rewrite lookup_insert_ne.
Qed.

Lemma mergeUploaded_in_any_order :
  forall (body result : gmap string Value) (uploadedFiles : gmap string (list string))
         (visited : list (string * list string)) (k : string),
    visited ≡ₚ map_to_list uploadedFiles ->
    foldl (mergeUploaded body) result visited !! k =
    match uploadedFiles !! k with
    | Some files => Some (VList (submittedNames body k ++ (VFile <$> files)))
    | None => result !! k
    end.
Proof.
  intros body result up visited k Hperm.
  assert (Hnd : NoDup (fst <$> visited)).
  { rewrite Hperm. apply NoDup_fst_map_to_list. }
  destruct (mergeUploaded_fold body visited result Hnd k) as [Hin Hout].
  destruct (up !! k) as [files|] eqn:Hup.
  - apply Hin. rewrite Hperm. by apply elem_of_map_to_list.
  - apply Hout. rewrite Hperm. intros Hk.
    apply list_elem_of_fmap in Hk as ([k' files] & -> & Hk).
    apply elem_of_map_to_list in Hk. simpl in Hup. congruence.
Qed.

(** X16.  When files were uploaded, [recordDataFromRequest] merges them
    into the submitted data before the modifiers are resolved again.  The
    merged data does not depend on the order in which the uploaded keys
    are visited (Go ranges over the map in no fixed order).  Under an
    uploaded key it holds the names that the body submitted under that
    key, when the key has no modifier ([+] in front, [+] or [-] behind),
    followed by the uploaded files, so that files already stored are not
    dropped; every other key is as the resolved body has it.  The result
    is the resolved merged data, without its hidden fields for a caller
    that is no superuser. *)
Theorem recordDataFromRequest_merges_the_uploads :
  forall (env : Env) (e : RequestEvent) (record : RecordObj) (info : RequestInfo)
         (uploadedFiles : gmap string (list string)),
    RequestInfoResult env = inr info ->
    extractUploadedFiles env e (recCollection record) "" = inr uploadedFiles ->
    uploadedFiles <> ∅ ->
    exists merged : gmap string Value,
      (forall visited, visited ≡ₚ map_to_list uploadedFiles ->
         foldl (mergeUploaded (Body info)) (ReplaceModifiers env record (Body info)) visited =
         merged) /\
      (forall k,
         merged !! k =
         match uploadedFiles !! k with
         | Some files => Some (VList (submittedNames (Body info) k ++ (VFile <$> files)))
         | None => ReplaceModifiers env record (Body info) !! k
         end) /\
      recordDataFromRequest env e record =
      inr (if HasSuperuserAuth info
           then ReplaceModifiers env record merged
           else unsetHidden (IsAuth (recCollection record)) (Fields (recCollection record))
                  (ReplaceModifiers env record merged)).
Proof.
  intros env e record info up Hri Hup Hne.
  exists (foldl (mergeUploaded (Body info)) (ReplaceModifiers env record (Body info))
            (map_to_list up)).
  split; [|split].
  - intros visited Hperm. apply map_eq. intros k.
    rewrite (mergeUploaded_in_any_order _ _ up visited k Hperm).
    by rewrite (mergeUploaded_in_any_order _ _ up (map_to_list up) k).
  - intros k. by apply mergeUploaded_in_any_order.
  - unfold recordDataFromRequest. rewrite Hri, Hup.
    assert (Hsize : Nat.ltb 0 (size up) = true).
    { apply Nat.ltb_lt. destruct (decide (size up = 0)) as [Hz|]; [|lia].
      by apply map_size_empty_iff in Hz. }
    rewrite Hsize. by destruct (HasSuperuserAuth info).
Qed.

(** A guest uploading two avatars while naming the stored one. *)
Lemma recordDataFromRequest_merge_witness :
  exists merged : gmap string Value,
    merged !! "avatar" =
      Some (VList [VString "old.png"; VFile "a.png"; VFile "b.png"]) /\
    recordDataFromRequest twoAvatars (multipartRequest "") (newRecord openCollection) =
    inr (unsetHidden false sampleFields merged).
Proof.
  destruct (recordDataFromRequest_merges_the_uploads twoAvatars (multipartRequest "")
              (newRecord openCollection) keepingAvatar
              {[ "avatar" := ["a.png"; "b.png"] ]} eq_refl eq_refl)
    as (merged & _ & Hk & Hres).
  - intros H. by apply (f_equal (fun m => m !! "avatar")) in H.
  - exists merged. split; [|exact Hres].
    rewrite (Hk "avatar"). reflexivity.
Defined.

(** ** Package [mailer] *)

Lemma fillAddresses_spec addrString addresses withName :
  forall i result,
    i + length addresses = length result ->
    mailer.fillAddresses addrString i addresses withName result =
    take i result ++ (mailer.serialized addrString withName <$> addresses).
Proof.
  induction addresses as [|addr rest IH]; intros i result Hlen; simpl in *.
  - rewrite app_nil_r, take_ge; [done | lia].
  - assert (Hi : i < length result) by lia.
    transitivity (mailer.fillAddresses addrString (S i) rest withName
                    (<[i := mailer.serialized addrString withName addr]> result)).
    { unfold mailer.serialized. by destruct (withName && _). }
    rewrite IH by (rewrite length_insert; lia).
    rewrite (take_S_r _ _ (mailer.serialized addrString withName addr))
      by (by apply list_lookup_insert_eq).
    rewrite take_insert_ge by lia. by rewrite <- app_assoc.
Qed.

(** X17.  [addressesToStrings] returns one string for each address, in the
    order of the addresses: the RFC 5322 form of the address when
    [withName] is set and the address has a name, and the bare email part
    otherwise.  The result of no address is the empty list. *)
Theorem addressesToStrings_serializes_each_address :
  forall (addrString : mailer.MailAddress -> string) (addresses : list mailer.MailAddress)
         (withName : bool),
    mailer.addressesToStrings addrString addresses withName =
    (mailer.serialized addrString withName <$> addresses).
Proof.
  intros addrString addresses withName. unfold mailer.addressesToStrings.
  rewrite fillAddresses_spec by (by rewrite length_replicate).
  reflexivity.
Qed.

(** X18.  Without [withName], or when no address has a name, the result of
    [addressesToStrings] is the list of the email parts: it does not
    depend on how the standard library serializes an address, and no
    display name gets into it. *)
Theorem addressesToStrings_without_names :
  forall (addrString : mailer.MailAddress -> string) (addresses : list mailer.MailAddress)
         (withName : bool),
    withName = false \/ Forall (fun addr => mailer.Name addr = "") addresses ->
    mailer.addressesToStrings addrString addresses withName = (mailer.Address <$> addresses).
Proof.
  intros addrString addresses withName H. unfold mailer.addressesToStrings.
  rewrite fillAddresses_spec by (by rewrite length_replicate).
  simpl. apply Forall_fmap_ext_1. unfold mailer.serialized.
  destruct H as [->|H]; [by apply Forall_true|].
  eapply Forall_impl; [exact H|]. intros addr ->. simpl. by rewrite andb_false_r.
Qed.

(** Two addresses, one of them with a name. *)
Lemma addressesToStrings_without_names_witness :
  mailer.addressesToStrings mailer.angleBrackets
    [ {| mailer.Name := "Ann"; mailer.Address := "ann@example.com" |};
      {| mailer.Name := ""; mailer.Address := "bob@example.com" |} ] false =
  ["ann@example.com"; "bob@example.com"].
Proof.
  apply (addressesToStrings_without_names mailer.angleBrackets
           [ {| mailer.Name := "Ann"; mailer.Address := "ann@example.com" |};
             {| mailer.Name := ""; mailer.Address := "bob@example.com" |} ] false).
  left. reflexivity.
Defined.

(** ** Package [hanzobase] *)

Lemma ExistInSlice_flags arg :
  hanzobase.ExistInSlice arg ["-h"; "--help"; "-v"; "--version"] = true <->
  arg = "-h" \/ arg = "--help" \/ arg = "-v" \/ arg = "--version".
Proof.
  unfold hanzobase.ExistInSlice. cbn [existsb].
  rewrite !orb_true_iff, !String.eqb_eq. intuition discriminate.
Qed.

(** One round of the loop on a help or version flag. *)
Lemma scanArgs_flag cmd arg rest :
  arg = "-h" \/ arg = "--help" \/ arg = "-v" \/ arg = "--version" ->
  (hanzobase.unshadowed cmd arg /\
   hanzobase.scanArgs cmd ["-h"; "--help"; "-v"; "--version"] (arg :: rest) = true) \/
  (~ hanzobase.unshadowed cmd arg /\
   hanzobase.scanArgs cmd ["-h"; "--help"; "-v"; "--version"] (arg :: rest) =
   hanzobase.scanArgs cmd ["-h"; "--help"; "-v"; "--version"] rest).
Proof.
  unfold hanzobase.unshadowed.
  intros [-> | [-> | [-> | ->]]]; cbn;
    match goal with
    | |- context [isNil ?x] => destruct x eqn:Hl; cbn
    end;
    first [ left; split; [tauto | reflexivity]
          | right; split; [|reflexivity];
            intros [[? ?]|[[? ?]|[[? ?]|[? ?]]]]; congruence ].
Qed.

Lemma scanArgs_true cmd args :
  hanzobase.scanArgs cmd ["-h"; "--help"; "-v"; "--version"] args = true <->
  exists arg, In arg args /\ hanzobase.unshadowed cmd arg.
Proof.
  induction args as [|arg rest IH].
  - split; [done | by intros (? & [] & _)].
  - destruct (hanzobase.ExistInSlice arg ["-h"; "--help"; "-v"; "--version"]) eqn:Hex.
    + apply ExistInSlice_flags in Hex.
      destruct (scanArgs_flag cmd arg rest Hex) as [[Hu ->]|[Hu ->]].
      * split; [|done]. intros _. exists arg. split; [by left | done].
      * rewrite IH. split.
        -- intros (a & Hin & Ha). exists a. split; [by right | done].
        -- intros (a & [<-|Hin] & Ha); [done | by exists a].
    + cbn [hanzobase.scanArgs]. rewrite Hex. cbn [negb]. rewrite IH. split.
      * intros (a & Hin & Hu). exists a. split; [by right | done].
      * intros (a & [<-|Hin] & Hu); [|by exists a].
        assert (hanzobase.ExistInSlice arg ["-h"; "--help"; "-v"; "--version"] = true);
          [|congruence].
        apply ExistInSlice_flags. unfold hanzobase.unshadowed in Hu. tauto.
Qed.

(** A version flag skips the bootstrap, unless the command has a flag of
    its own with that shorthand; a bootstrapped app skips it even with an
    empty [os.Args]. *)
Example skipBootstrap_version_flag :
  hanzobase.skipBootstrap (hanzobase.freshApp hanzobase.plainCommand) ["hb"; "serve"; "-v"] =
    Some true /\
  hanzobase.skipBootstrap (hanzobase.freshApp hanzobase.verboseCommand) ["hb"; "serve"; "-v"] =
    Some false /\
  hanzobase.skipBootstrap
    {| hanzobase.IsBootstrapped := true; hanzobase.Find := fun _ => inl ErrNoRows |} [] =
    Some true.
Proof. repeat split; reflexivity. Qed.

(** X19.  With a non-empty [os.Args], [skipBootstrap] answers true exactly
    when the app is already bootstrapped, or the root command does not
    find the command of the arguments, or one of the arguments (the
    program name included) is [-h], [--help], [-v] or [--version] and the
    command found has no flag of its own with that shorthand or name. *)
Theorem skipBootstrap_skips_exactly_when :
  forall (hb : hanzobase.HanzoBase) (arg0 : string) (args : list string),
    hanzobase.skipBootstrap hb (arg0 :: args) = Some true <->
    hanzobase.IsBootstrapped hb = true \/
    (exists err, hanzobase.Find hb args = inl err) \/
    (exists cmd arg,
       hanzobase.Find hb args = inr cmd /\ In arg (arg0 :: args) /\
       hanzobase.unshadowed cmd arg).
Proof.
  intros hb arg0 args. unfold hanzobase.skipBootstrap.
  destruct (hanzobase.IsBootstrapped hb); [by split; [left|]|].
  destruct (hanzobase.Find hb args) as [err|cmd] eqn:Hf.
  - split; [by right; left; eauto | done].
  - split.
    + intros H. right. right.
      destruct (proj1 (scanArgs_true cmd (arg0 :: args))) as (arg & Hin & Hu);
        [congruence | by exists cmd, arg].
    + intros [?|[[err ?]|(cmd' & arg & [= <-] & Hin & Hu)]]; try done.
      f_equal. apply scanArgs_true. by exists arg.
Qed.

(** What holds at every moment of a call of [Execute]: the goroutines run
    only once the caller is past the bootstrap, and every value sent on
    [done] is in the buffer or was received by the caller. *)
Lemma Execute_invariant env x :
  hanzobase.reachable env x ->
  hanzobase.done x <= hanzobase.doneCapacity /\
  match hanzobase.caller x with
  | hanzobase.AtBootstrap =>
      x = hanzobase.started
  | hanzobase.AtReceive =>
      hanzobase.listener x <> hanzobase.ListenerNotStarted /\
      hanzobase.runner x <> hanzobase.RunnerNotStarted /\
      hanzobase.sent x = hanzobase.done x
  | hanzobase.AtTerminate =>
      hanzobase.listener x <> hanzobase.ListenerNotStarted /\
      hanzobase.runner x <> hanzobase.RunnerNotStarted /\
      hanzobase.sent x = S (hanzobase.done x)
  | hanzobase.Returned r =>
      (hanzobase.listener x = hanzobase.ListenerNotStarted /\
       hanzobase.runner x = hanzobase.RunnerNotStarted /\
       hanzobase.done x = 0 /\
       hanzobase.skipBootstrapResult env = false /\
       hanzobase.BootstrapResult env = r /\ r <> None) \/
      (hanzobase.listener x <> hanzobase.ListenerNotStarted /\
       hanzobase.runner x <> hanzobase.RunnerNotStarted /\
       hanzobase.sent x = S (hanzobase.done x) /\
       r = hanzobase.terminate env)
  end.
Proof.
  unfold hanzobase.doneCapacity.
  induction 1 as [|x y Hreach IH Hstep].
  { simpl. split; [lia | done]. }
  destruct IH as [Hcap IH].
  inversion Hstep; subst; unfold hanzobase.sent in *; simpl in *.
  - split; [lia|]. left. by rewrite H0.
  - split; [lia|]. done.
  - split; [done|]. rewrite H in IH.
    destruct (hanzobase.caller x) as [| | |r]; simpl in *.
    + by subst x.
    + destruct IH as (? & ? & ?). done.
    + destruct IH as (? & ? & ?). done.
    + destruct IH as [(? & _)|(? & ? & ? & ?)]; [done|]. right. done.
  - unfold hanzobase.doneCapacity in *. split; [lia|]. rewrite H in IH.
    destruct (hanzobase.caller x) as [| | |r]; simpl in *.
    + by subst x.
    + destruct IH as (? & ? & ?). repeat split; try done. lia.
    + destruct IH as (? & ? & ?). repeat split; try done. lia.
    + destruct IH as [(? & _)|(? & ? & ? & ?)]; [done|]. right. repeat split; try done. lia.
  - split; [done|]. rewrite H in IH.
    destruct (hanzobase.caller x) as [| | |r]; simpl in *.
    + by subst x.
    + destruct IH as (? & ? & ?). done.
    + destruct IH as (? & ? & ?). done.
    + destruct IH as [(_ & ? & _)|(? & ? & ? & ?)]; [done|]. right. done.
  - unfold hanzobase.doneCapacity in *. split; [lia|]. rewrite H in IH.
    destruct (hanzobase.caller x) as [| | |r]; simpl in *.
    + by subst x.
    + destruct IH as (? & ? & ?). repeat split; try done. lia.
    + destruct IH as (? & ? & ?). repeat split; try done. lia.
    + destruct IH as [(_ & ? & _)|(? & ? & ? & ?)]; [done|]. right. repeat split; try done. lia.
  - rewrite H in IH. destruct IH as (? & ? & ?). split; [lia|]. repeat split; try done. lia.
  - rewrite H in IH. destruct IH as (? & ? & ?). split; [done|]. right. done.
Qed.

(** The root command returns and sends, then the signal arrives. *)
Lemma bothDone_reachable : hanzobase.reachable hanzobase.plainExecute hanzobase.bothDone.
Proof.
  apply (hanzobase.ReachStep _
           {| hanzobase.caller := hanzobase.AtReceive;
              hanzobase.listener := hanzobase.AwaitingSignal;
              hanzobase.runner := hanzobase.RunnerFinished; hanzobase.done := 1 |});
    [|by apply hanzobase.SignalArrives].
  apply (hanzobase.ReachStep _
           {| hanzobase.caller := hanzobase.AtReceive;
              hanzobase.listener := hanzobase.AwaitingSignal;
              hanzobase.runner := hanzobase.RunnerSending; hanzobase.done := 0 |});
    [|apply hanzobase.RunnerSends; [done | unfold hanzobase.doneCapacity; simpl; lia]].
  apply (hanzobase.ReachStep _
           {| hanzobase.caller := hanzobase.AtReceive;
              hanzobase.listener := hanzobase.AwaitingSignal;
              hanzobase.runner := hanzobase.Executing; hanzobase.done := 0 |});
    [|by apply hanzobase.CommandReturns].
  apply (hanzobase.ReachStep _ hanzobase.started); [apply hanzobase.ReachStart|].
  apply hanzobase.GoroutinesStart. by left.
Defined.

(** The root command returns and sends, the caller receives and triggers
    the terminate hook. *)
Lemma terminated_reachable : hanzobase.reachable hanzobase.plainExecute hanzobase.terminated.
Proof.
  apply (hanzobase.ReachStep _
           {| hanzobase.caller := hanzobase.AtTerminate;
              hanzobase.listener := hanzobase.AwaitingSignal;
              hanzobase.runner := hanzobase.RunnerFinished; hanzobase.done := 0 |});
    [|by apply hanzobase.CallerTerminates].
  apply (hanzobase.ReachStep _
           {| hanzobase.caller := hanzobase.AtReceive;
              hanzobase.listener := hanzobase.AwaitingSignal;
              hanzobase.runner := hanzobase.RunnerFinished; hanzobase.done := 1 |});
    [|by apply (hanzobase.CallerReceives _
                  {| hanzobase.caller := hanzobase.AtReceive;
                     hanzobase.listener := hanzobase.AwaitingSignal;
                     hanzobase.runner := hanzobase.RunnerFinished; hanzobase.done := 1 |} 0)].
  apply (hanzobase.ReachStep _
           {| hanzobase.caller := hanzobase.AtReceive;
              hanzobase.listener := hanzobase.AwaitingSignal;
              hanzobase.runner := hanzobase.RunnerSending; hanzobase.done := 0 |});
    [|apply hanzobase.RunnerSends; [done | unfold hanzobase.doneCapacity; simpl; lia]].
  apply (hanzobase.ReachStep _
           {| hanzobase.caller := hanzobase.AtReceive;
              hanzobase.listener := hanzobase.AwaitingSignal;
              hanzobase.runner := hanzobase.Executing; hanzobase.done := 0 |});
    [|by apply hanzobase.CommandReturns].
  apply (hanzobase.ReachStep _ hanzobase.started); [apply hanzobase.ReachStart|].
  apply hanzobase.GoroutinesStart. by left.
Defined.

(** X20.  In [Execute] no goroutine is left blocked on its send to [done]:
    at every moment that a call can get to, a goroutine that stands at
    [done <- true] finds room in the buffer, or else the caller stands
    at its receive with a value to take, after which there is room.
    (The channel is made with capacity 1; the caller receives once.) *)
Theorem Execute_leaves_no_sender_blocked :
  forall (env : hanzobase.ExecuteEnv) (x : hanzobase.Execution),
    hanzobase.reachable env x ->
    hanzobase.sending x ->
    hanzobase.done x < hanzobase.doneCapacity \/
    (hanzobase.caller x = hanzobase.AtReceive /\ hanzobase.done x = 1).
Proof.
  intros env x Hreach Hsend.
  destruct (Execute_invariant env x Hreach) as [Hcap Hinv].
  unfold hanzobase.doneCapacity, hanzobase.sending, hanzobase.sent in *.
  destruct (hanzobase.done x) as [|[|n]] eqn:Hdone; [left; lia | | lia].
  right. split; [|done].
  destruct (hanzobase.caller x) as [| | |r]; simpl in *.
  - subst x. by destruct Hsend.
  - done.
  - destruct Hinv as (_ & _ & Hsent).
    destruct Hsend as [Hs|Hs]; rewrite Hs in Hsent;
      [destruct (hanzobase.runner x) | destruct (hanzobase.listener x)]; simpl in *; lia.
  - destruct Hinv as [(Hl & Hr & _)|(_ & _ & Hsent & _)].
    + destruct Hsend as [Hs|Hs]; congruence.
    + destruct Hsend as [Hs|Hs]; rewrite Hs in Hsent;
        [destruct (hanzobase.runner x) | destruct (hanzobase.listener x)]; simpl in *; lia.
Qed.

(** The listener, whose signal arrives when the root command has sent. *)
Lemma Execute_sender_witness :
  hanzobase.done hanzobase.bothDone < hanzobase.doneCapacity \/
  (hanzobase.caller hanzobase.bothDone = hanzobase.AtReceive /\
   hanzobase.done hanzobase.bothDone = 1).
Proof.
  apply (Execute_leaves_no_sender_blocked hanzobase.plainExecute hanzobase.bothDone
           bothDone_reachable).
  left. reflexivity.
Defined.

(** X21.  [Execute] returns the error of a failed bootstrap before
    anything is started; otherwise it triggers the terminate hook, and
    returns its result, only after the root command returned or the
    interrupt signal arrived: when the caller is past its receive, one of
    the two goroutines has sent on [done]. *)
Theorem Execute_terminates_after_command_or_signal :
  forall (env : hanzobase.ExecuteEnv) (x : hanzobase.Execution),
    hanzobase.reachable env x ->
    match hanzobase.caller x with
    | hanzobase.AtTerminate =>
        hanzobase.listener x = hanzobase.ListenerFinished \/
        hanzobase.runner x = hanzobase.RunnerFinished
    | hanzobase.Returned r =>
        (hanzobase.skipBootstrapResult env = false /\
         hanzobase.BootstrapResult env = r /\ r <> None /\
         hanzobase.listener x = hanzobase.ListenerNotStarted /\
         hanzobase.runner x = hanzobase.RunnerNotStarted) \/
        (r = hanzobase.terminate env /\
         (hanzobase.listener x = hanzobase.ListenerFinished \/
          hanzobase.runner x = hanzobase.RunnerFinished))
    | _ => True
    end.
Proof.
  intros env x Hreach.
  destruct (Execute_invariant env x Hreach) as [Hcap Hinv].
  unfold hanzobase.sent in *.
  destruct (hanzobase.caller x) as [| | |r]; try done.
  - destruct Hinv as (_ & _ & Hsent).
    destruct (hanzobase.listener x), (hanzobase.runner x); simpl in *; try lia; tauto.
  - destruct Hinv as [(Hl & Hr & _ & Hs & Hb & Hn)|(_ & _ & Hsent & Hr)]; [left; tauto|].
    right. split; [done|].
    destruct (hanzobase.listener x), (hanzobase.runner x); simpl in *; try lia; tauto.
Qed.

(** A call that returned after the root command did. *)
Lemma Execute_terminates_witness :
  hanzobase.listener hanzobase.terminated = hanzobase.ListenerFinished \/
  hanzobase.runner hanzobase.terminated = hanzobase.RunnerFinished.
Proof.
  destruct (Execute_terminates_after_command_or_signal hanzobase.plainExecute
              hanzobase.terminated terminated_reachable) as [(H & _)|(_ & H)].
  - discriminate H.
  - exact H.
Defined.

(** ** The collections store *)

Lemma refresh_fold_lookup l : forall (cache : gmap string bool) k,
  foldl (fun cache c => <[stores.id c := stores.hasProtectedFile c]> cache) cache l !! k =
  match stores.lastWithId k l with
  | Some c => Some (stores.hasProtectedFile c)
  | None => cache !! k
  end.
Proof.
  unfold stores.lastWithId.
  induction l as [|c rest IH]; intros cache k; simpl; [done|].
  rewrite IH. destruct (String.eqb (stores.id c) k) eqn:E.
  - apply String.eqb_eq in E. subst k.
    destruct (List.filter _ rest) as [|c' rest'] eqn:Hf; simpl.
    + apply lookup_insert_eq.
    + destruct (last (c' :: rest')) eqn:Hl; [done|]. by apply last_None in Hl.
  - apply String.eqb_neq in E.
    destruct (last (List.filter _ rest)); [done|]. by apply lookup_insert_ne.
Qed.

(** X22.  After [refreshProtectedFilesCollectionsCache] the cache holds,
    under the id of every listed collection, whether that collection has
    a protected file field (for collections that share an id, the last of
    the list decides).  The entry of an id that is not listed stays as it
    was: the refresh never removes an entry, so the entry of a removed
    collection is kept. *)
Theorem refresh_cache_entries :
  forall (s : stores.Stores) (k : string),
    stores.protectedFilesCollectionsCache (stores.refreshProtectedFilesCollectionsCache s) !! k =
    match stores.lastWithId k (stores.collections s) with
    | Some c => Some (stores.hasProtectedFile c)
    | None => stores.protectedFilesCollectionsCache s !! k
    end.
Proof. intros s k. apply refresh_fold_lookup. Qed.

(** X23.  Refreshing the cache twice is the same as refreshing it once. *)
Theorem refresh_cache_is_idempotent :
  forall (s : stores.Stores),
    stores.refreshProtectedFilesCollectionsCache (stores.refreshProtectedFilesCollectionsCache s) =
    stores.refreshProtectedFilesCollectionsCache s.
Proof.
  intros s. unfold stores.refreshProtectedFilesCollectionsCache. simpl. f_equal.
  apply map_eq. intros k. rewrite !refresh_fold_lookup.
  by destruct (stores.lastWithId k (stores.collections s)).
Qed.
